(** * A shallow embedding of the kb-labs setup engine

    The development follows the TypeScript sources of
    [@kb-labs/setup-engine]: the configuration analyzer, the planner, the
    change journal and the transactional executor.  Promise-returning
    functions are run to completion one after the other (the engine never
    starts two filesystem calls at once), so [async]/[await] is modelled
    by plain sequencing in a state-and-exception monad over the
    filesystem. *)

From Stdlib Require Import ZArith Ascii String List Bool Lia.
From stdpp Require Import base option list gmap strings pretty.

Set Warnings "-register-all".

Open Scope string_scope.
Open Scope list_scope.

(** ** Paths

    A resolved path is the list of its segments below the filesystem
    root: ["/ws/.kb/a.txt"] is [["ws"; ".kb"; "a.txt"]].  Operation paths
    are the raw strings of the source and go through [path_resolve]. *)

Abbreviation path := (list string).

(** [s.split('/')] *)
Fixpoint split_slash (s : string) : list string :=
  match s with
  | EmptyString => [EmptyString]
  | String c rest =>
      if Ascii.eqb c "/" then EmptyString :: split_slash rest
      else match split_slash rest with
           | [] => [String c EmptyString]
           | h :: t => String c h :: t
           end
  end.

(** [segments.join('/')] *)
Fixpoint join_slash (segs : list string) : string :=
  match segs with
  | [] => ""
  | [s] => s
  | s :: rest => s +:+ "/" +:+ join_slash rest
  end.

Definition isAbsolute (p : string) : bool :=
  match p with
  | String c _ => Ascii.eqb c "/"
  | EmptyString => false
  end.

(** One step of POSIX normalisation: empty segments and ["."] are
    dropped, [".."] pops a segment (and stays at the root). *)
Definition resolve_step (acc : path) (seg : string) : path :=
  if String.eqb seg "" then acc
  else if String.eqb seg "." then acc
  else if String.eqb seg ".." then removelast acc
  else acc ++ [seg].

(** [path.resolve(base, p)] for an already resolved [base]. *)
Definition path_resolve (base : path) (p : string) : path :=
  fold_left resolve_step (split_slash p) (if isAbsolute p then [] else base).

(** [path.dirname] on resolved paths. *)
Definition dirname (p : path) : path := removelast p.

(** [path.relative(root, target)] for a [target] below [root]. *)
Definition path_relative (root target : path) : string :=
  join_slash (drop (length root) target).

Fixpoint is_prefix (a b : path) : bool :=
  match a, b with
  | [], _ => true
  | x :: a', y :: b' => String.eqb x y && is_prefix a' b'
  | _ :: _, [] => false
  end.

(** ** JSON values

    [undefined] is [None] in an [option json].  Objects keep their keys
    in insertion order, as JavaScript objects do for the non-numeric keys
    the engine works with. *)

Inductive json : Type :=
  | JNull
  | JBool (b : bool)
  | JNum (n : Z)
  | JStr (s : string)
  | JArr (items : list json)
  | JObj (fields : list (string * json)).

Fixpoint assoc {A} (k : string) (kvs : list (string * A)) : option A :=
  match kvs with
  | [] => None
  | (k', v) :: rest => if String.eqb k k' then Some v else assoc k rest
  end.

(** [obj[k] = v]: an existing key keeps its position, a new key goes last. *)
Fixpoint assoc_set {A} (k : string) (v : A) (kvs : list (string * A))
  : list (string * A) :=
  match kvs with
  | [] => [(k, v)]
  | (k', v') :: rest =>
      if String.eqb k k' then (k', v) :: rest else (k', v') :: assoc_set k v rest
  end.

(** [delete obj[k]] *)
Fixpoint assoc_del {A} (k : string) (kvs : list (string * A))
  : list (string * A) :=
  match kvs with
  | [] => []
  | (k', v') :: rest =>
      if String.eqb k k' then assoc_del k rest else (k', v') :: assoc_del k rest
  end.

Definition is_digit (c : ascii) : bool :=
  (48 <=? nat_of_ascii c)%nat && (nat_of_ascii c <=? 57)%nat.

Fixpoint digits_value (acc : nat) (s : string) : option nat :=
  match s with
  | EmptyString => Some acc
  | String c rest =>
      if is_digit c then digits_value (10 * acc + (nat_of_ascii c - 48)) rest
      else None
  end.

(** The array index a property key denotes, if any: a canonical decimal
    numeral (["0"], ["17"], but not ["01"] or [""]). *)
Definition array_index (k : string) : option nat :=
  match k with
  | EmptyString => None
  | String c rest =>
      if Ascii.eqb c "0" then (if String.eqb rest "" then Some 0%nat else None)
      else digits_value 0 k
  end.

(** [typeof v === 'object'] for a defined [v] ([null] included). *)
Definition typeof_object (v : json) : bool :=
  match v with
  | JNull | JArr _ | JObj _ => true
  | _ => false
  end.

(** [v[k]] on a value with [typeof v === 'object'] that is not [null]:
    own properties of objects and the elements of arrays.  Properties
    inherited from the prototypes ([constructor], [length], ...) are not
    part of the model. *)
Definition get_prop (v : json) (k : string) : option json :=
  match v with
  | JObj fields => assoc k fields
  | JArr items => i ← array_index k; items !! i
  | _ => None
  end.

(** [util.isDeepStrictEqual] on JSON data: structural equality, with the
    fields of objects compared regardless of their order. *)
Fixpoint deep_equal (a b : json) : bool :=
  match a, b with
  | JNull, JNull => true
  | JBool x, JBool y => Bool.eqb x y
  | JNum x, JNum y => (x =? y)%Z
  | JStr x, JStr y => String.eqb x y
  | JArr xs, JArr ys =>
      (fix items xs ys :=
         match xs, ys with
         | [], [] => true
         | x :: xs', y :: ys' => deep_equal x y && items xs' ys'
         | _, _ => false
         end) xs ys
  | JObj fx, JObj fy =>
      (length fx =? length fy)%nat &&
      (fix fields fx :=
         match fx with
         | [] => true
         | (k, v) :: rest =>
             match assoc k fy with
             | Some w => deep_equal v w
             | None => false
             end && fields rest
         end) fx
  | _, _ => false
  end.

Definition isDeepStrictEqual (a b : option json) : bool :=
  match a, b with
  | None, None => true
  | Some x, Some y => deep_equal x y
  | _, _ => false
  end.

(** ** Operations (setup-operations/src/types/types.ts) *)

(** The string-literal unions of the source become enumerations; the
    constructor carries the union's name as a prefix where the literal
    alone is taken ([delete], [merge], [set], ...). *)
Inductive FileAction := act_ensure | act_update | act_delete.
Inductive ConfigAction := cfg_merge | cfg_set | cfg_unset.
Inductive ConfigMergeStrategy := strat_shallow | strat_deep | strat_replace.
Inductive ScriptConflictResolution := res_keep | res_replace | res_prompt.

Record OperationTemplateSpec := {
  source : string;
  variables : option (list (string * string));
}.

Record FileOperation := {
  file_action : FileAction;
  file_path : string;
  content : option string;
  template : option OperationTemplateSpec;
  encoding : option string;
  mode : option Z;
  checksum : option string;
}.

Record ConfigOperation := {
  config_action : ConfigAction;
  config_path : string;
  pointer : string;
  value : option json;
  strategy : option ConfigMergeStrategy;
}.

Record ScriptOperation := {
  script_action : FileAction;
  script_file : string;
  name : string;
  command : option string;
  conflictResolution : option ScriptConflictResolution;
}.

Record CodeOperation := {
  code_file : string;
}.

Inductive Operation :=
  | OpFile (op : FileOperation)
  | OpConfig (op : ConfigOperation)
  | OpCode (op : CodeOperation)
  | OpScript (op : ScriptOperation).

Record OperationMetadata := {
  id : string;
  description : string;
  dependencies : option (list string);
  rawContentBase64 : option string;
}.

Record OperationWithMetadata := {
  operation : Operation;
  metadata : OperationMetadata;
}.

(** ** Config analyzer (analyzer/config-analyzer.ts) *)

Inductive OperationRiskLevel := risk_safe | risk_moderate | risk_high.

Record Conflict := {
  conflict_type : string;
  conflict_path : string;
  actual : option string;
  suggestion : option string;
}.

(** [(s.replace(/ab/g, r))] for a two-character pattern. *)
Fixpoint replace_pair (a b : ascii) (r : string) (s : string) : string :=
  match s with
  | EmptyString => EmptyString
  | String x t =>
      match t with
      | String y rest =>
          if Ascii.eqb x a && Ascii.eqb y b then r +:+ replace_pair a b r rest
          else String x (replace_pair a b r t)
      | EmptyString => String x EmptyString
      end
  end.

Definition decodePointer (pointer : string) : list string :=
  if String.eqb pointer "" || String.eqb pointer "/" then []
  else map (fun segment => replace_pair "~" "0" "~" (replace_pair "~" "1" "/" segment))
           (drop 1 (split_slash pointer)).

Definition getPointerValue (target : option json) (pointer : string) : option json :=
  let segments := decodePointer pointer in
  fold_left
    (fun (current : option json) segment =>
       match current with
       | None => None
       | Some v =>
           if typeof_object v
           then match v with JNull => None | _ => get_prop v segment end
           else None
       end)
    segments target.

(** What the analyzers report as the observed state ([current: unknown]
    in the source): a JSON value for config and script operations, a
    file description for file operations. *)
Record FileState := {
  fs_exists : bool;
  fs_size : option nat;
  fs_mode : option Z;
  fs_content : option string;
}.

Inductive Observed :=
  | ObsJson (v : json)
  | ObsFile (st : FileState).

Record AnalysisResult := {
  needed : bool;
  current : option Observed;
  conflicts : option (list Conflict);
  risk : OperationRiskLevel;
  notes : option (list string);
}.

(** JavaScript truthiness of a possibly undefined JSON value. *)
Definition truthy (v : option json) : bool :=
  match v with
  | None | Some JNull => false
  | Some (JBool b) => b
  | Some (JNum n) => negb (n =? 0)%Z
  | Some (JStr s) => negb (String.eqb s "")
  | Some (JArr _) | Some (JObj _) => true
  end.

Definition typeof_is_object (v : option json) : bool :=
  match v with
  | Some x => typeof_object x
  | None => false
  end.

Definition isArray (v : option json) : bool :=
  match v with
  | Some (JArr _) => true
  | _ => false
  end.

(** [isDeepSubset(target, subset)].  The test [subset === undefined] of
    the source never fires on JSON data (neither the payload reaching
    this function nor the entries of an object are [undefined]), so
    [subset] is a [json]. *)
Fixpoint isDeepSubset (target : option json) (subset : json) : bool :=
  match target with
  | None | Some JNull => false
  | Some t =>
      match subset with
      | JArr _ => deep_equal t subset
      | JObj fields =>
          if typeof_object t then
            (fix entries fs :=
               match fs with
               | [] => true
               | (key, v) :: rest =>
                   if negb (isDeepSubset (get_prop t key) v) then false
                   else entries rest
               end) fields
          else false
      | _ => deep_equal t subset
      end
  end.

Definition ObsJson_opt (v : option json) : option Observed := ObsJson <$> v.

Definition evaluateDocument (document : json) (operation : ConfigOperation)
  : AnalysisResult :=
  let currentValue := getPointerValue (Some document) (pointer operation) in
  match config_action operation with
  | cfg_unset =>
      let needed := match currentValue with Some _ => true | None => false end in
      {| needed := needed; current := ObsJson_opt currentValue; conflicts := None;
         risk := if needed then risk_moderate else risk_safe; notes := None |}
  | cfg_set =>
      let equal := isDeepStrictEqual currentValue (value operation) in
      {| needed := negb equal; current := ObsJson_opt currentValue;
         conflicts := None; risk := risk_safe; notes := None |}
  | cfg_merge =>
      if truthy (value operation) && typeof_is_object (value operation)
         && negb (isArray (value operation))
      then
        let subset :=
          match value operation with
          | Some v => isDeepSubset currentValue v
          | None => true
          end in
        {| needed := negb subset; current := ObsJson_opt currentValue;
           conflicts := None; risk := risk_safe;
           notes := if subset
                    then Some ["Config already matches desired merge payload."]
                    else None |}
      else
        let equal := isDeepStrictEqual currentValue (value operation) in
        {| needed := negb equal; current := ObsJson_opt currentValue;
           conflicts := None; risk := risk_safe; notes := None |}
  end.

Definition handleMissingDocument (operation : ConfigOperation) : AnalysisResult :=
  match config_action operation with
  | cfg_unset =>
      {| needed := false; current := None; conflicts := None; risk := risk_safe;
         notes := Some ["Config file missing, nothing to unset."] |}
  | _ =>
      {| needed := true; current := None; conflicts := None; risk := risk_safe;
         notes := None |}
  end.

(** The specification's reading of "deep subset", to compare
    [isDeepSubset] with: an array or a scalar payload must be deeply
    equal to the target; an object payload asks the target to be an
    object (or array) holding, under every key of the payload, a value
    the payload's value is a deep subset of. *)
Inductive DeepSubset : option json -> json -> Prop :=
  | DeepSubset_array t items :
      deep_equal t (JArr items) = true -> DeepSubset (Some t) (JArr items)
  | DeepSubset_scalar t v :
      (forall items, v <> JArr items) -> (forall fields, v <> JObj fields) ->
      deep_equal t v = true -> DeepSubset (Some t) v
  | DeepSubset_object t fields :
      t <> JNull -> typeof_object t = true ->
      (forall key v, In (key, v) fields -> DeepSubset (get_prop t key) v) ->
      DeepSubset (Some t) (JObj fields).

(** ** The change journal's data (contracts.ts) *)

Record OperationSnapshot := {
  snap_exists : bool;
  snap_content : option string;
  snap_checksum : option string;
  snap_metadata : option OperationMetadata;
}.

(** [timestamp] is the clock reading; the source renders it with
    [toISOString]. *)
Record JournalEntry := {
  timestamp : Z;
  entry_operation : OperationWithMetadata;
  before : OperationSnapshot;
  after : option OperationSnapshot;
  entry_backupPath : option path;
}.

(** The state captured by the closure [createChangeJournal] returns. *)
Record Journal := {
  journal_workspaceRoot : path;
  maxBytes : Z;
  entries : list JournalEntry;
  entryIndex : gmap string nat;
  artifacts_backups : list path;
  artifacts_logs : list path;
  logPath : option path;
}.

Definition DEFAULT_CAPTURE_BYTES : Z := 256 * 1024.

(** [createChangeJournal(options)]; an empty [logPath] string counts as
    no log path, as it does for the source's truthiness tests. *)
Definition createChangeJournal (workspaceRoot : path) (optLogPath : option path)
    (maxCaptureBytes : option Z) : Journal :=
  {| journal_workspaceRoot := workspaceRoot;
     maxBytes := default DEFAULT_CAPTURE_BYTES maxCaptureBytes;
     entries := [];
     entryIndex := ∅;
     artifacts_backups := [];
     artifacts_logs := match optLogPath with Some l => [l] | None => [] end;
     logPath := optLogPath |}.

(** ** The host: what Node.js provides

    The engine calls into the JavaScript runtime for JSON text, hashing,
    character encodings, regular expressions and the clock.  These are
    not part of the repository; the model takes them as a parameter. *)

Record Host := {
  (** [Date.now()] at the n-th reading of the clock *)
  now : nat -> Z;
  (** [process.cwd()] *)
  cwd : path;
  (** permission bits of a file created by [writeFile] *)
  create_mode : Z;
  (** [JSON.parse]; [None] stands for the [SyntaxError] *)
  JSON_parse : string -> option json;
  (** [JSON.stringify(v, null, 2)] *)
  JSON_stringify : json -> string;
  (** [JSON.stringify(entries, null, 2)] on journal entries *)
  JSON_stringify_entries : list JournalEntry -> string;
  (** [Buffer.from(text, encoding)] and [buffer.toString(encoding)] *)
  Buffer_from : string -> string -> string;
  Buffer_toString : string -> string -> string;
  (** [createHash('sha256').update(buffer).digest('hex')] *)
  sha256_hex : string -> string;
  (** [acc.replace(new RegExp(`{{\\s*${escapeRegExp(key)}\\s*}}`, 'g'), value)] *)
  replace_placeholder : string -> string -> string -> string;
}.

(** ** The filesystem and the run state

    Files carry their bytes and permission bits.  Directories are only
    recorded ([mkdir]); the model covers runs in which no operation
    names a directory where a file is expected and in which the
    filesystem calls fail for no other reason than a missing file. *)

Record File := {
  f_bytes : string;
  f_mode : Z;
}.

Record AppliedMutation := {
  targetPath : path;
  mutation_backupPath : option path;
  existedBefore : bool;
}.

(** Everything a run can change: the disk, the clock, the two arrays of
    the executor's [OperationContext] and the journal handed to
    [execute] ([None] when the caller passes none). *)
Record State := {
  files : gmap path File;
  dirs : gset path;
  clock : nat;
  mutations : list AppliedMutation;
  backupRegistry : list path;
  journal : option Journal;
}.

Definition with_files (f : gmap path File) (s : State) : State :=
  {| files := f; dirs := dirs s; clock := clock s; mutations := mutations s;
     backupRegistry := backupRegistry s; journal := journal s |}.

Definition with_dirs (d : gset path) (s : State) : State :=
  {| files := files s; dirs := d; clock := clock s; mutations := mutations s;
     backupRegistry := backupRegistry s; journal := journal s |}.

Definition with_clock (c : nat) (s : State) : State :=
  {| files := files s; dirs := dirs s; clock := c; mutations := mutations s;
     backupRegistry := backupRegistry s; journal := journal s |}.

Definition with_mutations (m : list AppliedMutation) (s : State) : State :=
  {| files := files s; dirs := dirs s; clock := clock s; mutations := m;
     backupRegistry := backupRegistry s; journal := journal s |}.

Definition with_backupRegistry (b : list path) (s : State) : State :=
  {| files := files s; dirs := dirs s; clock := clock s; mutations := mutations s;
     backupRegistry := b; journal := journal s |}.

Definition with_journal (j : option Journal) (s : State) : State :=
  {| files := files s; dirs := dirs s; clock := clock s; mutations := mutations s;
     backupRegistry := backupRegistry s; journal := j |}.

Inductive Error :=
  | PathEscape (filePath : string)
  | UnsupportedKind
  | MissingContent (filePath : string)
  | MissingTemplate
  | SyntaxError
  | TypeError
  | ScriptExists (scriptName file : string)
  | ENOENT (p : path).

(** Computations that read and write the state and may throw; what was
    done before the exception stays done. *)
Definition M (A : Type) : Type := State -> (Error + A) * State.

#[export] Instance M_ret : MRet M := fun A (a : A) s => (inr a, s).

#[export] Instance M_bind : MBind M := fun A B (f : A -> M B) (m : M A) s =>
  match m s with
  | (inl e, s') => (inl e, s')
  | (inr a, s') => f a s'
  end.

Definition throw {A} (e : Error) : M A := fun s => (inl e, s).

Definition lift {A} (r : Error + A) : M A := fun s => (r, s).

Definition get_state : M State := fun s => (inr s, s).

Definition modify (f : State -> State) : M unit := fun s => (inr tt, f s).

(** *** Filesystem calls ([node:fs] promises) *)

(** [fs.access] succeeding *)
Definition pathExists (targetPath : path) : M bool :=
  s ← get_state; mret (bool_decide (is_Some (files s !! targetPath))).

(** [fs.readFile(p)]: the bytes *)
Definition readFile (p : path) : M string :=
  s ← get_state;
  match files s !! p with
  | Some f => mret (f_bytes f)
  | None => throw (ENOENT p)
  end.

(** [fs.writeFile(p, data)]: an existing file keeps its mode *)
Definition writeFile (h : Host) (p : path) (data : string) : M unit :=
  modify (fun s =>
    let m := match files s !! p with
             | Some f => f_mode f
             | None => create_mode h
             end in
    with_files (<[p := {| f_bytes := data; f_mode := m |}]> (files s)) s).

(** [fs.rm(p, { force: true })] *)
Definition rm (p : path) : M unit :=
  modify (fun s => with_files (base.delete p (files s)) s).

(** [fs.copyFile(src, dst)]: bytes and mode of [src] *)
Definition copyFile (src dst : path) : M unit :=
  s ← get_state;
  match files s !! src with
  | Some f => modify (with_files (<[dst := f]> (files s)))
  | None => throw (ENOENT src)
  end.

(** [fs.chmod(p, mode)] *)
Definition chmod (p : path) (m : Z) : M unit :=
  s ← get_state;
  match files s !! p with
  | Some f =>
      modify (with_files (<[p := {| f_bytes := f_bytes f; f_mode := m |}]> (files s)))
  | None => throw (ENOENT p)
  end.

(** A directory and all the directories above it. *)
Definition ancestors (p : path) : list path :=
  map (fun n => take n p) (seq 0 (S (length p))).

Arguments ancestors : simpl never.

(** [fs.mkdir(p, { recursive: true })] *)
Definition mkdir (p : path) : M unit :=
  modify (fun s => with_dirs (dirs s ∪ list_to_set (ancestors p)) s).

Definition ensureParentDir (targetPath : path) : M unit :=
  mkdir (dirname targetPath).

(** [Date.now()] *)
Definition Date_now (h : Host) : M Z :=
  s ← get_state;
  modify (with_clock (S (clock s)));;
  mret (now h (clock s)).

(** ** The change journal (journal.ts) *)

Definition resolvePath (workspaceRoot : path) (relativePath : string) : path :=
  path_resolve workspaceRoot relativePath.

Record ReadResult := {
  read_exists : bool;
  read_content : option string;
  read_checksum : option string;
}.

(** [readFileIfExists]; reading fails in the model only with [ENOENT],
    so the [<error: ...>] branch of the source is not reached. *)
Definition readFileIfExists (h : Host) (target : path) (maxBytes : Z)
    (encoding : option string) : M ReadResult :=
  s ← get_state;
  match files s !! target with
  | Some f =>
      let buffer := f_bytes f in
      let checksum := sha256_hex h buffer in
      if (maxBytes <? Z.of_nat (String.length buffer))%Z then
        mret {| read_exists := true;
                read_checksum := Some checksum;
                read_content :=
                  Some ("<truncated " +:+ pretty (String.length buffer) +:+ " bytes>") |}
      else
        mret {| read_exists := true;
                read_checksum := Some checksum;
                read_content :=
                  Some (Buffer_toString h buffer (default "utf8" encoding)) |}
  | None =>
      mret {| read_exists := false; read_content := None; read_checksum := None |}
  end.

Definition getOperationPath (operation : Operation) : string :=
  match operation with
  | OpConfig op => config_path op
  | OpScript op => script_file op
  | _ => ""
  end.

Definition captureSnapshot (h : Host) (workspaceRoot : path)
    (owm : OperationWithMetadata) (maxBytes : Z) : M OperationSnapshot :=
  match operation owm with
  | OpFile op =>
      let target := resolvePath workspaceRoot (file_path op) in
      result ← readFileIfExists h target maxBytes (encoding op);
      mret {| snap_exists := read_exists result;
              snap_content := read_content result;
              snap_checksum := read_checksum result;
              snap_metadata := Some (metadata owm) |}
  | OpConfig _ | OpScript _ =>
      let target :=
        resolvePath workspaceRoot (getOperationPath (operation owm)) in
      result ← readFileIfExists h target maxBytes (Some "utf8");
      mret {| snap_exists := read_exists result;
              snap_content := read_content result;
              snap_checksum := read_checksum result;
              snap_metadata := Some (metadata owm) |}
  | OpCode _ =>
      mret {| snap_exists := false; snap_content := None; snap_checksum := None;
              snap_metadata := Some (metadata owm) |}
  end.

(** [cloneOperation]: a JSON round trip, the identity on this data. *)
Definition cloneOperation (owm : OperationWithMetadata)
  : OperationWithMetadata := owm.

(** [entries.push(entry); entryIndex.set(id, entries.length - 1)] *)
Definition journal_push (j : Journal) (opId : string) (entry : JournalEntry)
  : Journal :=
  {| journal_workspaceRoot := journal_workspaceRoot j;
     maxBytes := maxBytes j;
     entries := entries j ++ [entry];
     entryIndex := <[opId := (length (entries j ++ [entry]) - 1)%nat]> (entryIndex j);
     artifacts_backups := artifacts_backups j;
     artifacts_logs := artifacts_logs j;
     logPath := logPath j |}.

Definition journal_beforeOperation (h : Host) (j : Journal)
    (owm : OperationWithMetadata) : M Journal :=
  time ← Date_now h;
  snapshot ← captureSnapshot h (journal_workspaceRoot j) owm (maxBytes j);
  let entry :=
    {| timestamp := time; entry_operation := cloneOperation owm;
       before := snapshot; after := None; entry_backupPath := None |} in
  mret (journal_push j (id (metadata owm)) entry).

(** [entry.after = snapshot; if (context?.backupPath) entry.backupPath = ...] *)
Definition complete_entry (entry : JournalEntry) (snapshot : OperationSnapshot)
    (context_backupPath : option path) : JournalEntry :=
  {| timestamp := timestamp entry;
     entry_operation := entry_operation entry;
     before := before entry;
     after := Some snapshot;
     entry_backupPath :=
       match context_backupPath with
       | Some b => Some b
       | None => entry_backupPath entry
       end |}.

Definition journal_afterOperation (h : Host) (j : Journal)
    (owm : OperationWithMetadata) (context_backupPath : option path)
  : M Journal :=
  match entryIndex j !! id (metadata owm) with
  | None => mret j
  | Some index =>
      match entries j !! index with
      | None => mret j
      | Some entry =>
          snapshot ← captureSnapshot h (journal_workspaceRoot j) owm (maxBytes j);
          mret {| journal_workspaceRoot := journal_workspaceRoot j;
                  maxBytes := maxBytes j;
                  entries :=
                    <[index := complete_entry entry snapshot context_backupPath]>
                      (entries j);
                  entryIndex := entryIndex j;
                  artifacts_backups :=
                    match context_backupPath with
                    | Some b => artifacts_backups j ++ [b]
                    | None => artifacts_backups j
                    end;
                  artifacts_logs := artifacts_logs j;
                  logPath := logPath j |}
      end
  end.

Definition journal_setLogPath (j : Journal) (next : path) : Journal :=
  {| journal_workspaceRoot := journal_workspaceRoot j;
     maxBytes := maxBytes j;
     entries := entries j;
     entryIndex := entryIndex j;
     artifacts_backups := artifacts_backups j;
     artifacts_logs := [next];
     logPath := Some next |}.

(** [journal?.beforeOperation(operation)] and
    [journal?.afterOperation(operation, context)] on the journal of the
    run, when there is one. *)
Definition beforeOperation (h : Host) (owm : OperationWithMetadata) : M unit :=
  s ← get_state;
  match journal s with
  | None => mret tt
  | Some j =>
      j' ← journal_beforeOperation h j owm;
      modify (with_journal (Some j'))
  end.

Definition afterOperation (h : Host) (owm : OperationWithMetadata)
    (context_backupPath : option path) : M unit :=
  s ← get_state;
  match journal s with
  | None => mret tt
  | Some j =>
      j' ← journal_afterOperation h j owm context_backupPath;
      modify (with_journal (Some j'))
  end.

(** ** The executor (executor.ts): JSON documents in memory

    The source mutates the parsed document in place.  The model rebuilds
    the document instead: a property write returns the new parent. *)

(** [JSON.stringify(a) === JSON.stringify(b)]: on JSON data the compact
    rendering determines the value, keys in their order included, so the
    comparison is structural equality; [undefined] renders as
    [undefined] and equals only itself. *)
Fixpoint json_eqb (a b : json) : bool :=
  match a, b with
  | JNull, JNull => true
  | JBool x, JBool y => Bool.eqb x y
  | JNum x, JNum y => (x =? y)%Z
  | JStr x, JStr y => String.eqb x y
  | JArr xs, JArr ys =>
      (fix items xs ys :=
         match xs, ys with
         | [], [] => true
         | x :: xs', y :: ys' => json_eqb x y && items xs' ys'
         | _, _ => false
         end) xs ys
  | JObj fx, JObj fy =>
      (fix fields fx fy :=
         match fx, fy with
         | [], [] => true
         | (k, v) :: fx', (k', v') :: fy' =>
             String.eqb k k' && json_eqb v v' && fields fx' fy'
         | _, _ => false
         end) fx fy
  | _, _ => false
  end.

Definition isEqual (a b : option json) : bool :=
  match a, b with
  | None, None => true
  | Some x, Some y => json_eqb x y
  | _, _ => false
  end.

(** [parent[key]] as the executor reads it: a [TypeError] on [null],
    [undefined] on the other scalars. *)
Definition read_prop (parent : json) (key : string) : Error + option json :=
  match parent with
  | JNull => inl TypeError
  | _ => inr (get_prop parent key)
  end.

(** [items[i] = v] on an array: positions skipped over are holes, which
    read as nullish and are written out as [null]. *)
Definition array_set (i : nat) (v : json) (items : list json) : list json :=
  if (i <? length items)%nat then <[i := v]> items
  else items ++ repeat JNull (i - length items) ++ [v].

(** [parent[key] = v] (strict mode: a [TypeError] on a scalar).  A write
    under a key of an array that is no index leaves the array's JSON
    form as it is. *)
Definition write_prop (parent : json) (key : string) (v : json) : Error + json :=
  match parent with
  | JObj fields => inr (JObj (assoc_set key v fields))
  | JArr items =>
      match array_index key with
      | Some i => inr (JArr (array_set i v items))
      | None => inr parent
      end
  | _ => inl TypeError
  end.

(** [key in parent] *)
Definition has_prop (parent : json) (key : string) : Error + bool :=
  match parent with
  | JObj fields => inr (bool_decide (is_Some (assoc key fields)))
  | JArr items =>
      inr (match array_index key with
           | Some i => (i <? length items)%nat
           | None => false
           end)
  | _ => inl TypeError
  end.

(** [delete parent[key]]: an array keeps its length, the position
    becomes a hole. *)
Definition delete_prop (parent : json) (key : string) : json :=
  match parent with
  | JObj fields => JObj (assoc_del key fields)
  | JArr items =>
      match array_index key with
      | Some i => if (i <? length items)%nat then JArr (<[i := JNull]> items) else parent
      | None => parent
      end
  | _ => parent
  end.

(** [parent[key] = value] where the value may be [undefined]: the key is
    then left out when the document is written, and an array position
    is written as [null]. *)
Definition assign_prop (parent : json) (key : string) (v : option json)
  : Error + json :=
  match v with
  | Some x => write_prop parent key x
  | None =>
      match parent with
      | JObj _ => inr (delete_prop parent key)
      | JArr _ => write_prop parent key JNull
      | _ => inl TypeError
      end
  end.

Definition is_plain_object (v : option json) : bool :=
  truthy v && typeof_is_object v && negb (isArray v).

(** [deepMerge(target, source)], called on plain objects only. *)
Fixpoint deepMerge (target : list (string * json)) (source : json)
  : list (string * json) :=
  match source with
  | JObj entries =>
      (fix loop (result : list (string * json)) (es : list (string * json)) :=
         match es with
         | [] => result
         | (key, v) :: rest =>
             loop
               (if is_plain_object (Some v) && is_plain_object (assoc key result)
                then match assoc key result with
                     | Some (JObj inner) => assoc_set key (JObj (deepMerge inner v)) result
                     | _ => assoc_set key v result
                     end
                else assoc_set key v result)
               rest
         end) target entries
  | _ => target
  end.

(** The outcome of [applyConfigMutation]: [{ changed, document }]. *)
Record MutationResult := {
  mutation_changed : bool;
  mutation_document : json;
}.

Definition unchanged (document : json) : Error + MutationResult :=
  inr {| mutation_changed := false; mutation_document := document |}.

(** [parent[key] = v; return { changed: true, document }] *)
Definition changed_by (r : Error + json) : Error + MutationResult :=
  match r with
  | inl e => inl e
  | inr parent' => inr {| mutation_changed := true; mutation_document := parent' |}
  end.

(** [getParent(document, segments, createPath)] followed by the caller's
    work on [{ parent, key }].  The walk over all segments but the last
    is the source's loop; [finish] is what the caller does with the
    parent it is handed, and the parent it leaves is plugged back on the
    way out, which is what the in-place writes of the source amount to.
    [None] is the answer [{ parent: null, key: null }], given before
    anything was written. *)
Fixpoint getParent (createPath : bool) (parent : json) (inner : list string)
    (finish : json -> Error + MutationResult) : Error + option MutationResult :=
  match inner with
  | [] =>
      match finish parent with
      | inl e => inl e
      | inr r => inr (Some r)
      end
  | segment :: rest =>
      match read_prop parent segment with
      | inl e => inl e
      | inr child =>
          let descend (parent1 : json) (next : json) :=
            match getParent createPath next rest finish with
            | inl e => inl e
            | inr None => inr None
            | inr (Some r) =>
                match write_prop parent1 segment (mutation_document r) with
                | inl e => inl e
                | inr parent2 =>
                    inr (Some {| mutation_changed := mutation_changed r;
                                 mutation_document := parent2 |})
                end
            end in
          let fresh :=
            if negb createPath then inr None
            else match write_prop parent segment (JObj []) with
                 | inl e => inl e
                 | inr parent1 => descend parent1 (JObj [])
                 end in
          match child with
          | None | Some JNull => fresh
          | Some c => if negb (typeof_object c) then fresh else descend parent c
          end
      end
  end.

(** [const { parent, key } = getParent(...); if (!parent ...) return
    { changed: false, document }] *)
Definition or_unchanged (r : Error + option MutationResult) (document : json)
  : Error + MutationResult :=
  match r with
  | inl e => inl e
  | inr None => unchanged document
  | inr (Some m) => inr m
  end.

Definition applyConfigMutation (document : json) (operation : ConfigOperation)
  : Error + MutationResult :=
  let segments := decodePointer (pointer operation) in
  match segments with
  | [] => unchanged document
  | _ =>
      let inner := removelast segments in
      let key := List.last segments "" in
      match config_action operation with
      | cfg_unset =>
          or_unchanged
            (getParent false document inner (fun parent =>
               if negb (truthy (Some parent)) || String.eqb key "" then unchanged parent
               else match has_prop parent key with
                    | inl e => inl e
                    | inr false => unchanged parent
                    | inr true => changed_by (inr (delete_prop parent key))
                    end))
            document
      | cfg_set =>
          or_unchanged
            (getParent true document inner (fun targetParent =>
               if negb (truthy (Some targetParent)) || String.eqb key ""
               then unchanged targetParent
               else match read_prop targetParent key with
                    | inl e => inl e
                    | inr existing =>
                        if isEqual existing (value operation) then unchanged targetParent
                        else changed_by (assign_prop targetParent key (value operation))
                    end))
            document
      | cfg_merge =>
          or_unchanged
            (getParent true document inner (fun targetParent =>
               if negb (truthy (Some targetParent)) || String.eqb key ""
               then unchanged targetParent
               else match read_prop targetParent key with
                    | inl e => inl e
                    | inr existing =>
                        if is_plain_object existing && is_plain_object (value operation)
                        then
                          match existing, value operation with
                          | Some (JObj ef), Some (JObj vf) =>
                              let merged :=
                                match strategy operation with
                                | Some strat_shallow =>
                                    JObj (fold_left
                                            (fun acc kv => assoc_set (fst kv) (snd kv) acc)
                                            vf ef)
                                | _ => JObj (deepMerge ef (JObj vf))
                                end in
                              if isEqual existing (Some merged) then unchanged targetParent
                              else changed_by (write_prop targetParent key merged)
                          | _, _ => unchanged targetParent
                          end
                        else if isEqual existing (value operation)
                        then unchanged targetParent
                        else changed_by (assign_prop targetParent key (value operation))
                    end))
            document
      end
  end.

(** ** The executor: appliers *)

(** The fields of [OperationContext] that never change during a run; the
    arrays [mutations] and [backupRegistry] live in the [State].  The
    executor is modelled as created without a registry, so every
    operation goes to the built-in appliers. *)
Record OperationContext := {
  workspaceRoot : path;
  backupDir : path;
  autoConfirm : bool;
}.

Record ApplyResult := {
  changed : bool;
  result_backupPath : option path;
}.

Definition is_filename_char (c : ascii) : bool :=
  let n := nat_of_ascii c in
  ((97 <=? n) && (n <=? 122) || (65 <=? n) && (n <=? 90) || (48 <=? n) && (n <=? 57)
   || (n =? 46) || (n =? 95) || (n =? 45))%nat.

(** [value.replace(/[^a-zA-Z0-9._-]/g, '_')] *)
Fixpoint sanitizeForFilename (v : string) : string :=
  match v with
  | EmptyString => EmptyString
  | String c rest =>
      String (if is_filename_char c then c else "_"%char) (sanitizeForFilename rest)
  end.

Definition is_space (c : ascii) : bool :=
  let n := nat_of_ascii c in
  ((n =? 32) || (9 <=? n) && (n <=? 13))%nat.

(** [!raw.trim()] *)
Fixpoint is_blank (raw : string) : bool :=
  match raw with
  | EmptyString => true
  | String c rest => is_space c && is_blank rest
  end.

Definition resolveWorkspacePath (workspaceRoot : path) (filePath : string)
  : Error + path :=
  let resolved := path_resolve workspaceRoot filePath in
  let normalizedWorkspace := workspaceRoot in
  (* [resolved.startsWith(withSep)]: on segments, the root is a proper
     prefix; every path starts with the separator the root ["/"] ends in *)
  let startsWith_withSep :=
    match normalizedWorkspace with
    | [] => true
    | _ => is_prefix normalizedWorkspace resolved
           && (length normalizedWorkspace <? length resolved)%nat
    end in
  if negb (bool_decide (resolved = normalizedWorkspace)) && negb startsWith_withSep
  then inl (PathEscape filePath)
  else inr resolved.

Definition recordMutation (targetPath : path) (backupPath : option path)
    (created : bool) : M unit :=
  modify (fun s =>
    with_mutations
      (mutations s ++ [{| targetPath := targetPath;
                          mutation_backupPath := backupPath;
                          existedBefore := negb created |}]) s).

Definition createBackupIfNeeded (h : Host) (ctx : OperationContext)
    (targetPath : path) (opId : string) : M (option path) :=
  exists_ ← pathExists targetPath;
  if negb exists_ then mret None
  else
    mkdir (backupDir ctx);;
    time ← Date_now h;
    let fileName :=
      pretty time +:+ "-" +:+ sanitizeForFilename opId +:+ "-" +:+
      sanitizeForFilename (path_relative (workspaceRoot ctx) targetPath) in
    let backupPath := backupDir ctx ++ [fileName +:+ ".bak"] in
    ensureParentDir backupPath;;
    copyFile targetPath backupPath;;
    modify (fun s => with_backupRegistry (backupRegistry s ++ [backupPath]) s);;
    mret (Some backupPath).

Definition interpolateTemplate (h : Host) (text : string)
    (vars : list (string * string)) : string :=
  fold_left (fun acc kv => replace_placeholder h (fst kv) (snd kv) acc) vars text.

Definition renderTemplate (h : Host) (template : option OperationTemplateSpec)
    (workspaceRoot : path) : M string :=
  match template with
  | None => throw MissingTemplate
  | Some t =>
      let templatePath :=
        if isAbsolute (source t) then path_resolve [] (source t)
        else path_resolve workspaceRoot (source t) in
      raw ← readFile templatePath;
      let baseContent := Buffer_toString h raw "utf8" in
      let rendered :=
        match variables t with
        | Some (v :: vs) => interpolateTemplate h baseContent (v :: vs)
        | _ => baseContent
        end in
      mret (Buffer_from h rendered "utf8")
  end.

(** [Buffer.from(base64, 'base64')] when the annotation is a string *)
Definition readAnnotationContent (h : Host) (annotations : option OperationMetadata)
  : option string :=
  match annotations with
  | Some m =>
      match rawContentBase64 m with
      | Some base64 => Some (Buffer_from h base64 "base64")
      | None => None
      end
  | None => None
  end.

Definition resolveFileContent (h : Host) (ctx : OperationContext)
    (operation : FileOperation) (metadata : option OperationMetadata) : M string :=
  match content operation with
  | Some c => mret (Buffer_from h c (default "utf8" (encoding operation)))
  | None =>
      match readAnnotationContent h metadata with
      | Some annotationContent => mret annotationContent
      | None =>
          match template operation with
          | Some t => renderTemplate h (Some t) (workspaceRoot ctx)
          | None => throw (MissingContent (file_path operation))
          end
      end
  end.

Definition applyFileOperation (h : Host) (ctx : OperationContext)
    (operation : FileOperation) (metadata : OperationMetadata) : M ApplyResult :=
  let opId := id metadata in
  targetPath ← lift (resolveWorkspacePath (workspaceRoot ctx) (file_path operation));
  exists_ ← pathExists targetPath;
  match file_action operation with
  | act_delete =>
      if negb exists_ then mret {| changed := false; result_backupPath := None |}
      else
        backupPath ← createBackupIfNeeded h ctx targetPath opId;
        rm targetPath;;
        recordMutation targetPath backupPath true;;
        mret {| changed := true; result_backupPath := backupPath |}
  | _ =>
      nextContent ← resolveFileContent h ctx operation (Some metadata);
      same ← (if exists_
              then current ← readFile targetPath;
                   mret (String.eqb current nextContent)
              else mret false) : M bool;
      if (same : bool) then mret {| changed := false; result_backupPath := None |}
      else
        backupPath ← (if exists_ then createBackupIfNeeded h ctx targetPath opId
                      else mret None) : M (option path);
        ensureParentDir targetPath;;
        writeFile h targetPath nextContent;;
        match mode operation with
        | Some m => chmod targetPath m
        | None => mret tt
        end;;
        recordMutation targetPath backupPath (negb exists_);;
        mret {| changed := true; result_backupPath := backupPath |}
  end.

Definition applyConfigOperation (h : Host) (ctx : OperationContext)
    (operation : ConfigOperation) (opId : string) : M ApplyResult :=
  targetPath ← lift (resolveWorkspacePath (workspaceRoot ctx) (config_path operation));
  exists_ ← pathExists targetPath;
  document ← (if exists_
              then bytes ← readFile targetPath;
                   let raw := Buffer_toString h bytes "utf8" in
                   if negb (is_blank raw)
                   then match JSON_parse h raw with
                        | Some d => mret d
                        | None => throw SyntaxError
                        end
                   else mret (JObj [])
              else mret (JObj [])) : M json;
  updated ← lift (applyConfigMutation document operation);
  if negb (mutation_changed updated)
  then mret {| changed := false; result_backupPath := None |}
  else
    backupPath ← (if exists_ then createBackupIfNeeded h ctx targetPath opId
                  else mret None) : M (option path);
    ensureParentDir targetPath;;
    writeFile h targetPath
      (Buffer_from h (JSON_stringify h (mutation_document updated) +:+ String "010" "") "utf8");;
    recordMutation targetPath backupPath (negb exists_);;
    mret {| changed := true; result_backupPath := backupPath |}.

Definition applyScriptOperation (h : Host) (ctx : OperationContext)
    (operation : ScriptOperation) (opId : string) : M ApplyResult :=
  targetPath ← lift (resolveWorkspacePath (workspaceRoot ctx) (script_file operation));
  exists_ ← pathExists targetPath;
  pkg ← (if exists_
         then bytes ← readFile targetPath;
              match JSON_parse h (Buffer_toString h bytes "utf8") with
              | Some d => mret d
              | None => throw SyntaxError
              end
         else mret (JObj [])) : M json;
  (* pkg.scripts = pkg.scripts ?? {} *)
  declared ← lift (read_prop pkg "scripts");
  let scripts0 := match declared with
                  | None | Some JNull => JObj []
                  | Some v => v
                  end in
  pkg1 ← lift (write_prop pkg "scripts" scripts0);
  let current := get_prop scripts0 (name operation) in
  let finish (scripts1 : json) : M ApplyResult :=
    pkg2 ← lift (write_prop pkg1 "scripts" scripts1);
    backupPath ← (if exists_ then createBackupIfNeeded h ctx targetPath opId
                  else mret None) : M (option path);
    ensureParentDir targetPath;;
    writeFile h targetPath
      (Buffer_from h (JSON_stringify h pkg2 +:+ String "010" "") "utf8");;
    recordMutation targetPath backupPath (negb exists_);;
    mret {| changed := true; result_backupPath := backupPath |} in
  match script_action operation with
  | act_delete =>
      match current with
      | None => mret {| changed := false; result_backupPath := None |}
      | Some _ => finish (delete_prop scripts0 (name operation))
      end
  | _ =>
      let nextCommand := default "" (command operation) in
      let conflict :=
        match current with
        | None => false
        | Some c => negb (json_eqb c (JStr nextCommand))
        end in
      let resolution := default res_prompt (conflictResolution operation) in
      match conflict, resolution with
      | true, res_keep => mret {| changed := false; result_backupPath := None |}
      | true, res_prompt =>
          if negb (autoConfirm ctx)
          then throw (ScriptExists (name operation) (script_file operation))
          else scripts1 ← lift (write_prop scripts0 (name operation) (JStr nextCommand));
               finish scripts1
      | _, _ =>
          scripts1 ← lift (write_prop scripts0 (name operation) (JStr nextCommand));
          finish scripts1
      end
  end.

Definition applyOperation (h : Host) (ctx : OperationContext)
    (owm : OperationWithMetadata) : M ApplyResult :=
  match operation owm with
  | OpFile op => applyFileOperation h ctx op (metadata owm)
  | OpConfig op => applyConfigOperation h ctx op (id (metadata owm))
  | OpScript op => applyScriptOperation h ctx op (id (metadata owm))
  | OpCode _ => throw UnsupportedKind
  end.

Definition simulateOperation (h : Host) (ctx : OperationContext)
    (owm : OperationWithMetadata) : M unit :=
  match operation owm with
  | OpFile op => resolveFileContent h ctx op (Some (metadata owm));; mret tt
  | OpConfig _ | OpScript _ => mret tt
  | OpCode _ => throw UnsupportedKind
  end.

(** ** The executor: rollback, persistence and [execute] *)

Fixpoint for_each {A} (body : A -> M unit) (l : list A) : M unit :=
  match l with
  | [] => mret tt
  | x :: rest => body x;; for_each body rest
  end.

Definition rollbackMutation (mutation : AppliedMutation) : M unit :=
  match mutation_backupPath mutation with
  | Some backupPath =>
      ensureParentDir (targetPath mutation);;
      copyFile backupPath (targetPath mutation)
  | None =>
      if negb (existedBefore mutation) then rm (targetPath mutation) else mret tt
  end.

(** The mutation log, last entry first. *)
Definition rollbackMutations : M unit :=
  s ← get_state;
  for_each rollbackMutation (rev (mutations s)).

Definition persistJournal (h : Host) (j : Journal) (backupDir : path) : M Journal :=
  let entries := entries j in
  if (length entries =? 0)%nat then mret j
  else
    logPath ← (match logPath j with
               | Some l => mret l
               | None =>
                   mkdir backupDir;;
                   time ← Date_now h;
                   mret (backupDir ++ [pretty time +:+ "-setup-log.json"])
               end) : M path;
    mkdir (dirname logPath);;
    writeFile h logPath (Buffer_from h (JSON_stringify_entries h entries) "utf8");;
    mret (journal_setLogPath j logPath).

Record ExecutionOptions := {
  dryRun : bool;
  options_autoConfirm : bool;
  (** the empty string selects [<workspace>/.kb/logs/setup] *)
  options_backupDir : string;
}.

Record PlanStage := {
  stage_id : string;
  stage_operations : list OperationWithMetadata;
  parallel : bool;
}.

(** The plan; its diff and risk summary are not read by the executor
    and are left out. *)
Record ExecutionPlan := {
  stages : list PlanStage;
  warnings : option (list string);
}.

Record FailedOperation := {
  failed_operation : OperationWithMetadata;
  failed_error : Error;
}.

Record ExecutionResult := {
  success : bool;
  applied : list OperationWithMetadata;
  failed : option (list FailedOperation);
  rollbackAvailable : bool;
  result_logPath : option path;
  artifact_backups : list path;
  artifact_logs : list path;
}.

(** The body of the [try] block for one operation; the answer tells
    whether the operation was pushed onto [applied]. *)
Definition attempt (h : Host) (ctx : OperationContext) (dryRun : bool)
    (owm : OperationWithMetadata) : M bool :=
  if dryRun then
    simulateOperation h ctx owm;;
    beforeOperation h owm;;
    afterOperation h owm None;;
    mret false
  else
    beforeOperation h owm;;
    result ← applyOperation h ctx owm;
    afterOperation h owm (result_backupPath result);;
    mret (changed result).

(** The inner [for] loop with its [catch]: a failure rolls back (unless
    dry-running) and ends the run. *)
Fixpoint run_operations (h : Host) (ctx : OperationContext) (dryRun : bool)
    (ops : list OperationWithMetadata) (applied : list OperationWithMetadata)
  : M (list OperationWithMetadata * option FailedOperation) :=
  match ops with
  | [] => mret (applied, None)
  | owm :: rest => fun s =>
      match attempt h ctx dryRun owm s with
      | (inr pushed, s1) =>
          run_operations h ctx dryRun rest
            (if pushed then applied ++ [owm] else applied) s1
      | (inl err, s1) =>
          ((if dryRun then mret tt else rollbackMutations);;
           mret (applied, Some {| failed_operation := owm; failed_error := err |})) s1
      end
  end.

Fixpoint run_stages (h : Host) (ctx : OperationContext) (dryRun : bool)
    (sts : list PlanStage) (applied : list OperationWithMetadata)
  : M (list OperationWithMetadata * option FailedOperation) :=
  match sts with
  | [] => mret (applied, None)
  | stage :: rest =>
      r ← run_operations h ctx dryRun (stage_operations stage) applied;
      match snd r with
      | Some f => mret r
      | None => run_stages h ctx dryRun rest (fst r)
      end
  end.

Definition resolveBackupDir (h : Host) (workspaceRoot : path)
    (execOptions : ExecutionOptions) : path :=
  if String.eqb (options_backupDir execOptions) ""
  then workspaceRoot ++ [".kb"; "logs"; "setup"]
  else path_resolve (cwd h) (options_backupDir execOptions).

(** [createExecutor({ workspaceRoot }).execute(plan, execOptions)]; no
    progress callback is installed. *)
Definition execute (h : Host) (workspaceRoot : path) (plan : ExecutionPlan)
    (execOptions : ExecutionOptions) : M ExecutionResult :=
  modify (fun s => with_mutations [] (with_backupRegistry [] s));;
  let backupDir := resolveBackupDir h workspaceRoot execOptions in
  let ctx := {| workspaceRoot := workspaceRoot; backupDir := backupDir;
                autoConfirm := options_autoConfirm execOptions |} in
  r ← run_stages h ctx (dryRun execOptions) (stages plan) [];
  match snd r with
  | Some f =>
      s ← get_state;
      mret {| success := false;
              applied := fst r;
              failed := Some [f];
              rollbackAvailable := negb (dryRun execOptions);
              result_logPath := j ← journal s; logPath j;
              artifact_backups := backupRegistry s;
              artifact_logs := match journal s with
                               | Some j => artifacts_logs j
                               | None => []
                               end |}
  | None =>
      s ← get_state;
      match journal s with
      | Some j =>
          j' ← persistJournal h j backupDir;
          modify (with_journal (Some j'))
      | None => mret tt
      end;;
      s' ← get_state;
      mret {| success := true;
              applied := fst r;
              failed := None;
              rollbackAvailable := negb (dryRun execOptions);
              result_logPath := j ← journal s'; logPath j;
              artifact_backups := backupRegistry s';
              artifact_logs := match journal s' with
                               | Some j => artifacts_logs j
                               | None => []
                               end |}
  end.

(** [createExecutor]'s choice of the workspace root. *)
Definition createExecutor (h : Host) (workspaceRoot : option string) : path :=
  match workspaceRoot with
  | Some r => if String.eqb r "" then cwd h else path_resolve (cwd h) r
  | None => cwd h
  end.

(** ** The file analyzer (analyzer/file-analyzer.ts) *)

Definition handleMissingFile (operation : FileOperation) : AnalysisResult :=
  let absent := Some (ObsFile {| fs_exists := false; fs_size := None;
                                 fs_mode := None; fs_content := None |}) in
  match file_action operation with
  | act_delete =>
      {| needed := false; current := absent; conflicts := None; risk := risk_safe;
         notes := Some ["File already removed"] |}
  | _ =>
      {| needed := true; current := absent; conflicts := None; risk := risk_safe;
         notes := None |}
  end.

(** [evaluateExistingFile]; the modification time the source also
    reports in [current] is not modelled. *)
Definition evaluateExistingFile (h : Host) (stat : File) (operation : FileOperation)
  : AnalysisResult :=
  let encoding := default "utf8" (encoding operation) in
  let buffer := f_bytes stat in
  let existingContent := Buffer_toString h buffer encoding in
  let current :=
    Some (ObsFile {| fs_exists := true;
                     fs_size := Some (String.length buffer);
                     fs_mode := Some (Z.land (f_mode stat) 511);
                     fs_content := Some existingContent |}) in
  let matches (note : string) :=
    {| needed := false; current := current; conflicts := None; risk := risk_safe;
       notes := Some [note] |} in
  let differs :=
    {| needed := true; current := current; conflicts := None; risk := risk_moderate;
       notes := match template operation with
                | Some _ => Some ["Template-based file operation cannot be fully analyzed; assuming changes are required."]
                | None => None
                end |} in
  match file_action operation with
  | act_delete =>
      {| needed := true; current := current; conflicts := None;
         risk := risk_moderate; notes := None |}
  | _ =>
      match content operation with
      | Some c =>
          if String.eqb existingContent c then
            let modeMatches :=
              match mode operation with
              | Some m => (m =? Z.land (f_mode stat) 511)%Z
              | None => true
              end in
            if modeMatches then matches "File content matches desired state"
            else differs
          else differs
      | None =>
          match checksum operation with
          | Some sum =>
              if negb (String.eqb sum "") && String.eqb (sha256_hex h buffer) sum
              then matches "Checksum matches desired state"
              else differs
          | None => differs
          end
      end
  end.

Definition FileAnalyzer_analyze (h : Host) (cwd_ : path) (operation : FileOperation)
    (s : State) : AnalysisResult :=
  let absolutePath := path_resolve cwd_ (file_path operation) in
  match files s !! absolutePath with
  | Some stat => evaluateExistingFile h stat operation
  | None => handleMissingFile operation
  end.

(** [ConfigAnalyzer.analyze] *)
Definition ConfigAnalyzer_analyze (h : Host) (cwd_ : path) (op : ConfigOperation)
    (s : State) : AnalysisResult :=
  let absolutePath := path_resolve cwd_ (config_path op) in
  match files s !! absolutePath with
  | Some f =>
      let fileContent := Buffer_toString h (f_bytes f) "utf8" in
      if negb (is_blank fileContent) then
        match JSON_parse h fileContent with
        | Some data => evaluateDocument data op
        | None =>
            {| needed := true; current := None; risk := risk_moderate; notes := None;
               conflicts :=
                 Some [{| conflict_type := "incompatible";
                          conflict_path := config_path op;
                          actual := Some "invalid-json";
                          suggestion :=
                            Some "Fix JSON syntax before applying setup operations." |}] |}
        end
      else evaluateDocument (JObj []) op
  | None => handleMissingDocument op
  end.

(** ** The planner (planner.ts): [buildStages]

    [Map] and [Set] iterate in insertion order; they are association
    lists and duplicate-free lists here. *)

(** [set.add(x)] *)
Definition set_add (x : string) (l : list string) : list string :=
  if existsb (String.eqb x) l then l else l ++ [x].

Definition has_key {A} (k : string) (m : list (string * A)) : bool :=
  match assoc k m with
  | Some _ => true
  | None => false
  end.

(** [new Map(operations.map((op) => [op.metadata.id, op]))] *)
Definition idToOperation (operations : list OperationWithMetadata)
  : list (string * OperationWithMetadata) :=
  fold_left (fun m op => assoc_set (id (metadata op)) op m) operations [].

Definition missing_dependency_warning (opId dep : string) : string :=
  "Operation " +:+ opId +:+ " depends on missing operation " +:+ dep +:+
  ". It will run anyway.".

Record Graph := {
  indegree : list (string * Z);
  graph : list (string * list string);
  graph_warnings : list string;
}.

(** The body of [for (const dep of deps)] for the operation [opId]. *)
Definition add_dependency (known : list (string * OperationWithMetadata))
    (opId : string) (g : Graph) (dep : string) : Graph :=
  if negb (has_key dep known) then
    {| indegree := indegree g; graph := graph g;
       graph_warnings := graph_warnings g ++ [missing_dependency_warning opId dep] |}
  else
    {| indegree := assoc_set opId (default 0%Z (assoc opId (indegree g)) + 1)%Z (indegree g);
       graph := assoc_set dep (set_add opId (default [] (assoc dep (graph g)))) (graph g);
       graph_warnings := graph_warnings g |}.

(** The two loops that fill [indegree] and [graph]. *)
Definition build_graph (operations : list OperationWithMetadata)
    (warnings : list string) : Graph :=
  let known := idToOperation operations in
  let zeroed :=
    fold_left (fun m op => assoc_set (id (metadata op)) 0%Z m) operations [] in
  fold_left
    (fun g op =>
       fold_left (add_dependency known (id (metadata op))) 
                 (default [] (dependencies (metadata op))) g)
    operations
    {| indegree := zeroed; graph := []; graph_warnings := warnings |}.

(** The variables of the [while] loop. *)
Record Kahn := {
  kahn_indegree : list (string * Z);
  queue : list string;
  processed : list string;
  kahn_stages : list PlanStage;
}.

Definition stage_name (n : nat) : string := "stage-" +:+ pretty n.

(** [for (const neighbour of graph.get(id) ?? [])] *)
Definition release (k : Kahn) (neighbour : string) : Kahn :=
  let next := (default 0%Z (assoc neighbour (kahn_indegree k)) - 1)%Z in
  {| kahn_indegree := assoc_set neighbour next (kahn_indegree k);
     queue := if (next =? 0)%Z then queue k ++ [neighbour] else queue k;
     processed := processed k;
     kahn_stages := kahn_stages k |}.

(** [for (let i = 0; i < levelSize; i += 1)]: [n] iterations are left. *)
Fixpoint level (known : list (string * OperationWithMetadata))
    (edges : list (string * list string)) (n : nat) (k : Kahn)
    (stageOperations : list OperationWithMetadata)
  : Kahn * list OperationWithMetadata :=
  match n with
  | O => (k, stageOperations)
  | S n' =>
      match queue k with
      | [] => (k, stageOperations)
      | i :: q =>
          let shifted := {| kahn_indegree := kahn_indegree k; queue := q;
                            processed := processed k;
                            kahn_stages := kahn_stages k |} in
          if existsb (String.eqb i) (processed k)
          then level known edges n' shifted stageOperations
          else
            match assoc i known with
            | None => level known edges n' shifted stageOperations
            | Some op =>
                let marked := {| kahn_indegree := kahn_indegree k; queue := q;
                                 processed := processed k ++ [i];
                                 kahn_stages := kahn_stages k |} in
                level known edges n'
                  (fold_left release (default [] (assoc i edges)) marked)
                  (stageOperations ++ [op])
            end
      end
  end.

Definition push_stage (k : Kahn) (ops : list OperationWithMetadata)
    (par : bool) : Kahn :=
  {| kahn_indegree := kahn_indegree k; queue := queue k; processed := processed k;
     kahn_stages :=
       kahn_stages k ++ [{| stage_id := stage_name (length (kahn_stages k) + 1);
                            stage_operations := ops;
                            parallel := par |}] |}.

(** [while (queue.length > 0)], with the number of rounds bounded by
    [fuel]; [kahn_fuel_enough] below shows that the bound [buildStages]
    passes is never reached with a non-empty queue. *)
Fixpoint kahn (known : list (string * OperationWithMetadata))
    (edges : list (string * list string)) (fuel : nat) (k : Kahn) : Kahn :=
  match queue k with
  | [] => k
  | _ :: _ =>
      match fuel with
      | O => k
      | S fuel' =>
          let levelSize := length (queue k) in
          let '(k1, stageOperations) := level known edges levelSize k [] in
          kahn known edges fuel'
            (if (0 <? length stageOperations)%nat
             then push_stage k1 stageOperations (1 <? length stageOperations)%nat
             else k1)
      end
  end.

(** The fallback after a cycle: every operation not yet processed gets a
    stage of its own, in declaration order. *)
Definition sequential_rest (operations : list OperationWithMetadata) (k : Kahn) : Kahn :=
  fold_left
    (fun k op =>
       if negb (existsb (String.eqb (id (metadata op))) (processed k))
       then
         let k' := push_stage k [op] false in
         {| kahn_indegree := kahn_indegree k'; queue := queue k';
            processed := processed k' ++ [id (metadata op)];
            kahn_stages := kahn_stages k' |}
       else k)
    operations k.

Definition cycle_warning : string :=
  "Detected dependency cycle. Remaining operations will execute sequentially in declared order.".

(** [buildStages(operations, warnings)]: the stages and the warnings
    array as the call leaves it. *)
Definition buildStages (operations : list OperationWithMetadata)
    (warnings : list string) : list PlanStage * list string :=
  let known := idToOperation operations in
  let g := build_graph operations warnings in
  let queue0 :=
    map fst (List.filter (fun kv => (snd kv =? 0)%Z) (indegree g)) in
  let k := kahn known (graph g) (S (length operations))
             {| kahn_indegree := indegree g; queue := queue0; processed := [];
                kahn_stages := [] |} in
  let '(k', warnings') :=
    if negb (length (processed k) =? length operations)%nat
    then (sequential_rest operations k, graph_warnings g ++ [cycle_warning])
    else (k, graph_warnings g) in
  let stages :=
    if (length (kahn_stages k') =? 0)%nat
    then [{| stage_id := "stage-1"; stage_operations := operations;
             parallel := (1 <? length operations)%nat |}]
    else kahn_stages k' in
  (stages, warnings').

(** [createPlanner().plan(operations, analysis)], without the diff and
    the risk summary. *)
Definition plan (operations : list OperationWithMetadata) : ExecutionPlan :=
  let '(stages, warnings) := buildStages operations [] in
  {| stages := stages;
     warnings := if (0 <? length warnings)%nat then Some warnings else None |}.

(** ** A small host for running examples

    JSON text is looked up in a table of documents (a trailing newline is
    ignored, as [JSON.parse] ignores it), text and bytes coincide, and
    the clock advances by one millisecond per reading. *)

Fixpoint chomp (s : string) : string :=
  match s with
  | EmptyString => EmptyString
  | String c rest =>
      if Ascii.eqb c "010" && String.eqb rest "" then EmptyString
      else String c (chomp rest)
  end.

Fixpoint render_with (docs : list (string * json)) (v : json) : string :=
  match docs with
  | [] => "?"
  | (text, d) :: rest => if json_eqb d v then text else render_with rest v
  end.

Definition table_host (docs : list (string * json)) : Host :=
  {| now := fun n => (1700000000000 + Z.of_nat n)%Z;
     cwd := ["ws"];
     create_mode := 420;
     JSON_parse := fun text => assoc (chomp text) docs;
     JSON_stringify := render_with docs;
     JSON_stringify_entries := fun es => "journal of " +:+ pretty (length es);
     Buffer_from := fun text _ => text;
     Buffer_toString := fun buffer _ => buffer;
     sha256_hex := fun buffer => "sha256:" +:+ buffer;
     replace_placeholder := fun _ _ acc => acc |}.

Definition empty_state : State :=
  {| files := ∅; dirs := ∅; clock := 0; mutations := []; backupRegistry := [];
     journal := None |}.

Definition meta (i : string) : OperationMetadata :=
  {| id := i; description := i; dependencies := None; rawContentBase64 := None |}.

Definition file_op (a : FileAction) (p : string) (c : option string) : FileOperation :=
  {| file_action := a; file_path := p; content := c; template := None;
     encoding := None; mode := None; checksum := None |}.

Definition single_stage (ops : list OperationWithMetadata) : ExecutionPlan :=
  {| stages := [{| stage_id := "stage-1"; stage_operations := ops; parallel := false |}];
     warnings := None |}.

Definition real_run : ExecutionOptions :=
  {| dryRun := false; options_autoConfirm := true; options_backupDir := "" |}.

Definition dry_run : ExecutionOptions :=
  {| dryRun := true; options_autoConfirm := true; options_backupDir := "" |}.

(** The file a journal snapshot of an operation reads, and the encoding
    it decodes with. *)
Definition snapshot_target (workspaceRoot : path) (owm : OperationWithMetadata)
  : option path :=
  match operation owm with
  | OpFile op => Some (resolvePath workspaceRoot (file_path op))
  | OpConfig _ | OpScript _ =>
      Some (resolvePath workspaceRoot (getOperationPath (operation owm)))
  | OpCode _ => None
  end.

Definition snapshot_encoding (owm : OperationWithMetadata) : string :=
  match operation owm with
  | OpFile op => default "utf8" (encoding op)
  | _ => "utf8"
  end.

(** The same config operation with another action. *)
Definition with_action (a : ConfigAction) (op : ConfigOperation) : ConfigOperation :=
  {| config_action := a; config_path := config_path op; pointer := pointer op;
     value := value op; strategy := strategy op |}.



(** ** What one applier call does to the state

    The relation the three appliers are shown to satisfy: a call fails or
    reports no change without touching the state, or it rewrites (or
    removes) its target, after copying it to a fresh file of the backup
    directory when it existed, and logs the mutation. *)

Definition operation_path (operation : Operation) : option string :=
  match operation with
  | OpFile op => Some (file_path op)
  | OpConfig op => Some (config_path op)
  | OpScript op => Some (script_file op)
  | OpCode _ => None
  end.



(** All operations of a plan, in execution order. *)
Definition plan_operations (plan : ExecutionPlan) : list OperationWithMetadata :=
  concat (map stage_operations (stages plan)).




(** Whether resolving an operation path against the root is refused. *)
Definition escapes (workspaceRoot : path) (filePath : string) : bool :=
  match resolveWorkspacePath workspaceRoot filePath with
  | inl _ => true
  | inr _ => false
  end.


(** An operation is staged when some stage holds it. *)
Definition staged (stages : list PlanStage) (op : OperationWithMetadata) : Prop :=
  exists stage, In stage stages /\ In op (stage_operations stage).

(** What the rounds of Kahn's algorithm maintain: no id is processed
    twice, and a processed id is the id of a known operation that sits
    in the stage under construction or in a finished stage. *)
Definition Kahn_ok (known : list (string * OperationWithMetadata)) (k : Kahn)
    (stageOperations : list OperationWithMetadata) : Prop :=
  NoDup (processed k) /\
  forall i, In i (processed k) ->
    exists op, assoc i known = Some op /\
               (In op stageOperations \/ staged (kahn_stages k) op).

(** Payloads in which no object holds [null] under a key (arrays may
    contain it: they are compared as a whole). *)
Fixpoint no_null_fields (v : json) : bool :=
  match v with
  | JNull => false
  | JObj fields => forallb (fun kv => no_null_fields (snd kv)) fields
  | _ => true
  end.

(** ** Invariants of a run *)

(** Whether the journal's snapshot of the operation finds a file. *)
Definition snapshot_sees (root : path) (owm : OperationWithMetadata) (s : State) : bool :=
  match snapshot_target root owm with
  | Some target => bool_decide (is_Some (files s !! target))
  | None => false
  end.




(** Unfolds the monad of the executor. *)
Ltac run_M :=
  cbv [mbind M_bind mret M_ret get_state throw lift modify].

(** ** The planner (planner.ts): diff and risk summary

    The planner is modelled as created without a registry, so no custom
    diff builder takes part.  [analysis] is the [Map] from operation ids
    to analysis results. *)

Inductive FileDiffStatus := status_created | status_modified | status_deleted.

Record DiffPreview := {
  preview_before : option string;
  preview_after : option string;
}.

Record FileDiff := {
  diff_path : string;
  status : FileDiffStatus;
  preview : option DiffPreview;
}.

Record ConfigDiff := {
  config_diff_path : string;
  config_diff_pointer : string;
  config_before : option Observed;
  config_after : option json;
}.

Record DiffSummary := {
  created : nat;
  modified : nat;
  deleted : nat;
}.

Record PlanDiff := {
  diff_files : list FileDiff;
  diff_configs : list ConfigDiff;
  diff_summary : DiffSummary;
}.

Record RiskAssessment := {
  overall : OperationRiskLevel;
  byOperation : list (string * OperationRiskLevel);
}.

Definition RISK_WEIGHT (r : OperationRiskLevel) : nat :=
  match r with
  | risk_safe => 0
  | risk_moderate => 1
  | risk_high => 2
  end.

(** What [normalizeFileSnapshot] keeps of a snapshot. *)
Record FileSnapshot := {
  snapshot_exists : option bool;
  snapshot_content : option string;
}.

Definition normalizeFileSnapshot (snapshot : option Observed) : option FileSnapshot :=
  match snapshot with
  | None => None
  | Some (ObsFile st) =>
      Some {| snapshot_exists := Some (fs_exists st);
              snapshot_content := fs_content st |}
  | Some (ObsJson v) =>
      if negb (truthy (Some v)) then None
      else match v with
           | JStr s => Some {| snapshot_exists := Some true; snapshot_content := Some s |}
           | JObj _ | JArr _ =>
               Some {| snapshot_exists :=
                         match get_prop v "exists" with
                         | Some (JBool b) => Some b
                         | _ => None
                         end;
                       snapshot_content :=
                         match get_prop v "content" with
                         | Some (JStr s) => Some s
                         | _ => None
                         end |}
           | _ => None
           end
  end.

Definition beforeAfterPreview (before after : option string) : option DiffPreview :=
  match before, after with
  | None, None => None
  | _, _ => Some {| preview_before := before; preview_after := after |}
  end.

Definition buildFileDiff (operation : Operation)
    (analysisResult : option AnalysisResult) : option FileDiff :=
  match operation with
  | OpFile op =>
      let current := normalizeFileSnapshot (r ← analysisResult; current r) in
      let status :=
        match file_action op with
        | act_delete => status_deleted
        | _ =>
            match c ← current; snapshot_exists c with
            | Some false => status_created
            | _ => status_modified
            end
        end in
      let after :=
        match file_action op with
        | act_delete => None
        | _ =>
            match content op with
            | Some c => Some c
            | None =>
                match template op with
                | Some t => Some ("{{template:" +:+ source t +:+ "}}")
                | None => None
                end
            end
        end in
      let preview :=
        match beforeAfterPreview (c ← current; snapshot_content c) after with
        | Some p => Some p
        | None =>
            match status with
            | status_deleted => beforeAfterPreview (c ← current; snapshot_content c) None
            | _ => None
            end
        end in
      Some {| diff_path := file_path op; status := status; preview := preview |}
  | _ => None
  end.

Definition buildConfigDiff (operation : Operation)
    (analysisResult : option AnalysisResult) : option ConfigDiff :=
  match operation with
  | OpConfig configOperation =>
      let after :=
        match config_action configOperation with
        | cfg_unset => None
        | _ => value configOperation
        end in
      Some {| config_diff_path := config_path configOperation;
              config_diff_pointer := pointer configOperation;
              config_before := r ← analysisResult; current r;
              config_after := after |}
  | _ => None
  end.

(** The bodies of the two loops of [summarise]. *)
Definition count_file (acc : DiffSummary) (file : FileDiff) : DiffSummary :=
  match status file with
  | status_created =>
      {| created := created acc + 1; modified := modified acc; deleted := deleted acc |}
  | status_modified =>
      {| created := created acc; modified := modified acc + 1; deleted := deleted acc |}
  | status_deleted =>
      {| created := created acc; modified := modified acc; deleted := deleted acc + 1 |}
  end.

Definition count_config (acc : DiffSummary) (config : ConfigDiff) : DiffSummary :=
  match config_after config, config_before config with
  | None, _ =>
      {| created := created acc; modified := modified acc; deleted := deleted acc + 1 |}
  | Some _, None =>
      {| created := created acc + 1; modified := modified acc; deleted := deleted acc |}
  | Some _, Some _ =>
      {| created := created acc; modified := modified acc + 1; deleted := deleted acc |}
  end.

(** [summarise(files, configs)] *)
Definition summarise (files : list FileDiff) (configs : list ConfigDiff) : DiffSummary :=
  fold_left count_config configs
    (fold_left count_file files {| created := 0; modified := 0; deleted := 0 |}).

(** The body of the loop of [buildDiff] over the operations. *)
Definition collect_diff (analysis : list (string * AnalysisResult))
    (acc : list FileDiff * list ConfigDiff) (owm : OperationWithMetadata)
  : list FileDiff * list ConfigDiff :=
  let analysisResult := assoc (id (metadata owm)) analysis in
  match operation owm with
  | OpFile _ =>
      match buildFileDiff (operation owm) analysisResult with
      | Some diff => (fst acc ++ [diff], snd acc)
      | None => acc
      end
  | OpConfig _ =>
      match buildConfigDiff (operation owm) analysisResult with
      | Some diff => (fst acc, snd acc ++ [diff])
      | None => acc
      end
  | _ => acc
  end.

(** [buildDiff(operations, analysis, undefined, workspaceRoot)] *)
Definition buildDiff (operations : list OperationWithMetadata)
    (analysis : list (string * AnalysisResult)) : PlanDiff :=
  let collected := fold_left (collect_diff analysis) operations ([], []) in
  {| diff_files := fst collected;
     diff_configs := snd collected;
     diff_summary := summarise (fst collected) (snd collected) |}.

(** The risk the planner takes for an operation. *)
Definition risk_of (fallback : OperationRiskLevel)
    (analysis : list (string * AnalysisResult)) (owm : OperationWithMetadata)
  : OperationRiskLevel :=
  match assoc (id (metadata owm)) analysis with
  | Some r => risk r
  | None => fallback
  end.

(** [buildRiskAssessment(operations, analysis)] of planner.ts: an
    operation without an analysis counts as [moderate]. *)
Definition buildRiskAssessment (operations : list OperationWithMetadata)
    (analysis : list (string * AnalysisResult)) : RiskAssessment :=
  fold_left
    (fun (acc : RiskAssessment) owm =>
       let risk := risk_of risk_moderate analysis owm in
       {| overall := if (RISK_WEIGHT (overall acc) <? RISK_WEIGHT risk)%nat
                     then risk else overall acc;
          byOperation := assoc_set (id (metadata owm)) risk (byOperation acc) |})
    operations {| overall := risk_safe; byOperation := [] |}.

(** ** The serial planner (class [SerialPlanner])

    [stringify] stands for [JSON.stringify(value, null, 2)] on the
    analysis' [current] value when that is not a string. *)

Module SerialPlanner.

Definition serialize (stringify : Observed -> string) (v : option Observed)
  : option string :=
  match v with
  | None => None
  | Some (ObsJson (JStr s)) => Some s
  | Some o => Some (stringify o)
  end.

Definition buildPreview (stringify : Observed -> string) (before : option Observed)
    (after : option string) : DiffPreview :=
  {| preview_before := serialize stringify before;
     (* [serialize] of a string or of [undefined] is the value itself *)
     preview_after := after |}.

Definition is_file_with (p : FileAction -> bool) (owm : OperationWithMetadata) : bool :=
  match operation owm with
  | OpFile op => p (file_action op)
  | _ => false
  end.

Definition buildDiff (stringify : Observed -> string)
    (operations : list OperationWithMetadata)
    (analysis : list (string * AnalysisResult)) : PlanDiff :=
  let collected :=
    fold_left
      (fun (acc : list FileDiff * list ConfigDiff) op =>
         let result := assoc (id (metadata op)) analysis in
         match operation op with
         | OpFile fop =>
             (fst acc ++
                [{| diff_path := file_path fop;
                    status := match file_action fop with
                              | act_delete => status_deleted
                              | _ => status_modified
                              end;
                    preview := Some (buildPreview stringify (r ← result; current r)
                                                  (content fop)) |}],
              snd acc)
         | OpConfig cop =>
             (fst acc,
              snd acc ++
                [{| config_diff_path := config_path cop;
                    config_diff_pointer := pointer cop;
                    config_before := r ← result; current r;
                    config_after := value cop |}])
         | _ => acc
         end)
      operations ([], []) in
  {| diff_files := fst collected;
     diff_configs := snd collected;
     diff_summary :=
       {| created :=
            length (List.filter
                      (is_file_with (fun a => match a with act_ensure => true | _ => false end))
                      operations);
          modified :=
            length (List.filter
                      (fun op =>
                         negb (is_file_with (fun _ => true) op) ||
                         negb (is_file_with
                                 (fun a => match a with act_delete => true | _ => false end) op))
                      operations);
          deleted :=
            length (List.filter
                      (is_file_with (fun a => match a with act_delete => true | _ => false end))
                      operations) |} |}.

(** An operation without an analysis counts as [safe] here. *)
Definition buildRiskAssessment (operations : list OperationWithMetadata)
    (analysis : list (string * AnalysisResult)) : RiskAssessment :=
  fold_left
    (fun (acc : RiskAssessment) op =>
       let risk := risk_of risk_safe analysis op in
       {| overall :=
            match risk with
            | risk_high => risk_high
            | risk_moderate =>
                match overall acc with
                | risk_safe => risk_moderate
                | o => o
                end
            | risk_safe => overall acc
            end;
          byOperation := assoc_set (id (metadata op)) risk (byOperation acc) |})
    operations {| overall := risk_safe; byOperation := [] |}.

End SerialPlanner.

(** ** The basic analyzer (analyzer/basic-analyzer.ts)

    Modelled as created without a registry.  [message] gives the text of
    an error ([error.message]).  Script names that are properties of
    [Object.prototype] are outside the model, as for the script applier. *)

Definition createUnknownErrorConflict (pathRelative : string) (text : string)
  : Conflict :=
  {| conflict_type := "unknown"; conflict_path := pathRelative;
     actual := Some text;
     suggestion := Some "Review the operation manually before applying." |}.

Definition analyzeCode : AnalysisResult :=
  {| needed := true; current := None; conflicts := None; risk := risk_moderate;
     notes := Some ["Code operations are currently assumed to be needed."] |}.

Definition analyzeScript (h : Host) (message : Error -> string) (cwd_ : path)
    (operation : ScriptOperation) (s : State) : AnalysisResult :=
  let packageJsonPath := path_resolve cwd_ (script_file operation) in
  let failed (e : Error) :=
    {| needed := true; current := None; risk := risk_moderate; notes := None;
       conflicts := Some [createUnknownErrorConflict (script_file operation)
                                                     (message e)] |} in
  match files s !! packageJsonPath with
  | None =>
      {| needed := true; current := None; risk := risk_moderate; notes := None;
         conflicts :=
           Some [{| conflict_type := "missing";
                    conflict_path := script_file operation;
                    actual := None;
                    suggestion :=
                      Some "Create package.json before applying script operation." |}] |}
  | Some f =>
      match JSON_parse h (Buffer_toString h (f_bytes f) "utf8") with
      | None => failed SyntaxError
      | Some json =>
          match read_prop json "scripts" with
          | inl e => failed e
          | inr declared =>
              let scripts := match declared with
                             | None | Some JNull => JObj []
                             | Some v => v
                             end in
              let current := get_prop scripts (name operation) in
              match script_action operation with
              | act_delete =>
                  let needed := match current with Some _ => true | None => false end in
                  {| needed := needed; current := ObsJson_opt current; conflicts := None;
                     risk := if needed then risk_moderate else risk_safe;
                     notes := None |}
              | _ =>
                  let same :=
                    match current, command operation with
                    | None, None => true
                    | Some (JStr c), Some c' => String.eqb c c'
                    | _, _ => false
                    end in
                  if same
                  then {| needed := false; current := ObsJson_opt current;
                          conflicts := None; risk := risk_safe; notes := None |}
                  else {| needed := true; current := ObsJson_opt current;
                          conflicts := None; risk := risk_moderate; notes := None |}
              end
          end
      end
  end.

(** [BasicAnalyzer.analyze] *)
Definition BasicAnalyzer_analyze (h : Host) (message : Error -> string) (cwd_ : path)
    (owm : OperationWithMetadata) (s : State) : AnalysisResult :=
  match operation owm with
  | OpFile op => FileAnalyzer_analyze h cwd_ op s
  | OpConfig op => ConfigAnalyzer_analyze h cwd_ op s
  | OpCode _ => analyzeCode
  | OpScript op => analyzeScript h message cwd_ op s
  end.

(** [BasicAnalyzer.analyzeAll]: the analyzers only read the workspace. *)
Definition analyzeAll (h : Host) (message : Error -> string) (cwd_ : path)
    (operations : list OperationWithMetadata) (s : State)
  : list (string * AnalysisResult) :=
  fold_left
    (fun results owm =>
       assoc_set (id (metadata owm)) (BasicAnalyzer_analyze h message cwd_ owm s) results)
    operations [].

(** ** Invariants of the planner's loops *)

(** The operations of a list of stages, in order. *)
Definition staged_operations (sts : list PlanStage) : list OperationWithMetadata :=
  concat (map stage_operations sts).

(** What the loops of [buildStages] maintain: [processed] lists the ids
    of the operations staged so far, those of the stage under
    construction last, without repetition; each of them is the
    operation [idToOperation] holds under its id; no finished stage is
    empty, a stage is parallel exactly when it holds more than one
    operation, and the stages are numbered from one. *)
Definition Kahn_exact (known : list (string * OperationWithMetadata)) (k : Kahn)
    (stageOperations : list OperationWithMetadata) : Prop :=
  NoDup (processed k) /\
  processed k
  = map (fun op => id (metadata op)) (staged_operations (kahn_stages k) ++ stageOperations) /\
  Forall (fun op => assoc (id (metadata op)) known = Some op)
         (staged_operations (kahn_stages k) ++ stageOperations) /\
  Forall (fun st => stage_operations st <> [] /\
                    parallel st = (1 <? length (stage_operations st))%nat)
         (kahn_stages k) /\
  map stage_id (kahn_stages k) = map stage_name (seq 1 (length (kahn_stages k))).

(** [a] is a neighbour of [d] in the graph: the operation [a] declared
    the dependency [d]. *)
Definition depends_on (edges : list (string * list string)) (d a : string) : Prop :=
  In a (default [] (assoc d edges)).

(** The number of graph entries not yet processed that hold [a] as a
    neighbour. *)
Definition unreleased (edges : list (string * list string)) (done : list string)
    (a : string) : nat :=
  length (List.filter
            (fun kv => existsb (String.eqb a) (snd kv)
                       && negb (existsb (String.eqb (fst kv)) done))
            edges).

(** Every operation of a stage has its dependencies in [seen] or in an
    earlier stage. *)
Fixpoint stages_ordered (edges : list (string * list string)) (seen : list string)
    (sts : list (list OperationWithMetadata)) : Prop :=
  match sts with
  | [] => True
  | st :: rest =>
      (forall op, In op st ->
         forall d, depends_on edges d (id (metadata op)) -> In d seen) /\
      stages_ordered edges (seen ++ map (fun op => id (metadata op)) st) rest
  end.

(** What Kahn's rounds maintain about the order, [n] being the number
    of queue entries left for the current level: an in-degree is at
    least the number of unprocessed entries that will release the
    operation; the finished stages are ordered; the operations of the
    stage under construction and the queue entries of the current level
    have their dependencies in finished stages; the entries queued for
    the next level have theirs processed. *)
Definition Kahn_order (edges : list (string * list string)) (k : Kahn)
    (stageOperations : list OperationWithMetadata) (n : nat) : Prop :=
  let finished := map (fun op => id (metadata op)) (staged_operations (kahn_stages k)) in
  (forall a, (Z.of_nat (unreleased edges (processed k) a)
              <= default 0 (assoc a (kahn_indegree k)))%Z) /\
  stages_ordered edges [] (map stage_operations (kahn_stages k)) /\
  (forall op, In op stageOperations ->
     forall d, depends_on edges d (id (metadata op)) -> In d finished) /\
  (forall a, In a (take n (queue k)) ->
     forall d, depends_on edges d a -> In d finished) /\
  (forall a, In a (queue k) ->
     forall d, depends_on edges d a -> In d (processed k)).

(** What the two loops that fill the graph maintain: the in-degree of
    an operation is at least the number of graph entries that hold it
    as a neighbour; a neighbour is listed once; every id has one
    in-degree. *)
Definition Graph_ok (g : Graph) : Prop :=
  (forall a, (Z.of_nat (unreleased (graph g) [] a)
              <= default 0 (assoc a (indegree g)))%Z) /\
  (forall d ns, assoc d (graph g) = Some ns -> List.NoDup ns) /\
  List.NoDup (map fst (indegree g)).

(** ** Well-formed JSON and object paths *)




(** * Properties *)

(** Induction over JSON values that reaches the items of arrays and the
    fields of objects. *)
Lemma json_nested_ind (P : json -> Prop) :
  P JNull -> (forall b, P (JBool b)) -> (forall n, P (JNum n)) ->
  (forall s, P (JStr s)) ->
  (forall items, Forall P items -> P (JArr items)) ->
  (forall fields, Forall (fun kv => P (snd kv)) fields -> P (JObj fields)) ->
  forall j, P j.
Proof.
  intros Hnull Hbool Hnum Hstr Harr Hobj.
  fix IH 1. intros [ | b | n | s | items | fields ].
  - exact Hnull.
  - apply Hbool.
  - apply Hnum.
  - apply Hstr.
  - apply Harr. induction items as [ | x xs IHxs ]; constructor; [ apply IH | exact IHxs ].
  - apply Hobj. induction fields as [ | [k v] fs IHfs ]; constructor;
      [ apply IH | exact IHfs ].
Qed.

Lemma isDeepSubset_entries (t : json) (fields : list (string * json)) :
  (fix entries (fs : list (string * json)) : bool :=
     match fs with
     | [] => true
     | (key, v) :: rest =>
         if negb (isDeepSubset (get_prop t key) v) then false else entries rest
     end) fields = true <->
  Forall (fun kv => isDeepSubset (get_prop t (fst kv)) (snd kv) = true) fields.
Proof.
  induction fields as [ | [k v] rest IH ].
  - split; [ constructor | reflexivity ].
  - destruct (isDeepSubset (get_prop t k) v) eqn:E; cbn [negb].
    + rewrite IH. split.
      * intros H. constructor; [ exact E | exact H ].
      * intros H. inversion H; assumption.
    + split; [ discriminate | ].
      intros H. inversion H as [ | ? ? Hk _ ]. cbn in Hk. congruence.
Qed.

Lemma isDeepSubset_object (t : json) (fields : list (string * json)) :
  isDeepSubset (Some t) (JObj fields) = true <->
  t <> JNull /\ typeof_object t = true /\
  Forall (fun kv => isDeepSubset (get_prop t (fst kv)) (snd kv) = true) fields.
Proof.
  destruct t; cbn [isDeepSubset typeof_object];
    try (split; [ discriminate | intros (? & ? & ?); congruence ]).
  - rewrite isDeepSubset_entries. split; [ intros H; repeat split; [ discriminate | exact H ] | intros (_ & _ & H); exact H ].
  - rewrite isDeepSubset_entries. split; [ intros H; repeat split; [ discriminate | exact H ] | intros (_ & _ & H); exact H ].
Qed.


Lemma deep_equal_null_l (v : json) : deep_equal JNull v = true -> v = JNull.
Proof. destruct v; cbn; congruence. Qed.

(** On payloads that hold no [null] under a key, [isDeepSubset] decides
    the relation [DeepSubset]. *)
Lemma isDeepSubset_DeepSubset (subset : json) :
  no_null_fields subset = true ->
  forall target, isDeepSubset target subset = true <-> DeepSubset target subset.
Proof.
  induction subset as [ | b | n | s | items _ | fields IH ] using json_nested_ind;
    intros Hnf target.
  1: discriminate.
  1-3: split;
    [ intros H; destruct target as [ t | ]; [ | discriminate ];
      destruct t; try discriminate;
      apply DeepSubset_scalar; try discriminate; exact H
    | intros H; inversion H as [ | t v Ha Ho He | ]; subst;
      destruct t; try exact He; cbn in He; discriminate ].
  - split.
    + intros H. destruct target as [ t | ]; [ | discriminate ].
      destruct t; try discriminate; apply DeepSubset_array; exact H.
    + intros H. inversion H as [ t its He | t v Ha _ _ | ]; subst.
      * destruct t; try exact He; cbn in He; discriminate.
      * exfalso. eapply Ha. reflexivity.
  - cbn in Hnf. rewrite forallb_forall in Hnf.
    rewrite Forall_forall in IH.
    split.
    + intros H. destruct target as [ t | ]; [ | discriminate ].
      apply isDeepSubset_object in H as (Hnull & Hobj & Hall).
      apply DeepSubset_object; [ exact Hnull | exact Hobj | ].
      intros key v Hin. rewrite Forall_forall in Hall.
      assert (Hel : (key, v) ∈ fields) by (apply list_elem_of_In; exact Hin).
      apply (IH (key, v) Hel (Hnf (key, v) Hin)). apply (Hall (key, v) Hel).
    + intros H. inversion H as [ | t v _ Ho _ | t fs Hnull Hobj Hall ]; subst.
      * exfalso. eapply Ho. reflexivity.
      * apply isDeepSubset_object. repeat split; [ exact Hnull | exact Hobj | ].
        rewrite Forall_forall. intros [key v] Hel.
        assert (Hin : In (key, v) fields) by (apply list_elem_of_In; exact Hel).
        apply (IH (key, v) Hel (Hnf (key, v) Hin)). apply Hall. exact Hin.
Qed.

(** ** Config merge analysis *)

(** For an object payload without [null] fields, the analyzer needs the
    merge exactly when the payload is not a deep subset of the current
    value. *)
Lemma merge_object_needed (document : json) (op : ConfigOperation)
    (fields : list (string * json)) :
  config_action op = cfg_merge ->
  value op = Some (JObj fields) ->
  no_null_fields (JObj fields) = true ->
  needed (evaluateDocument document op) = true <->
  ~ DeepSubset (getPointerValue (Some document) (pointer op)) (JObj fields).
Proof.
  intros Hact Hval Hnf. unfold evaluateDocument. rewrite Hact, Hval. cbn [truthy typeof_is_object typeof_object isArray andb negb needed].
  rewrite <- (isDeepSubset_DeepSubset (JObj fields) Hnf).
  destruct (isDeepSubset _ (JObj fields)); cbn; split; congruence.
Qed.

(** A merge whose payload is no plain object is analysed as a [set]. *)
Lemma merge_scalar_as_set (document : json) (op : ConfigOperation) :
  config_action op = cfg_merge ->
  is_plain_object (value op) = false ->
  evaluateDocument document op = evaluateDocument document (with_action cfg_set op) /\
  needed (evaluateDocument document op)
    = negb (isDeepStrictEqual (getPointerValue (Some document) (pointer op)) (value op)).
Proof.
  intros Hact Hplain. unfold evaluateDocument, is_plain_object in *.
  rewrite Hact, Hplain. cbn. split; reflexivity.
Qed.

(** C6, at an input where the code leaves the documented rule: the document
    already holds the payload [{"level": null}] at the pointer, so the
    payload is a deep subset of (indeed deeply equal to) the current
    value, and the executor's merge reports no change; the analyzer
    nevertheless reports the operation as needed, because [isDeepSubset]
    answers [false] for a [null] target before it compares it with the
    [null] of the payload. *)
Theorem merge_null_field_reported_needed :
  let document :=
    JObj [("plugins", JObj [("demo", JObj [("level", JNull)])])] in
  let payload := JObj [("level", JNull)] in
  let op := {| config_action := cfg_merge; config_path := ".kb/kb-labs.config.json";
               pointer := "/plugins/demo"; value := Some payload;
               strategy := None |} in
  getPointerValue (Some document) (pointer op) = Some payload /\
  isDeepStrictEqual (getPointerValue (Some document) (pointer op)) (value op) = true /\
  DeepSubset (getPointerValue (Some document) (pointer op)) payload /\
  needed (evaluateDocument document op) = true /\
  applyConfigMutation document op = unchanged document.
Proof.
  cbv zeta. repeat split; try reflexivity.
  change (getPointerValue _ _) with (Some (JObj [("level", JNull)])).
  apply DeepSubset_object; [ discriminate | reflexivity | ].
  intros key v [ Hin | [] ]. injection Hin as <- <-.
  change (get_prop _ _) with (Some JNull).
  apply DeepSubset_scalar; [ discriminate | discriminate | reflexivity ].
Qed.

(** ** Journal snapshots *)

(** C7. A snapshot of an existing file carries the sha-256 of all its
    bytes; when the file is longer than the journal's byte cap the
    content is the placeholder [<truncated N bytes>] with [N] the full
    length, otherwise the decoded bytes; the cap of a journal created
    without [maxCaptureBytes] is 256 KiB.  Taking the snapshot leaves the
    state as it was. *)
Theorem snapshot_truncation (h : Host) (j : Journal) (owm : OperationWithMetadata)
    (s : State) (target : path) (f : File) :
  snapshot_target (journal_workspaceRoot j) owm = Some target ->
  files s !! target = Some f ->
  let N := String.length (f_bytes f) in
  exists snap,
    captureSnapshot h (journal_workspaceRoot j) owm (maxBytes j) s = (inr snap, s) /\
    snap_exists snap = true /\
    snap_checksum snap = Some (sha256_hex h (f_bytes f)) /\
    ((maxBytes j < Z.of_nat N)%Z ->
       snap_content snap = Some ("<truncated " +:+ pretty N +:+ " bytes>")) /\
    ((Z.of_nat N <= maxBytes j)%Z ->
       snap_content snap = Some (Buffer_toString h (f_bytes f) (snapshot_encoding owm))) /\
    (forall root lp, maxBytes (createChangeJournal root lp None) = 262144%Z).
Proof.
  intros Htarget Hfile N.
  unfold snapshot_target in Htarget. unfold captureSnapshot, snapshot_encoding.
  destruct (operation owm) as [ op | op | op | op ] eqn:Hop; try discriminate;
    injection Htarget as <-;
    unfold readFileIfExists; run_M; cbn [getOperationPath]; rewrite Hfile;
    fold N; destruct (maxBytes j <? Z.of_nat N)%Z eqn:Hcap;
    eexists; (split; [ reflexivity | ]); cbn;
    repeat split; try reflexivity; intros; try reflexivity;
    apply Z.ltb_lt in Hcap || apply Z.ltb_ge in Hcap; lia.
Qed.

Lemma snapshot_truncation_witness :
  exists snap,
    captureSnapshot (table_host [])
      ["ws"] {| operation := OpFile (file_op act_ensure "big.txt" None);
                metadata := meta "file-1" |} 4
      (with_files {[ ["ws"; "big.txt"] := {| f_bytes := "12345"; f_mode := 420 |} ]}
                  empty_state)
    = (inr snap,
       with_files {[ ["ws"; "big.txt"] := {| f_bytes := "12345"; f_mode := 420 |} ]}
                  empty_state) /\
    snap_content snap = Some "<truncated 5 bytes>" /\
    snap_checksum snap = Some "sha256:12345".
Proof.
  assert (Hfile :
    files (with_files {[ ["ws"; "big.txt"] := {| f_bytes := "12345"; f_mode := 420 |} ]}
                      empty_state) !! ["ws"; "big.txt"]
    = Some {| f_bytes := "12345"; f_mode := 420 |}) by (vm_compute; reflexivity).
  destruct (snapshot_truncation (table_host [])
              {| journal_workspaceRoot := ["ws"]; maxBytes := 4; entries := [];
                 entryIndex := ∅; artifacts_backups := []; artifacts_logs := [];
                 logPath := None |}
              {| operation := OpFile (file_op act_ensure "big.txt" None);
                 metadata := meta "file-1" |}
              (with_files {[ ["ws"; "big.txt"] := {| f_bytes := "12345"; f_mode := 420 |} ]}
                          empty_state)
              ["ws"; "big.txt"] {| f_bytes := "12345"; f_mode := 420 |}
              eq_refl Hfile)
    as (snap & Hrun & _ & Hsum & Hbig & _ & _).
  exists snap. split; [ exact Hrun | ]. split; [ | exact Hsum ].
  apply Hbig. reflexivity.
Defined.

(** ** The file applier and the file analyzer *)

Lemma readFile_state (p : path) (s : State) : snd (readFile p s) = s.
Proof. unfold readFile. run_M. destruct (files s !! p); reflexivity. Qed.

(** Resolving the content of a file operation reads at most the template
    and changes nothing. *)
Lemma resolveFileContent_state (h : Host) (ctx : OperationContext)
    (operation : FileOperation) (metadata : option OperationMetadata) (s : State) :
  snd (resolveFileContent h ctx operation metadata s) = s.
Proof.
  unfold resolveFileContent.
  destruct (content operation); [ reflexivity | ].
  destruct (readAnnotationContent h metadata); [ reflexivity | ].
  destruct (template operation) as [ t | ]; [ | reflexivity ].
  unfold renderTemplate. run_M.
  pose proof (readFile_state
                (if isAbsolute (source t) then path_resolve [] (source t)
                 else path_resolve (workspaceRoot ctx) (source t)) s) as Hread.
  destruct (readFile _ s) as [ [ e | raw ] s' ]; cbn in Hread; subst; reflexivity.
Qed.

(** C9. A file [ensure]/[update] whose target already holds the resolved
    bytes returns [changed = false] with no backup and leaves the state
    untouched, the permission bits of the target included, whatever
    [operation.mode] asks for; the analyzer reports such an operation,
    given with inline content and a mode other than the one on disk, as
    needed. *)
Theorem equal_content_skips_chmod (h : Host) (ctx : OperationContext)
    (operation : FileOperation) (metadata : OperationMetadata) (s : State)
    (target : path) (f : File) :
  file_action operation <> act_delete ->
  resolveWorkspacePath (workspaceRoot ctx) (file_path operation) = inr target ->
  files s !! target = Some f ->
  fst (resolveFileContent h ctx operation (Some metadata) s) = inr (f_bytes f) ->
  applyFileOperation h ctx operation metadata s
    = (inr {| changed := false; result_backupPath := None |}, s) /\
  (forall c m, content operation = Some c -> mode operation = Some m ->
     m <> Z.land (f_mode f) 511 ->
     needed (FileAnalyzer_analyze h (workspaceRoot ctx) operation s) = true).
Proof.
  intros Haction Hpath Hfile Hcontent. split.
  - unfold applyFileOperation. run_M. rewrite Hpath.
    unfold pathExists. run_M. rewrite Hfile.
    assert (Hres : resolveFileContent h ctx operation (Some metadata) s
                   = (inr (f_bytes f), s)).
    { pose proof (resolveFileContent_state h ctx operation (Some metadata) s) as Hst.
      destruct (resolveFileContent h ctx operation (Some metadata) s) as [ r s' ].
      cbn in Hcontent, Hst. subst r s'. reflexivity. }
    destruct (file_action operation); try congruence;
      cbn; rewrite Hres; unfold readFile; run_M; rewrite Hfile;
      rewrite String.eqb_refl; reflexivity.
  - intros c m Hc Hm Hne.
    unfold resolveWorkspacePath in Hpath.
    destruct (_ && _) in Hpath; [ discriminate | ]. injection Hpath as <-.
    unfold FileAnalyzer_analyze. rewrite Hfile.
    unfold evaluateExistingFile. rewrite Hc, Hm.
    destruct (file_action operation); try congruence;
      destruct (String.eqb _ c); try reflexivity;
      destruct (Z.eqb_spec m (Z.land (f_mode f) 511)); try reflexivity; congruence.
Qed.

Lemma equal_content_skips_chmod_witness :
  let script := {| file_action := act_ensure; file_path := "run.sh";
                   content := Some "echo"; template := None; encoding := None;
                   mode := Some 493%Z; checksum := None |} in
  let ctx := {| workspaceRoot := ["ws"]; backupDir := ["ws"; ".kb"; "logs"; "setup"];
                autoConfirm := true |} in
  let s := with_files {[ ["ws"; "run.sh"] := {| f_bytes := "echo"; f_mode := 420 |} ]}
                      empty_state in
  applyFileOperation (table_host []) ctx script (meta "file-1") s
    = (inr {| changed := false; result_backupPath := None |}, s) /\
  needed (FileAnalyzer_analyze (table_host []) ["ws"] script s) = true.
Proof.
  intros script ctx s.
  assert (Hfile : files s !! ["ws"; "run.sh"] = Some {| f_bytes := "echo"; f_mode := 420 |})
    by (vm_compute; reflexivity).
  assert (Haction : file_action script <> act_delete) by discriminate.
  destruct (equal_content_skips_chmod (table_host []) ctx script (meta "file-1") s
              ["ws"; "run.sh"] {| f_bytes := "echo"; f_mode := 420 |}
              Haction eq_refl Hfile eq_refl) as [ Happly Hneeded ].
  split; [ exact Happly | ].
  apply (Hneeded "echo" 493%Z eq_refl eq_refl). vm_compute. discriminate.
Defined.

(** ** Config mutation: the walk to the parent *)

Lemma assoc_assoc_set {A} (k : string) (v : A) (l : list (string * A)) :
  assoc k (assoc_set k v l) = Some v.
Proof.
  induction l as [ | [k' v'] l IH ]; cbn.
  - rewrite String.eqb_refl. reflexivity.
  - destruct (String.eqb k k') eqn:E; cbn; rewrite E; [ reflexivity | exact IH ].
Qed.










(** ** The appliers satisfy [Effect] *)

Lemma State_eta (s : State) :
  s = {| files := files s; dirs := dirs s; clock := clock s;
         mutations := mutations s; backupRegistry := backupRegistry s;
         journal := journal s |}.
Proof. destruct s; reflexivity. Qed.

(** The backup step of an applier whose target exists. *)
Lemma createBackupIfNeeded_exists (h : Host) (ctx : OperationContext)
    (target : path) (opId : string) (s : State) (f : File) :
  files s !! target = Some f ->
  exists backupName d,
    createBackupIfNeeded h ctx target opId s =
      (inr (Some (backupDir ctx ++ [backupName])),
       {| files := <[backupDir ctx ++ [backupName] := f]> (files s);
          dirs := d;
          clock := S (clock s);
          mutations := mutations s;
          backupRegistry := backupRegistry s ++ [backupDir ctx ++ [backupName]];
          journal := journal s |}).
Proof.
  intros Hf. unfold createBackupIfNeeded, pathExists, mkdir, Date_now, ensureParentDir,
    mkdir, copyFile. run_M. rewrite Hf. cbn. rewrite Hf.
  eexists _, _. reflexivity.
Qed.

Lemma resolveFileContent_run (h : Host) (ctx : OperationContext)
    (operation : FileOperation) (metadata : option OperationMetadata) (s : State) :
  resolveFileContent h ctx operation metadata s
  = (fst (resolveFileContent h ctx operation metadata s), s).
Proof.
  rewrite <- (resolveFileContent_state h ctx operation metadata s) at 3.
  apply surjective_pairing.
Qed.





(** ** The journal during a run *)

Lemma captureSnapshot_run (h : Host) (root : path) (owm : OperationWithMetadata)
    (cap : Z) (s : State) :
  exists snap,
    captureSnapshot h root owm cap s = (inr snap, s) /\
    snap_exists snap = snapshot_sees root owm s.
Proof.
  unfold captureSnapshot, snapshot_sees, snapshot_target, readFileIfExists. run_M.
  destruct (operation owm) as [ op | op | op | op ]; cbn [getOperationPath].
  1,2,4: match goal with
         | |- context [ files ?s0 !! ?t ] => destruct (files s0 !! t) as [ f | ] eqn:Hf
         end;
    [ destruct (_ <? _)%Z; eexists; split; try reflexivity;
      cbn; symmetry; apply bool_decide_eq_true_2; eauto
    | eexists; split; try reflexivity;
      cbn; symmetry; apply bool_decide_eq_false_2; intros [? ?]; discriminate ].
  eexists; split; reflexivity.
Qed.

(** [journal?.beforeOperation]: one clock reading and one new entry,
    nothing else. *)
Lemma beforeOperation_run (h : Host) (owm : OperationWithMetadata) (s : State) :
  match journal s with
  | None => beforeOperation h owm s = (inr tt, s)
  | Some j =>
      exists entry,
        beforeOperation h owm s =
          (inr tt,
           with_journal (Some (journal_push j (id (metadata owm)) entry))
                        (with_clock (S (clock s)) s)) /\
        entry_operation entry = owm /\
        after entry = None /\
        entry_backupPath entry = None /\
        snap_exists (before entry) = snapshot_sees (journal_workspaceRoot j) owm s
  end.
Proof.
  unfold beforeOperation. run_M. destruct (journal s) as [ j | ] eqn:Hj; [ | reflexivity ].
  unfold journal_beforeOperation, Date_now. run_M.
  destruct (captureSnapshot_run h (journal_workspaceRoot j) owm (maxBytes j)
              (with_clock (S (clock s)) s)) as (snap & Hsnap & Hexists).
  rewrite Hsnap. eexists. split; [ reflexivity | ].
  repeat split; try reflexivity. exact Hexists.
Qed.

Lemma journal_push_complete (j : Journal) (opId : string) (entry entry' : JournalEntry) :
  <[length (entries j) := entry']> (entries (journal_push j opId entry))
  = entries j ++ [entry'].
Proof.
  cbn. rewrite insert_app_r_alt by lia.
  replace (length (entries j) - length (entries j))%nat with 0%nat by lia.
  reflexivity.
Qed.


Lemma afterOperation_no_journal (h : Host) (owm : OperationWithMetadata)
    (context_backupPath : option path) (s : State) :
  journal s = None -> afterOperation h owm context_backupPath s = (inr tt, s).
Proof. intros Hj. unfold afterOperation. run_M. rewrite Hj. reflexivity. Qed.

(** ** The run loop *)




Lemma run_operations_app (h : Host) (ctx : OperationContext) (dry : bool)
    (ops1 ops2 applied : list OperationWithMetadata) (s : State) :
  run_operations h ctx dry (ops1 ++ ops2) applied s =
  match run_operations h ctx dry ops1 applied s with
  | (inr (applied', None), s1) => run_operations h ctx dry ops2 applied' s1
  | other => other
  end.
Proof.
  revert applied s. induction ops1 as [ | owm rest IH ]; intros applied s.
  - reflexivity.
  - cbn [app run_operations].
    destruct (attempt h ctx dry owm s) as [ [ e | pushed ] s1 ].
    + run_M. destruct dry.
      * reflexivity.
      * destruct (rollbackMutations s1) as [ [ e' | [] ] s2 ]; reflexivity.
    + apply IH.
Qed.

Lemma run_stages_flat (h : Host) (ctx : OperationContext) (dry : bool)
    (sts : list PlanStage) (applied : list OperationWithMetadata) (s : State) :
  run_stages h ctx dry sts applied s
  = run_operations h ctx dry (concat (map stage_operations sts)) applied s.
Proof.
  revert applied s. induction sts as [ | stage rest IH ]; intros applied s.
  - reflexivity.
  - cbn [run_stages map concat]. rewrite run_operations_app. run_M.
    destruct (run_operations h ctx dry (stage_operations stage) applied s)
      as [ [ e | [ applied' [ f | ] ] ] s1 ]; cbn; try reflexivity.
    apply IH.
Qed.

(** The [try] block of a real run: the journal's entry, the applier,
    the journal's completion of the entry. *)
Lemma attempt_real (h : Host) (ctx : OperationContext) (owm : OperationWithMetadata)
    (s : State) :
  exists s1,
    beforeOperation h owm s = (inr tt, s1) /\
    attempt h ctx false owm s =
      match applyOperation h ctx owm s1 with
      | (inl e, s2) => (inl e, s2)
      | (inr result, s2) =>
          match afterOperation h owm (result_backupPath result) s2 with
          | (inl e, s3) => (inl e, s3)
          | (inr _, s3) => (inr (changed result), s3)
          end
      end.
Proof.
  pose proof (beforeOperation_run h owm s) as Hbefore.
  unfold attempt. run_M.
  destruct (journal s) as [ j | ].
  - destruct Hbefore as (entry & Hbefore & _). eexists. split; [ exact Hbefore | ].
    rewrite Hbefore. reflexivity.
  - exists s. split; [ exact Hbefore | ]. rewrite Hbefore. reflexivity.
Qed.

(** ** Path safety *)

Lemma applyOperation_escape (h : Host) (ctx : OperationContext)
    (owm : OperationWithMetadata) (filePath : string) (s : State) :
  operation_path (operation owm) = Some filePath ->
  escapes (workspaceRoot ctx) filePath = true ->
  applyOperation h ctx owm s = (inl (PathEscape filePath), s).
Proof.
  unfold escapes, applyOperation, operation_path. intros Hpath Hesc.
  assert (Hres : resolveWorkspacePath (workspaceRoot ctx) filePath
                 = inl (PathEscape filePath)).
  { unfold resolveWorkspacePath in *. destruct (_ && _); [ reflexivity | discriminate ]. }
  destruct (operation owm) as [ op | op | op | op ]; try discriminate;
    injection Hpath as <-;
    unfold applyFileOperation, applyConfigOperation, applyScriptOperation; run_M;
    rewrite Hres; reflexivity.
Qed.

Lemma run_operations_failing (h : Host) (ctx : OperationContext) (dry : bool)
    (owm : OperationWithMetadata) (ops : list OperationWithMetadata) :
  In owm ops ->
  (forall s, exists e, fst (attempt h ctx dry owm s) = inl e) ->
  forall applied s applied' s',
    run_operations h ctx dry ops applied s <> (inr (applied', None), s').
Proof.
  intros Hin Hfail. induction ops as [ | first rest IH ]; [ destruct Hin | ].
  intros applied s applied' s'. cbn [run_operations].
  destruct (attempt h ctx dry first s) as [ [ e | pushed ] s1 ] eqn:Hrun.
  - run_M. destruct dry; [ discriminate | ].
    destruct (rollbackMutations s1) as [ [ e' | [] ] s2 ]; discriminate.
  - destruct Hin as [ -> | Hin ].
    + destruct (Hfail s) as [ e He ]. rewrite Hrun in He. discriminate.
    + apply IH. exact Hin.
Qed.

(** C3, as the code has it.  In a real run, an operation of the plan
    whose path resolves outside the workspace root is rejected by its
    applier before any filesystem call, the state being left exactly as
    it was, and [execute], when it returns, reports [success = false]. *)
Theorem escaping_path_fails_real_run (h : Host) (root : path) (plan : ExecutionPlan)
    (execOptions : ExecutionOptions) (owm : OperationWithMetadata)
    (filePath : string) :
  dryRun execOptions = false ->
  In owm (plan_operations plan) ->
  operation_path (operation owm) = Some filePath ->
  escapes root filePath = true ->
  (forall ctx s, workspaceRoot ctx = root ->
     applyOperation h ctx owm s = (inl (PathEscape filePath), s)) /\
  (forall s result s',
     execute h root plan execOptions s = (inr result, s') ->
     success result = false /\ failed result <> None).
Proof.
  intros Hreal Hin Hpath Hesc. split.
  - intros ctx s <-. apply applyOperation_escape; assumption.
  - intros s result s'. unfold execute. run_M. rewrite Hreal. rewrite run_stages_flat.
    match goal with
    | |- context [ run_operations h ?c false ?ops ?a ?s0 ] =>
        pose proof (run_operations_failing h c false owm ops Hin) as Hnever;
        destruct (run_operations h c false ops a s0)
          as [ [ e | [ applied' [ f | ] ] ] s1 ] eqn:Hrun
    end.
    + discriminate.
    + cbn. intros [= <- <-]. split; [ reflexivity | discriminate ].
    + exfalso. eapply Hnever; [ | exact Hrun ].
      intros s0.
      match goal with
      | |- context [ attempt h ?c false owm s0 ] =>
          destruct (attempt_real h c owm s0) as (s1' & _ & ->);
          rewrite (applyOperation_escape h c owm filePath s1' Hpath Hesc)
      end.
      eexists. reflexivity.
Qed.

Lemma escaping_path_fails_real_run_witness :
  applyOperation (table_host [])
    {| workspaceRoot := ["ws"]; backupDir := ["ws"; ".kb"; "logs"; "setup"];
       autoConfirm := true |}
    {| operation := OpFile (file_op act_ensure "../outside.txt" (Some "x"));
       metadata := meta "file-1" |}
    empty_state
  = (inl (PathEscape "../outside.txt"), empty_state).
Proof.
  assert (Hin : In {| operation := OpFile (file_op act_ensure "../outside.txt" (Some "x"));
                      metadata := meta "file-1" |}
                   (plan_operations
                      (single_stage
                         [{| operation := OpFile (file_op act_ensure "../outside.txt" (Some "x"));
                             metadata := meta "file-1" |}])))
    by (left; reflexivity).
  apply (proj1 (escaping_path_fails_real_run (table_host []) ["ws"]
                  (single_stage
                     [{| operation := OpFile (file_op act_ensure "../outside.txt" (Some "x"));
                         metadata := meta "file-1" |}])
                  real_run _ "../outside.txt" eq_refl Hin eq_refl eq_refl)).
  reflexivity.
Defined.

(** C3 as stated fails under [dryRun]: the simulation of a file
    operation only resolves its content, the path is never resolved, and
    the run of a plan whose single operation escapes the workspace
    returns [success = true]. *)
Lemma dry_run_accepts_escaping_path :
  escapes ["ws"] "../outside.txt" = true /\
  match fst (execute (table_host []) ["ws"]
               (single_stage
                  [{| operation := OpFile (file_op act_ensure "../outside.txt" (Some "x"));
                      metadata := meta "file-1" |}])
               dry_run empty_state) with
  | inr result => success result = true /\ failed result = None
  | inl _ => False
  end.
Proof. split; [ reflexivity | vm_compute; split; reflexivity ]. Qed.

(** ** Dry runs *)

Lemma simulateOperation_run (h : Host) (ctx : OperationContext)
    (owm : OperationWithMetadata) (s : State) :
  simulateOperation h ctx owm s = (fst (simulateOperation h ctx owm s), s).
Proof.
  unfold simulateOperation. destruct (operation owm); try reflexivity.
  run_M. rewrite resolveFileContent_run.
  destruct (fst (resolveFileContent h ctx op (Some (metadata owm)) s)); reflexivity.
Qed.







(** ** Rollback *)

Lemma is_prefix_app (a l : path) : is_prefix a (a ++ l) = true.
Proof.
  induction a as [ | x a IH ]; [ reflexivity | ].
  cbn. rewrite String.eqb_refl. exact IH.
Qed.

























(** ** Backups and journal entries *)











(** ** The planner: missing dependencies *)






Lemma has_key_assoc_set {A} (k k' : string) (v : A) (m : list (string * A)) :
  has_key k (assoc_set k' v m) = String.eqb k k' || has_key k m.
Proof.
  unfold has_key. induction m as [ | [k0 v0] m IH ]; cbn.
  - destruct (String.eqb k k'); reflexivity.
  - destruct (String.eqb k' k0) eqn:E0; cbn.
    + apply String.eqb_eq in E0. subst k0.
      destruct (String.eqb k k'); reflexivity.
    + destruct (String.eqb k k0); [ symmetry; apply orb_true_r | exact IH ].
Qed.

Lemma has_key_fold {A} (key : A -> string) (k : string) (l : list A)
    (m : list (string * A)) :
  has_key k (fold_left (fun m x => assoc_set (key x) x m) l m)
  = existsb (fun x => String.eqb k (key x)) l || has_key k m.
Proof.
  revert m. induction l as [ | x l IH ]; intros m; [ reflexivity | ].
  cbn [fold_left existsb]. rewrite IH, has_key_assoc_set.
  destruct (String.eqb k (key x)), (existsb _ l); reflexivity.
Qed.

(** A key is in [idToOperation] exactly when it is the id of an operation. *)
Lemma has_key_idToOperation (operations : list OperationWithMetadata) (k : string) :
  has_key k (idToOperation operations)
  = existsb (fun op => String.eqb k (id (metadata op))) operations.
Proof.
  unfold idToOperation.
  rewrite (has_key_fold (fun op => id (metadata op))). apply orb_false_r.
Qed.




(** A single operation all of whose dependencies are absent is the one
    operation of the one stage. *)
Lemma buildStages_single (owm : OperationWithMetadata) :
  ~ In (id (metadata owm)) (default [] (dependencies (metadata owm))) ->
  buildStages [owm] []
  = ([{| stage_id := "stage-1"; stage_operations := [owm]; parallel := false |}],
     map (missing_dependency_warning (id (metadata owm)))
         (default [] (dependencies (metadata owm)))).
Proof.
  intros Hself.
  assert (Hgraph : forall deps warnings,
    ~ In (id (metadata owm)) deps ->
    fold_left (add_dependency [(id (metadata owm), owm)] (id (metadata owm))) deps
      {| indegree := [(id (metadata owm), 0%Z)]; graph := [];
         graph_warnings := warnings |}
    = {| indegree := [(id (metadata owm), 0%Z)]; graph := [];
         graph_warnings :=
           warnings ++ map (missing_dependency_warning (id (metadata owm))) deps |}).
  { induction deps as [ | dep deps IH ]; intros warnings Hnot.
    - cbn. rewrite app_nil_r. reflexivity.
    - cbn [fold_left map]. unfold add_dependency at 2. unfold has_key. cbn [assoc].
      destruct (String.eqb_spec dep (id (metadata owm))) as [ -> | Hne ].
      + exfalso. apply Hnot. left. reflexivity.
      + cbn. rewrite IH by (intros H; apply Hnot; right; exact H).
        rewrite <- app_assoc. reflexivity. }
  unfold buildStages, build_graph, idToOperation. cbn [fold_left assoc_set].
  rewrite (Hgraph _ [] Hself). cbn.
  rewrite String.eqb_refl. cbn. reflexivity.
Qed.

Lemma existsb_eqb_In (i : string) (l : list string) :
  existsb (String.eqb i) l = true <-> In i l.
Proof.
  rewrite existsb_exists. split.
  - intros (x & Hin & Heq). apply String.eqb_eq in Heq. subst. exact Hin.
  - intros Hin. exists i. split; [ exact Hin | apply String.eqb_refl ].
Qed.

Lemma release_all (k : Kahn) (neighbours : list string) :
  processed (fold_left release neighbours k) = processed k /\
  kahn_stages (fold_left release neighbours k) = kahn_stages k.
Proof.
  revert k. induction neighbours as [ | n ns IH ]; intros k; [ split; reflexivity | ].
  cbn [fold_left]. destruct (IH (release k n)) as [ -> -> ]. split; reflexivity.
Qed.

Lemma level_ok (known : list (string * OperationWithMetadata))
    (edges : list (string * list string)) (n : nat) :
  forall k acc,
    Kahn_ok known k acc ->
    Kahn_ok known (fst (level known edges n k acc)) (snd (level known edges n k acc)) /\
    kahn_stages (fst (level known edges n k acc)) = kahn_stages k.
Proof.
  induction n as [ | n IH ]; intros k acc Hok; [ split; [ exact Hok | reflexivity ] | ].
  cbn [level]. destruct (queue k) as [ | i q ]; [ split; [ exact Hok | reflexivity ] | ].
  assert (Hskip : Kahn_ok known {| kahn_indegree := kahn_indegree k; queue := q;
                                    processed := processed k;
                                    kahn_stages := kahn_stages k |} acc) by exact Hok.
  destruct (existsb (String.eqb i) (processed k)) eqn:Hseen.
  - exact (IH _ acc Hskip).
  - destruct (assoc i known) as [ op | ] eqn:Hop.
    + match goal with
      | |- context [ level known edges n ?k1 ?acc1 ] =>
          destruct (IH k1 acc1) as [ Hok1 Hst1 ]
      end.
      * destruct (release_all
                    {| kahn_indegree := kahn_indegree k; queue := q;
                       processed := processed k ++ [i]; kahn_stages := kahn_stages k |}
                    (default [] (assoc i edges))) as [ Hp Hs ].
        destruct Hok as [ Hnodup Hall ]. unfold Kahn_ok. rewrite Hp, Hs. cbn. split.
        -- apply NoDup_app. split; [ exact Hnodup | ]. split.
           ++ intros x Hx Hx'. apply list_elem_of_In in Hx, Hx'.
              destruct Hx' as [ <- | [] ].
              apply existsb_eqb_In in Hx. congruence.
           ++ apply NoDup_singleton.
        -- intros i' Hi'. apply in_app_or in Hi' as [ Hi' | [ <- | [] ] ].
           ++ destruct (Hall i' Hi') as (op' & Hop' & [ Hacc | Hst ]).
              ** exists op'. split; [ exact Hop' | ]. left. apply in_or_app. left. exact Hacc.
              ** exists op'. split; [ exact Hop' | ]. right. exact Hst.
           ++ exists op. split; [ exact Hop | ]. left. apply in_or_app. right. left.
              reflexivity.
      * split; [ exact Hok1 | ]. rewrite Hst1.
        apply (release_all
                 {| kahn_indegree := kahn_indegree k; queue := q;
                    processed := processed k ++ [i]; kahn_stages := kahn_stages k |}).
    + exact (IH _ acc Hskip).
Qed.

Lemma staged_app (stages more : list PlanStage) (op : OperationWithMetadata) :
  staged stages op -> staged (stages ++ more) op.
Proof. intros (st & Hin & Hop). exists st. split; [ apply in_or_app; left | ]; assumption. Qed.

Lemma kahn_ok (known : list (string * OperationWithMetadata))
    (edges : list (string * list string)) (fuel : nat) :
  forall k,
    Kahn_ok known k [] ->
    Kahn_ok known (kahn known edges fuel k) [] /\
    (forall op, staged (kahn_stages k) op ->
                staged (kahn_stages (kahn known edges fuel k)) op).
Proof.
  induction fuel as [ | fuel IH ]; intros k Hok.
  - cbn. destruct (queue k); split; auto.
  - cbn [kahn]. destruct (queue k) as [ | i q ] eqn:Hq; [ split; auto | ].
    rewrite <- Hq.
    destruct (level_ok known edges (length (queue k)) k [] Hok) as [ Hok1 Hst1 ].
    destruct (level known edges (length (queue k)) k []) as [ k1 ops ].
    cbn [fst snd] in Hok1, Hst1.
    destruct (0 <? length ops)%nat eqn:Hops.
    + destruct (IH (push_stage k1 ops (1 <? length ops)%nat)) as [ Hok2 Hst2 ].
      * destruct Hok1 as [ Hnodup Hall ]. split; [ exact Hnodup | ].
        intros i' Hi'. destruct (Hall i' Hi') as (op & Hop & [ Hacc | Hst ]).
        -- exists op. split; [ exact Hop | ]. right.
           eexists. split; [ cbn; apply in_or_app; right; left; reflexivity | exact Hacc ].
        -- exists op. split; [ exact Hop | ]. right. apply staged_app. exact Hst.
      * split; [ exact Hok2 | ]. intros op Hop. apply Hst2. cbn.
        apply staged_app. rewrite Hst1. exact Hop.
    + destruct (IH k1) as [ Hok2 Hst2 ].
      * destruct ops; [ exact Hok1 | discriminate ].
      * split; [ exact Hok2 | ]. intros op Hop. apply Hst2. rewrite Hst1. exact Hop.
Qed.

(** The rounds of the [while] loop are bounded.  A round that stages
    nothing pushes nothing and leaves the queue empty; a round that
    stages something lengthens [processed], which never holds more ids
    than [idToOperation] has keys. *)
Lemma release_all_queue (k : Kahn) (neighbours : list string) :
  exists pushed, queue (fold_left release neighbours k) = queue k ++ pushed.
Proof.
  revert k. induction neighbours as [ | n ns IH ]; intros k.
  - exists []. cbn. rewrite app_nil_r. reflexivity.
  - cbn [fold_left]. destruct (IH (release k n)) as (pushed & ->).
    unfold release. cbn [queue]. destruct (_ =? 0)%Z.
    + exists ([n] ++ pushed). rewrite app_assoc. reflexivity.
    + exists pushed. reflexivity.
Qed.

Lemma level_progress (known : list (string * OperationWithMetadata))
    (edges : list (string * list string)) (n : nat) :
  forall k acc,
    (length (processed (fst (level known edges n k acc))) + length acc
     = length (processed k) + length (snd (level known edges n k acc)))%nat /\
    (length acc <= length (snd (level known edges n k acc)))%nat /\
    (length (snd (level known edges n k acc)) = length acc ->
     queue (fst (level known edges n k acc)) = drop n (queue k)).
Proof.
  induction n as [ | n IH ]; intros k acc.
  - cbn. split; [ lia | split; [ lia | reflexivity ] ].
  - cbn [level]. destruct (queue k) as [ | i q ] eqn:Hq.
    { cbn. rewrite Hq. split; [ lia | split; [ lia | reflexivity ] ]. }
    cbn [drop].
    assert (Hskip := IH {| kahn_indegree := kahn_indegree k; queue := q;
                           processed := processed k;
                           kahn_stages := kahn_stages k |} acc).
    cbn [queue processed] in Hskip.
    destruct (existsb (String.eqb i) (processed k)); [ exact Hskip | ].
    destruct (assoc i known) as [ op | ]; [ clear Hskip | exact Hskip ].
    match goal with
    | |- context [ level known edges n ?k1 ?acc1 ] =>
        destruct (IH k1 acc1) as (Hlen & Hle & _);
        destruct (level known edges n k1 acc1) as [ k2 ops ]
    end.
    cbn [fst snd] in *.
    rewrite (proj1 (release_all _ _)) in Hlen. cbn [processed] in Hlen.
    rewrite !length_app in *. cbn [length] in *.
    split; [ lia | split; [ lia | intros Heq; lia ] ].
Qed.

Lemma length_assoc_set {A} (k : string) (v : A) (m : list (string * A)) :
  (length (assoc_set k v m) <= S (length m))%nat.
Proof.
  induction m as [ | [k0 v0] m IH ]; cbn; [ lia | ].
  destruct (String.eqb k k0); cbn; lia.
Qed.

Lemma length_idToOperation (operations : list OperationWithMetadata) :
  (length (idToOperation operations) <= length operations)%nat.
Proof.
  unfold idToOperation.
  assert (Hgen : forall m,
    (length (fold_left (fun m op => assoc_set (id (metadata op)) op m) operations m)
     <= length m + length operations)%nat).
  { induction operations as [ | op rest IH ]; intros m; cbn [fold_left length]; [ lia | ].
    specialize (IH (assoc_set (id (metadata op)) op m)).
    pose proof (length_assoc_set (id (metadata op)) op m). lia. }
  apply (Hgen []).
Qed.

Lemma assoc_In_keys {A} (k : string) (v : A) (m : list (string * A)) :
  assoc k m = Some v -> In k (map fst m).
Proof.
  induction m as [ | [k0 v0] m IH ]; cbn; [ discriminate | ].
  destruct (String.eqb_spec k k0) as [ -> | _ ]; [ left; reflexivity | ].
  intros H. right. exact (IH H).
Qed.

Lemma Kahn_ok_bound (known : list (string * OperationWithMetadata)) (k : Kahn)
    (acc : list OperationWithMetadata) :
  Kahn_ok known k acc -> (length (processed k) <= length known)%nat.
Proof.
  intros [ Hnodup Hall ]. rewrite <- (length_map fst known).
  apply List.NoDup_incl_length; [ apply NoDup_ListNoDup; exact Hnodup | ].
  intros i Hi. destruct (Hall i Hi) as (op & Hop & _).
  exact (assoc_In_keys _ _ _ Hop).
Qed.

Lemma push_stage_ok (known : list (string * OperationWithMetadata)) (k : Kahn)
    (ops : list OperationWithMetadata) (par : bool) :
  Kahn_ok known k ops -> Kahn_ok known (push_stage k ops par) [].
Proof.
  intros [ Hnodup Hall ]. split; [ exact Hnodup | ].
  intros i Hi. destruct (Hall i Hi) as (op & Hop & [ Hacc | Hst ]).
  - exists op. split; [ exact Hop | ]. right.
    eexists. split; [ cbn; apply in_or_app; right; left; reflexivity | exact Hacc ].
  - exists op. split; [ exact Hop | ]. right. apply staged_app. exact Hst.
Qed.

Lemma kahn_terminates (known : list (string * OperationWithMetadata))
    (edges : list (string * list string)) (fuel : nat) :
  forall k,
    Kahn_ok known k [] ->
    (length known < fuel + length (processed k))%nat ->
    queue (kahn known edges fuel k) = [].
Proof.
  induction fuel as [ | fuel IH ]; intros k Hok Hfuel.
  - pose proof (Kahn_ok_bound _ _ _ Hok). cbn in Hfuel. lia.
  - cbn [kahn]. destruct (queue k) as [ | i q ] eqn:Hq; [ exact Hq | ].
    rewrite <- Hq.
    destruct (level_ok known edges (length (queue k)) k [] Hok) as [ Hok1 _ ].
    destruct (level_progress known edges (length (queue k)) k []) as (Hlen & _ & Hidle).
    destruct (level known edges (length (queue k)) k []) as [ k1 ops ].
    cbn [fst snd length] in *.
    destruct ops as [ | op ops ].
    + cbn. rewrite drop_all in Hidle. specialize (Hidle eq_refl).
      destruct fuel; cbn [kahn]; rewrite Hidle; exact Hidle.
    + cbn [Nat.ltb Nat.leb length].
      apply IH; [ apply push_stage_ok; exact Hok1 | ].
      cbn [processed push_stage]. cbn [length] in Hlen. lia.
Qed.

(** The bound [buildStages] passes is enough: the loop leaves with an
    empty queue, as [while (queue.length > 0)] does. *)
Lemma kahn_fuel_enough (operations : list OperationWithMetadata)
    (edges : list (string * list string)) (k : Kahn) :
  processed k = [] ->
  queue (kahn (idToOperation operations) edges (S (length operations)) k) = [].
Proof.
  intros Hnone. apply kahn_terminates.
  - split; rewrite Hnone; [ constructor | intros i [] ].
  - rewrite Hnone. pose proof (length_idToOperation operations). cbn. lia.
Qed.

Lemma assoc_assoc_set_ne {A} (k k' : string) (v : A) (m : list (string * A)) :
  k <> k' -> assoc k (assoc_set k' v m) = assoc k m.
Proof.
  intros Hne. induction m as [ | [k0 v0] m IH ]; cbn.
  - destruct (String.eqb_spec k k'); [ congruence | reflexivity ].
  - destruct (String.eqb_spec k' k0) as [ <- | H0 ]; cbn.
    + destruct (String.eqb_spec k k'); [ congruence | reflexivity ].
    + destruct (String.eqb k k0); [ reflexivity | exact IH ].
Qed.

(** With distinct ids, [idToOperation] maps the id of each operation to
    that operation. *)
Lemma assoc_idToOperation (operations : list OperationWithMetadata)
    (owm : OperationWithMetadata) :
  NoDup (map (fun op => id (metadata op)) operations) ->
  In owm operations ->
  assoc (id (metadata owm)) (idToOperation operations) = Some owm.
Proof.
  unfold idToOperation. generalize (@nil (string * OperationWithMetadata)).
  induction operations as [ | op rest IH ]; intros m Hnodup Hin; [ destruct Hin | ].
  cbn [map] in Hnodup. apply NoDup_cons in Hnodup as [ Hfresh Hnodup ].
  cbn [fold_left]. destruct Hin as [ -> | Hin ]; [ | apply IH; assumption ].
  clear IH Hnodup.
  assert (Hkeep : forall l m,
    id (metadata owm) ∉ map (fun op => id (metadata op)) l ->
    assoc (id (metadata owm))
      (fold_left (fun m op => assoc_set (id (metadata op)) op m) l m)
    = assoc (id (metadata owm)) m).
  { induction l as [ | x l IHl ]; intros m' Hx; [ reflexivity | ].
    cbn [fold_left]. rewrite IHl.
    - apply assoc_assoc_set_ne. intros Heq. apply Hx. cbn. rewrite Heq. left.
    - intros Hin. apply Hx. cbn. right. exact Hin. }
  rewrite Hkeep by exact Hfresh. apply assoc_assoc_set.
Qed.

(** The fallback keeps the stages it finds and gives every operation
    not yet processed a stage of its own. *)
Lemma sequential_rest_stages (operations : list OperationWithMetadata) :
  forall k,
    (forall op, staged (kahn_stages k) op ->
                staged (kahn_stages (sequential_rest operations k)) op) /\
    (NoDup (map (fun op => id (metadata op)) operations) ->
     forall owm, In owm operations ->
       ~ In (id (metadata owm)) (processed k) ->
       staged (kahn_stages (sequential_rest operations k)) owm).
Proof.
  unfold sequential_rest.
  induction operations as [ | op rest IH ]; intros k.
  - split; [ auto | intros _ owm [] ].
  - cbn [fold_left].
    destruct (existsb (String.eqb (id (metadata op))) (processed k)) eqn:Hseen;
      cbn [negb].
    + destruct (IH k) as [ Hkeep Hnew ]. split; [ exact Hkeep | ].
      intros Hnodup owm [ -> | Hin ] Hfresh.
      * apply existsb_eqb_In in Hseen. contradiction.
      * cbn [map] in Hnodup. apply NoDup_cons in Hnodup as [ _ Hnodup ].
        apply Hnew; assumption.
    + match goal with
      | |- context [ fold_left _ rest ?k1 ] => destruct (IH k1) as [ Hkeep Hnew ]
      end.
      cbn [kahn_stages push_stage processed] in *.
      split.
      * intros owm Howm. apply Hkeep, staged_app, Howm.
      * intros Hnodup owm [ -> | Hin ] Hfresh.
        -- apply Hkeep. eexists. split; [ apply in_or_app; right; left; reflexivity | ].
           left. reflexivity.
        -- cbn [map] in Hnodup. apply NoDup_cons in Hnodup as [ Hop Hnodup ].
           apply Hnew; [ exact Hnodup | exact Hin | ].
           intros Hx. apply in_app_or in Hx as [ Hx | [ Heq | [] ] ];
             [ contradiction | ].
           apply Hop. rewrite Heq. apply list_elem_of_In.
           exact (in_map (fun x => id (metadata x)) rest owm Hin).
Qed.

(** Every operation of an input with distinct ids is in some stage. *)
Lemma buildStages_complete (operations : list OperationWithMetadata)
    (warnings : list string) (owm : OperationWithMetadata) :
  NoDup (map (fun op => id (metadata op)) operations) ->
  In owm operations ->
  staged (fst (buildStages operations warnings)) owm.
Proof.
  intros Hnodup Hin. unfold buildStages.
  set (known := idToOperation operations).
  set (g := build_graph operations warnings).
  set (k0 := {| kahn_indegree := indegree g;
                queue := map fst (List.filter (fun kv => (snd kv =? 0)%Z) (indegree g));
                processed := []; kahn_stages := [] |}).
  destruct (kahn_ok known (graph g) (S (length operations)) k0) as [ [ Hnd Hall ] _ ].
  { split; [ constructor | intros i [] ]. }
  set (k := kahn known (graph g) (S (length operations)) k0) in *.
  assert (Hfinal : forall stages,
    staged stages owm ->
    staged (if (length stages =? 0)%nat
            then [{| stage_id := "stage-1"; stage_operations := operations;
                     parallel := (1 <? length operations)%nat |}]
            else stages) owm).
  { intros stages Hst. destruct stages; [ | exact Hst ].
    destruct Hst as (st & [] & _). }
  destruct (Nat.eqb_spec (length (processed k)) (length operations)) as [ Hlen | Hlen ];
    cbn [negb fst]; apply Hfinal.
  - (* every id was processed *)
    assert (Hids : incl (map (fun op => id (metadata op)) operations) (processed k)).
    { apply NoDup_length_incl.
      - apply NoDup_ListNoDup. exact Hnd.
      - rewrite length_map, Hlen. lia.
      - intros i Hi. destruct (Hall i Hi) as (op & Hop & _).
        assert (Hkey : has_key i known = true) by (unfold has_key; rewrite Hop; reflexivity).
        unfold known in Hkey. rewrite has_key_idToOperation in Hkey.
        apply existsb_exists in Hkey as (x & Hx & Heq).
        apply String.eqb_eq in Heq. subst i.
        exact (in_map (fun y => id (metadata y)) operations x Hx). }
    destruct (Hall (id (metadata owm))) as (op & Hop & [ [] | Hst ]).
    + apply Hids. exact (in_map (fun y => id (metadata y)) operations owm Hin).
    + unfold known in Hop. rewrite (assoc_idToOperation _ _ Hnodup Hin) in Hop.
      injection Hop as <-. exact Hst.
  - (* the fallback stages the rest *)
    destruct (sequential_rest_stages operations k) as [ Hkeep Hnew ].
    destruct (in_dec string_dec (id (metadata owm)) (processed k)) as [ Hp | Hp ].
    + destruct (Hall _ Hp) as (op & Hop & [ [] | Hst ]).
      unfold known in Hop. rewrite (assoc_idToOperation _ _ Hnodup Hin) in Hop.
      injection Hop as <-. apply Hkeep. exact Hst.
    + apply Hnew; assumption.
Qed.




(** ** Running a plan twice *)

(** The script applier answers [changed = false] in two places only: a
    [delete] of a script that is not declared, and a conflict resolved
    with [keep].  An [ensure] or [update] whose command is already the
    declared one is written back and reported as changed. *)
Lemma applyScriptOperation_unchanged (h : Host) (ctx : OperationContext)
    (op : ScriptOperation) (opId : string) (s : State) (r : ApplyResult) :
  fst (applyScriptOperation h ctx op opId s) = inr r ->
  changed r = false ->
  script_action op = act_delete \/ conflictResolution op = Some res_keep.
Proof.
  unfold applyScriptOperation. run_M.
  destruct (resolveWorkspacePath (workspaceRoot ctx) (script_file op))
    as [ e | target ]; [ discriminate | ].
  unfold pathExists. run_M.
  destruct (conflictResolution op) as [ [ | | ] | ] eqn:Hresolution;
    [ right; reflexivity | | | ];
    (destruct (script_action op) eqn:Haction; [ | | left; reflexivity ]);
    cbn [default];
    (destruct (files s !! target) as [ f | ] eqn:Hf;
     [ rewrite bool_decide_eq_true_2 by eauto;
       unfold readFile; run_M; rewrite Hf;
       destruct (createBackupIfNeeded_exists h ctx target opId s f Hf)
         as (backupName & d & Hbackup);
       destruct (JSON_parse h (Buffer_toString h (f_bytes f) "utf8")) as [ pkg | ];
         [ | discriminate ];
       destruct (read_prop pkg "scripts") as [ e | declared ]; [ discriminate | ];
       destruct (write_prop pkg "scripts" _) as [ e | pkg1 ]; [ discriminate | ]
     | rewrite bool_decide_eq_false_2 by (intros [? ?]; discriminate);
       cbn [read_prop get_prop assoc write_prop assoc_set] ]);
    repeat match goal with
      | |- context [ match ?x with _ => _ end ] =>
          match x with
          | get_prop _ _ => destruct x
          | negb _ => destruct x
          | write_prop _ _ _ => destruct x
          end
      end;
    try discriminate;
    rewrite ?Hbackup; unfold ensureParentDir, mkdir, writeFile, recordMutation;
    run_M; cbn; rewrite ?Hbackup; cbn; intros Hr Hch;
    first [ discriminate Hr | injection Hr as <-; discriminate Hch ].
Qed.

(** C1, at an input where the code leaves the documented rule: the plan holds
    one script operation, [ensure] the script [build] with the command
    [tsc] in [package.json].  The first run succeeds and declares the
    script.  The second run of the same plan finds the command already
    declared, and nevertheless backs the manifest up, writes it back and
    reports the operation as applied: the bytes of the manifest are the
    same, but the workspace holds one more backup file and [applied] is
    not empty.  The same two runs of a file operation report
    [applied = []] the second time and leave the files as they are. *)
Theorem script_rerun_reported_applied :
  let manifest := JObj [("scripts", JObj [("build", JStr "tsc")])] in
  let h := table_host [("{}", JObj []); ("{ scripts: { build: tsc } }", manifest)] in
  let script :=
    {| operation :=
         OpScript {| script_action := act_ensure; script_file := "package.json";
                     name := "build"; command := Some "tsc";
                     conflictResolution := None |};
       metadata := meta "script-1" |} in
  let file :=
    {| operation := OpFile (file_op act_ensure ".kb/demo.txt" (Some "demo"));
       metadata := meta "file-1" |} in
  let before :=
    with_files {[ ["ws"; "package.json"] := {| f_bytes := "{}"; f_mode := 420 |} ]}
               empty_state in
  let first := execute h ["ws"] (single_stage [script]) real_run before in
  let second := execute h ["ws"] (single_stage [script]) real_run (snd first) in
  let first_file := execute h ["ws"] (single_stage [file]) real_run before in
  let second_file := execute h ["ws"] (single_stage [file]) real_run (snd first_file) in
  let backup := ["ws"; ".kb"; "logs"; "setup"; "1700000000001-script-1-package.json.bak"] in
  (exists r1 r2,
     fst first = inr r1 /\ success r1 = true /\ applied r1 = [script] /\
     fst second = inr r2 /\ success r2 = true /\ applied r2 = [script] /\
     artifact_backups r2 = [backup]) /\
  files (snd second) !! ["ws"; "package.json"]
    = files (snd first) !! ["ws"; "package.json"] /\
  files (snd first) !! backup = None /\
  files (snd second) !! backup = files (snd first) !! ["ws"; "package.json"] /\
  is_Some (files (snd second) !! backup) /\
  (exists r1 r2,
     fst first_file = inr r1 /\ applied r1 = [file] /\
     fst second_file = inr r2 /\ success r2 = true /\ applied r2 = [] /\
     artifact_backups r2 = []) /\
  files (snd second_file) = files (snd first_file).
Proof.
  cbv zeta. split; [ | split; [ | split; [ | split; [ | split; [ | split ] ] ] ] ].
  - eexists. eexists. vm_compute. repeat split.
  - vm_compute. reflexivity.
  - vm_compute. reflexivity.
  - vm_compute. reflexivity.
  - eexists. vm_compute. reflexivity.
  - eexists. eexists. vm_compute. repeat split.
  - vm_compute. reflexivity.
Qed.

(** * Further properties *)

(** ** The planner's diff and risk summary *)

Lemma count_file_total (files : list FileDiff) (acc : DiffSummary) :
  (created (fold_left count_file files acc) + modified (fold_left count_file files acc)
   + deleted (fold_left count_file files acc)
   = created acc + modified acc + deleted acc + length files)%nat.
Proof.
  revert acc. induction files as [ | f files IH ]; intros acc; cbn [fold_left length];
    [ lia | ].
  rewrite IH. unfold count_file. destruct (status f); cbn; lia.
Qed.

Lemma count_config_total (configs : list ConfigDiff) (acc : DiffSummary) :
  (created (fold_left count_config configs acc)
   + modified (fold_left count_config configs acc)
   + deleted (fold_left count_config configs acc)
   = created acc + modified acc + deleted acc + length configs)%nat.
Proof.
  revert acc. induction configs as [ | c configs IH ]; intros acc; cbn [fold_left length];
    [ lia | ].
  rewrite IH. unfold count_config.
  destruct (config_after c); [ destruct (config_before c) | ]; cbn; lia.
Qed.

(** The diffs [buildDiff] collects: one per file operation and one per
    config operation, in input order. *)
Lemma collect_diff_lengths (analysis : list (string * AnalysisResult))
    (operations : list OperationWithMetadata) :
  forall acc,
    (length (fst (fold_left (collect_diff analysis) operations acc))
     + length (snd (fold_left (collect_diff analysis) operations acc))
     = length (fst acc) + length (snd acc)
       + length (List.filter
                   (fun owm => match operation owm with
                               | OpFile _ | OpConfig _ => true
                               | _ => false
                               end) operations))%nat.
Proof.
  induction operations as [ | owm rest IH ]; intros acc; cbn [fold_left List.filter length];
    [ lia | ].
  rewrite IH. unfold collect_diff.
  destruct (operation owm); cbn [buildFileDiff buildConfigDiff fst snd length];
    rewrite ?length_app; cbn [length]; lia.
Qed.

(** X1. Without a registry, the three counts of the planner's diff
    summary add up to the number of file and config operations of the
    input, which is also the number of diffs listed: every such
    operation is counted exactly once, script and code operations are
    not counted at all. *)
Theorem diff_summary_counts_each_diff_once (operations : list OperationWithMetadata)
    (analysis : list (string * AnalysisResult)) :
  let d := buildDiff operations analysis in
  let listed :=
    length (List.filter (fun owm => match operation owm with
                                    | OpFile _ | OpConfig _ => true
                                    | _ => false
                                    end) operations) in
  (created (diff_summary d) + modified (diff_summary d) + deleted (diff_summary d)
   = listed)%nat /\
  (length (diff_files d) + length (diff_configs d) = listed)%nat.
Proof.
  cbv zeta. unfold buildDiff. cbn [diff_summary diff_files diff_configs].
  pose proof (collect_diff_lengths analysis operations ([], [])) as Hlen.
  cbn [fst snd length] in Hlen. split; [ | exact Hlen ].
  unfold summarise. rewrite count_config_total, count_file_total. cbn. lia.
Qed.

(** X2. The status the planner gives a file operation analysed by the
    file analyzer depends on the action and on the presence of the file
    only: [deleted] for a delete, [created] when the file is absent,
    [modified] when it is present, also when the analysis found the
    file in its desired state.  Without an analysis, every operation
    that is not a delete is listed as [modified]. *)
Theorem file_diff_status_follows_disk (h : Host) (cwd_ : path) (op : FileOperation)
    (s : State) :
  status <$> buildFileDiff (OpFile op) (Some (FileAnalyzer_analyze h cwd_ op s))
  = Some (match file_action op with
          | act_delete => status_deleted
          | _ => if bool_decide (is_Some (files s !! path_resolve cwd_ (file_path op)))
                 then status_modified else status_created
          end) /\
  status <$> buildFileDiff (OpFile op) None
  = Some (match file_action op with
          | act_delete => status_deleted
          | _ => status_modified
          end).
Proof.
  split; [ | unfold buildFileDiff; destruct (file_action op); cbn; reflexivity ].
  unfold FileAnalyzer_analyze.
  destruct (files s !! path_resolve cwd_ (file_path op)) as [ stat | ] eqn:Hstat.
  - rewrite bool_decide_eq_true_2 by eauto.
    unfold evaluateExistingFile, buildFileDiff.
    destruct (file_action op); try (cbn; reflexivity);
      destruct (content op) as [ c | ];
      repeat match goal with
        | |- context [ if ?b then _ else _ ] => destruct b
        | |- context [ match checksum op with _ => _ end ] => destruct (checksum op)
        | |- context [ match mode op with _ => _ end ] => destruct (mode op)
        end; cbn; reflexivity.
  - rewrite bool_decide_eq_false_2 by (intros [? ?]; discriminate).
    unfold handleMissingFile, buildFileDiff. destruct (file_action op); cbn; reflexivity.
Qed.

Lemma overall_is_list_max (fallback : OperationRiskLevel)
    (analysis : list (string * AnalysisResult))
    (operations : list OperationWithMetadata) :
  forall acc,
    RISK_WEIGHT
      (overall
         (fold_left
            (fun (acc : RiskAssessment) owm =>
               let risk := risk_of fallback analysis owm in
               {| overall := if (RISK_WEIGHT (overall acc) <? RISK_WEIGHT risk)%nat
                             then risk else overall acc;
                  byOperation := assoc_set (id (metadata owm)) risk (byOperation acc) |})
            operations acc))
    = Nat.max (RISK_WEIGHT (overall acc))
        (list_max (map (fun owm => RISK_WEIGHT (risk_of fallback analysis owm))
                       operations)).
Proof.
  induction operations as [ | owm rest IH ]; intros acc; cbn [fold_left map list_max].
  - cbn. lia.
  - rewrite IH. cbn [overall]. cbn zeta.
    destruct (Nat.ltb_spec (RISK_WEIGHT (overall acc))
                (RISK_WEIGHT (risk_of fallback analysis owm)));
      unfold list_max; cbn [fold_right]; lia.
Qed.

Lemma RISK_WEIGHT_inj (a b : OperationRiskLevel) : RISK_WEIGHT a = RISK_WEIGHT b -> a = b.
Proof. destruct a, b; cbn; congruence. Qed.

(** X3. The overall risk of the planner's assessment is the highest
    risk among the operations, where an operation without an analysis
    counts as [moderate]: no operation has a higher risk, and the
    overall risk is [safe] exactly when every operation has an analysis
    that says [safe]. *)
Theorem overall_risk_is_the_highest (operations : list OperationWithMetadata)
    (analysis : list (string * AnalysisResult)) :
  let r := buildRiskAssessment operations analysis in
  Forall (fun owm => RISK_WEIGHT (risk_of risk_moderate analysis owm)
                     <= RISK_WEIGHT (overall r))%nat operations /\
  (overall r = risk_safe <->
   Forall (fun owm => exists a, assoc (id (metadata owm)) analysis = Some a /\
                                risk a = risk_safe) operations).
Proof.
  cbv zeta. unfold buildRiskAssessment.
  pose proof (overall_is_list_max risk_moderate analysis operations
                {| overall := risk_safe; byOperation := [] |}) as Hmax.
  cbn [overall RISK_WEIGHT Nat.max] in Hmax.
  assert (Hbound : forall owm, In owm operations ->
    (RISK_WEIGHT (risk_of risk_moderate analysis owm)
     <= list_max (map (fun owm => RISK_WEIGHT (risk_of risk_moderate analysis owm))
                      operations))%nat).
  { pose proof (proj1 (list_max_le _ _) (Nat.le_refl
      (list_max (map (fun owm => RISK_WEIGHT (risk_of risk_moderate analysis owm))
                     operations)))) as Hle.
    rewrite List.Forall_forall in Hle. intros owm Hin. apply Hle.
    exact (in_map (fun owm => RISK_WEIGHT (risk_of risk_moderate analysis owm))
                  operations owm Hin). }
  rewrite <- Hmax in Hbound. split; [ | split ].
  - apply Forall_forall. intros owm Hin. apply Hbound, list_elem_of_In, Hin.
  - intros Hsafe. rewrite Hsafe in Hbound. apply Forall_forall. intros owm Hin.
    specialize (Hbound owm (proj1 (list_elem_of_In _ _) Hin)).
    unfold risk_of in Hbound.
    destruct (assoc (id (metadata owm)) analysis) as [ a | ].
    + exists a. split; [ reflexivity | ]. destruct (risk a); cbn in Hbound; [ reflexivity | lia | lia ].
    + cbn in Hbound. lia.
  - intros Hall. apply RISK_WEIGHT_inj. rewrite Hmax. cbn [RISK_WEIGHT].
    apply Nat.le_0_r. apply list_max_le. apply List.Forall_forall. intros w Hw.
    apply in_map_iff in Hw as (owm & <- & Hin).
    rewrite Forall_forall in Hall.
    destruct (Hall owm (proj2 (list_elem_of_In _ _) Hin)) as (a & Ha & Hsafe).
    unfold risk_of. rewrite Ha, Hsafe. cbn. lia.
Qed.

Lemma serial_risk_fold (analysis : list (string * AnalysisResult))
    (operations : list OperationWithMetadata) :
  forall acc,
    fold_left
      (fun (acc : RiskAssessment) op =>
         let risk := risk_of risk_safe analysis op in
         {| overall :=
              match risk with
              | risk_high => risk_high
              | risk_moderate =>
                  match overall acc with
                  | risk_safe => risk_moderate
                  | o => o
                  end
              | risk_safe => overall acc
              end;
            byOperation := assoc_set (id (metadata op)) risk (byOperation acc) |})
      operations acc
    = fold_left
        (fun (acc : RiskAssessment) owm =>
           let risk := risk_of risk_safe analysis owm in
           {| overall := if (RISK_WEIGHT (overall acc) <? RISK_WEIGHT risk)%nat
                         then risk else overall acc;
              byOperation := assoc_set (id (metadata owm)) risk (byOperation acc) |})
        operations acc.
Proof.
  induction operations as [ | op rest IH ]; intros acc; [ reflexivity | ].
  cbn [fold_left]. rewrite IH. f_equal. cbv zeta. f_equal.
  destruct (risk_of risk_safe analysis op), (overall acc); reflexivity.
Qed.

Lemma risk_fold_analysed (analysis : list (string * AnalysisResult))
    (operations : list OperationWithMetadata) :
  Forall (fun owm => has_key (id (metadata owm)) analysis = true) operations ->
  forall acc,
    fold_left
      (fun (acc : RiskAssessment) owm =>
         let risk := risk_of risk_safe analysis owm in
         {| overall := if (RISK_WEIGHT (overall acc) <? RISK_WEIGHT risk)%nat
                       then risk else overall acc;
            byOperation := assoc_set (id (metadata owm)) risk (byOperation acc) |})
      operations acc
    = fold_left
        (fun (acc : RiskAssessment) owm =>
           let risk := risk_of risk_moderate analysis owm in
           {| overall := if (RISK_WEIGHT (overall acc) <? RISK_WEIGHT risk)%nat
                         then risk else overall acc;
              byOperation := assoc_set (id (metadata owm)) risk (byOperation acc) |})
        operations acc.
Proof.
  induction 1 as [ | owm rest Hkey _ IH ]; intros acc; [ reflexivity | ].
  cbn [fold_left]. rewrite IH. f_equal. cbv zeta. unfold risk_of, has_key in *.
  destruct (assoc (id (metadata owm)) analysis); [ reflexivity | discriminate ].
Qed.

(** X4. The serial planner and the dependency planner assess risk alike
    whenever every operation has an analysis.  They part on operations
    without one, which the serial planner takes as [safe] and the
    dependency planner as [moderate]; the serial planner's overall risk
    is therefore never the higher one, and for a non-empty input
    without any analysis it is [safe] where the dependency planner
    says [moderate]. *)
Theorem serial_planner_risk_never_higher (operations : list OperationWithMetadata)
    (analysis : list (string * AnalysisResult)) :
  (RISK_WEIGHT (overall (SerialPlanner.buildRiskAssessment operations analysis))
   <= RISK_WEIGHT (overall (buildRiskAssessment operations analysis)))%nat /\
  (Forall (fun owm => has_key (id (metadata owm)) analysis = true) operations ->
   SerialPlanner.buildRiskAssessment operations analysis
   = buildRiskAssessment operations analysis) /\
  (analysis = [] -> operations <> [] ->
   overall (SerialPlanner.buildRiskAssessment operations analysis) = risk_safe /\
   overall (buildRiskAssessment operations analysis) = risk_moderate).
Proof.
  unfold SerialPlanner.buildRiskAssessment, buildRiskAssessment.
  rewrite serial_risk_fold.
  pose proof (overall_is_list_max risk_safe analysis operations
                {| overall := risk_safe; byOperation := [] |}) as Hserial.
  pose proof (overall_is_list_max risk_moderate analysis operations
                {| overall := risk_safe; byOperation := [] |}) as Hplanner.
  cbv zeta in *. cbn [overall RISK_WEIGHT Nat.max] in Hserial, Hplanner.
  split; [ | split ].
  - rewrite Hserial, Hplanner. apply list_max_le, List.Forall_forall.
    intros w Hw. apply in_map_iff in Hw as (owm & <- & Hin).
    transitivity (RISK_WEIGHT (risk_of risk_moderate analysis owm)).
    + unfold risk_of. destruct (assoc (id (metadata owm)) analysis); cbn; lia.
    + pose proof (proj1 (list_max_le _ _) (Nat.le_refl
        (list_max (map (fun owm => RISK_WEIGHT (risk_of risk_moderate analysis owm))
                       operations)))) as Hle.
      rewrite List.Forall_forall in Hle. apply Hle.
      exact (in_map (fun owm => RISK_WEIGHT (risk_of risk_moderate analysis owm))
                    operations owm Hin).
  - intros Hall. exact (risk_fold_analysed analysis operations Hall _).
  - intros -> Hne. split; apply RISK_WEIGHT_inj.
    + rewrite Hserial. cbn [RISK_WEIGHT]. apply Nat.le_0_r, list_max_le, List.Forall_forall.
      intros w Hw. apply in_map_iff in Hw as (owm & <- & _). cbn. lia.
    + rewrite Hplanner. cbn [RISK_WEIGHT].
      destruct operations as [ | owm rest ]; [ congruence | ].
      apply Nat.le_antisymm.
      * apply list_max_le, List.Forall_forall.
        intros w Hw. apply in_map_iff in Hw as (owm' & <- & _). cbn. lia.
      * cbn. lia.
Qed.

(** X5. The summary of the serial planner counts every operation as
    modified or deleted, never both, and counts an ensured file twice,
    as created and as modified: the counts [modified] and [deleted] add
    up to the number of operations, and [created] is at most
    [modified]. *)
Theorem serial_summary_counts (stringify : Observed -> string)
    (operations : list OperationWithMetadata)
    (analysis : list (string * AnalysisResult)) :
  let summary := diff_summary (SerialPlanner.buildDiff stringify operations analysis) in
  (modified summary + deleted summary = length operations)%nat /\
  (created summary <= modified summary)%nat.
Proof.
  cbv zeta. unfold SerialPlanner.buildDiff. cbn [diff_summary created modified deleted].
  induction operations as [ | op rest [ IHsum IHle ] ]; [ split; reflexivity | ].
  cbn [List.filter length]. unfold SerialPlanner.is_file_with in *.
  destruct (operation op) as [ fop | | | ]; [ destruct (file_action fop) | | | ];
    cbn [negb orb length]; split; lia.
Qed.

(** ** The planner's stages *)

Lemma assoc_idToOperation_id (operations : list OperationWithMetadata) (i : string)
    (op : OperationWithMetadata) :
  assoc i (idToOperation operations) = Some op ->
  In op operations /\ id (metadata op) = i.
Proof.
  unfold idToOperation.
  enough (Hgen : forall m,
    assoc i (fold_left (fun m op => assoc_set (id (metadata op)) op m) operations m)
      = Some op ->
    (In op operations /\ id (metadata op) = i) \/ assoc i m = Some op).
  { intros H. destruct (Hgen [] H) as [ ? | ? ]; [ assumption | discriminate ]. }
  induction operations as [ | x rest IH ]; intros m H; [ right; exact H | ].
  cbn [fold_left] in H. destruct (IH _ H) as [ [ Hin Hid ] | Hm ].
  - left. split; [ right; exact Hin | exact Hid ].
  - destruct (String.eqb_spec i (id (metadata x))) as [ -> | Hne ].
    + rewrite assoc_assoc_set in Hm. injection Hm as <-. left. split; [ left | ]; reflexivity.
    + rewrite assoc_assoc_set_ne in Hm by exact Hne. right. exact Hm.
Qed.

Section PlannerStages.

Variable known : list (string * OperationWithMetadata).
Variable edges : list (string * list string).
Hypothesis known_ids :
  forall i op, assoc i known = Some op -> id (metadata op) = i.

Lemma mark_exact (k : Kahn) (acc : list OperationWithMetadata) (i : string)
    (q : list string) (op : OperationWithMetadata) :
  queue k = i :: q ->
  existsb (String.eqb i) (processed k) = false ->
  assoc i known = Some op ->
  Kahn_exact known k acc ->
  Kahn_exact known
    (fold_left release (default [] (assoc i edges))
       {| kahn_indegree := kahn_indegree k; queue := q;
          processed := processed k ++ [i]; kahn_stages := kahn_stages k |})
    (acc ++ [op]).
Proof.
  intros _ Hseen Hop (Hnodup & Hids & Hknown & Hshape & Hnames).
  destruct (release_all
              {| kahn_indegree := kahn_indegree k; queue := q;
                 processed := processed k ++ [i]; kahn_stages := kahn_stages k |}
              (default [] (assoc i edges))) as [ Hp Hs ].
  unfold Kahn_exact. rewrite Hp, Hs. cbn [processed kahn_stages].
  pose proof (known_ids i op Hop) as Hid.
  split; [ | split; [ | split; [ | split ] ] ]; try assumption.
  - apply NoDup_app. split; [ exact Hnodup | ]. split; [ | apply NoDup_singleton ].
    intros x Hx Hx'. apply list_elem_of_In in Hx, Hx'. destruct Hx' as [ <- | [] ].
    apply existsb_eqb_In in Hx. congruence.
  - rewrite app_assoc, map_app, <- Hids. cbn. rewrite Hid. reflexivity.
  - rewrite app_assoc. apply Forall_app. split; [ exact Hknown | ].
    constructor; [ | constructor ]. rewrite Hid. exact Hop.
Qed.

Lemma level_exact (n : nat) :
  forall k acc,
    Kahn_exact known k acc ->
    Kahn_exact known (fst (level known edges n k acc)) (snd (level known edges n k acc)).
Proof.
  induction n as [ | n IH ]; intros k acc Hinv; [ exact Hinv | ].
  cbn [level]. destruct (queue k) as [ | i q ] eqn:Hq; [ exact Hinv | ].
  assert (Hskip : Kahn_exact known {| kahn_indegree := kahn_indegree k; queue := q;
                                       processed := processed k;
                                       kahn_stages := kahn_stages k |} acc) by exact Hinv.
  destruct (existsb (String.eqb i) (processed k)) eqn:Hseen; [ exact (IH _ acc Hskip) | ].
  destruct (assoc i known) as [ op | ] eqn:Hop; [ | exact (IH _ acc Hskip) ].
  apply IH. exact (mark_exact k acc i q op Hq Hseen Hop Hinv).
Qed.

Lemma push_stage_exact (k : Kahn) (ops : list OperationWithMetadata) :
  ops <> [] ->
  Kahn_exact known k ops ->
  Kahn_exact known (push_stage k ops (1 <? length ops)%nat) [].
Proof.
  intros Hne (Hnodup & Hids & Hknown & Hshape & Hnames).
  unfold Kahn_exact, push_stage, staged_operations in *. cbn [processed kahn_stages].
  rewrite (map_app stage_operations), concat_app. cbn [map concat stage_operations].
  rewrite !app_nil_r.
  split; [ exact Hnodup | ]. split; [ exact Hids | ]. split; [ exact Hknown | ].
  split.
  - apply Forall_app. split; [ exact Hshape | ].
    constructor; [ | constructor ]. cbn. split; [ exact Hne | reflexivity ].
  - rewrite map_app, length_app, Hnames. cbn [length map].
    cbn [stage_id].
    replace (length (kahn_stages k) + 1)%nat with (S (length (kahn_stages k))) by lia.
    rewrite seq_S, map_app. reflexivity.
Qed.

Lemma kahn_exact (fuel : nat) :
  forall k, Kahn_exact known k [] -> Kahn_exact known (kahn known edges fuel k) [].
Proof.
  induction fuel as [ | fuel IH ]; intros k Hinv.
  - cbn. destruct (queue k); exact Hinv.
  - cbn [kahn]. destruct (queue k) as [ | i q ] eqn:Hq; [ exact Hinv | ].
    rewrite <- Hq.
    pose proof (level_exact (length (queue k)) k [] Hinv) as Hinv1.
    destruct (level known edges (length (queue k)) k []) as [ k1 ops ].
    cbn [fst snd] in Hinv1. apply IH.
    destruct ops as [ | op ops ]; [ exact Hinv1 | ].
    cbn [Nat.ltb Nat.leb length]. apply (push_stage_exact k1 (op :: ops)); [ discriminate | ].
    exact Hinv1.
Qed.

Lemma sequential_rest_exact (operations : list OperationWithMetadata) :
  Forall (fun op => assoc (id (metadata op)) known = Some op) operations ->
  forall k, Kahn_exact known k [] -> Kahn_exact known (sequential_rest operations k) [].
Proof.
  unfold sequential_rest.
  induction 1 as [ | op rest Hop _ IH ]; intros k Hinv; [ exact Hinv | ].
  cbn [fold_left].
  destruct (existsb (String.eqb (id (metadata op))) (processed k)) eqn:Hseen;
    cbn [negb]; [ exact (IH k Hinv) | ].
  apply IH.
  pose proof (push_stage_exact
                {| kahn_indegree := kahn_indegree k; queue := queue k;
                   processed := processed k ++ [id (metadata op)];
                   kahn_stages := kahn_stages k |} [op]) as Hpush.
  cbn in Hpush. apply Hpush; [ discriminate | ]. clear Hpush.
  destruct Hinv as (Hnodup & Hids & Hknown & Hshape & Hnames).
  rewrite app_nil_r in Hids, Hknown.
  unfold Kahn_exact. cbn [processed kahn_stages].
  split; [ | split; [ | split; [ | split ] ] ]; try assumption.
  - apply NoDup_app. split; [ exact Hnodup | ]. split; [ | apply NoDup_singleton ].
    intros x Hx Hx'. apply list_elem_of_In in Hx, Hx'. destruct Hx' as [ <- | [] ].
    apply existsb_eqb_In in Hx. congruence.
  - rewrite map_app, <- Hids. reflexivity.
  - apply Forall_app. split; [ exact Hknown | ]. constructor; [ exact Hop | constructor ].
Qed.

End PlannerStages.

Lemma buildStages_exact (operations : list OperationWithMetadata)
    (warnings : list string) :
  NoDup (map (fun op => id (metadata op)) operations) ->
  exists k,
    Kahn_exact (idToOperation operations) k [] /\
    fst (buildStages operations warnings)
    = if (length (kahn_stages k) =? 0)%nat
      then [{| stage_id := "stage-1"; stage_operations := operations;
               parallel := (1 <? length operations)%nat |}]
      else kahn_stages k.
Proof.
  intros Hnodup. unfold buildStages.
  set (known := idToOperation operations).
  set (g := build_graph operations warnings).
  set (k0 := {| kahn_indegree := indegree g;
                queue := map fst (List.filter (fun kv => (snd kv =? 0)%Z) (indegree g));
                processed := []; kahn_stages := [] |}).
  assert (Hids : forall i op, assoc i known = Some op -> id (metadata op) = i)
    by (intros i op Hop; apply (assoc_idToOperation_id operations i op Hop)).
  assert (Hstart : Kahn_exact known k0 []).
  { unfold Kahn_exact, staged_operations. cbn. repeat split; constructor. }
  pose proof (kahn_exact known (graph g) Hids (S (length operations)) k0 Hstart) as Hk.
  destruct (negb (length (processed (kahn known (graph g) (S (length operations)) k0))
                  =? length operations)%nat).
  - eexists. split; [ | reflexivity ].
    apply (sequential_rest_exact known); [ | exact Hk ].
    apply Forall_forall. intros op Hin.
    apply assoc_idToOperation; [ exact Hnodup | apply list_elem_of_In; exact Hin ].
  - eexists. split; [ exact Hk | reflexivity ].
Qed.

(** X6. With distinct ids, the stages of the plan hold every operation
    of the input exactly once: read in order, the operations of the
    stages are a rearrangement of the input. *)
Theorem plan_runs_each_operation_once (operations : list OperationWithMetadata) :
  NoDup (map (fun op => id (metadata op)) operations) ->
  Permutation (plan_operations (plan operations)) operations.
Proof.
  intros Hnodup.
  assert (Hplan : plan_operations (plan operations)
                  = staged_operations (fst (buildStages operations []))).
  { unfold plan_operations, plan, staged_operations.
    destruct (buildStages operations []) as [ sts ws ]. reflexivity. }
  rewrite Hplan.
  destruct (buildStages_exact operations [] Hnodup)
    as (k & (Hnd & Hids & Hknown & _ & _) & Hstages).
  rewrite app_nil_r in Hids, Hknown.
  assert (Hall : forall owm, In owm operations ->
            In owm (staged_operations (fst (buildStages operations [])))).
  { intros owm Hin.
    destruct (buildStages_complete operations [] owm Hnodup Hin) as (st & Hst & Hop).
    unfold staged_operations. apply in_concat. exists (stage_operations st).
    split; [ exact (in_map stage_operations _ st Hst) | exact Hop ]. }
  rewrite Hstages in *.
  destruct (kahn_stages k) as [ | st sts ] eqn:Hk; cbn [length Nat.eqb] in *.
  - unfold staged_operations. cbn. rewrite app_nil_r. reflexivity.
  - apply NoDup_Permutation.
    + apply NoDup_ListNoDup, (List.NoDup_map_inv (fun op => id (metadata op))).
      rewrite <- Hids. apply NoDup_ListNoDup. exact Hnd.
    + apply NoDup_ListNoDup, (List.NoDup_map_inv (fun op => id (metadata op))).
      apply NoDup_ListNoDup. exact Hnodup.
    + intros owm. split; intros Hin.
      * rewrite Forall_forall in Hknown. apply Hknown in Hin.
        apply list_elem_of_In. exact (proj1 (assoc_idToOperation_id _ _ _ Hin)).
      * apply list_elem_of_In, Hall, list_elem_of_In, Hin.
Qed.

Lemma plan_runs_each_operation_once_witness :
  let base := {| operation := OpFile (file_op act_ensure ".kb/base.yaml" (Some "base"));
                 metadata := meta "file-1" |} in
  let extended :=
    {| operation := OpFile (file_op act_ensure ".kb/extended.yaml" (Some "extended"));
       metadata := {| id := "file-2"; description := "file-2";
                      dependencies := Some ["file-1"]; rawContentBase64 := None |} |} in
  Permutation (plan_operations (plan [extended; base])) [extended; base].
Proof.
  intros base extended.
  apply (plan_runs_each_operation_once [extended; base]).
  apply (bool_decide_unpack _). vm_compute. exact I.
Defined.

(** X7. With distinct ids and at least one operation, the stages of the
    plan are named [stage-1], [stage-2], ... in order, none of them is
    empty, and a stage is marked parallel exactly when it holds more
    than one operation. *)
Theorem stages_are_numbered_and_filled (operations : list OperationWithMetadata) :
  NoDup (map (fun op => id (metadata op)) operations) ->
  operations <> [] ->
  map stage_id (stages (plan operations))
  = map stage_name (seq 1 (length (stages (plan operations)))) /\
  stages (plan operations) <> [] /\
  Forall (fun st => stage_operations st <> [] /\
                    parallel st = (1 <? length (stage_operations st))%nat)
         (stages (plan operations)).
Proof.
  intros Hnodup Hne.
  assert (Hplan : stages (plan operations) = fst (buildStages operations [])).
  { unfold plan. destruct (buildStages operations []) as [ sts ws ]. reflexivity. }
  rewrite Hplan.
  destruct (buildStages_exact operations [] Hnodup)
    as (k & (_ & _ & _ & Hshape & Hnames) & Hstages).
  destruct operations as [ | owm rest ]; [ congruence | ].
  destruct (buildStages_complete (owm :: rest) [] owm Hnodup (or_introl eq_refl))
    as (st & Hst & Hop).
  rewrite Hstages in *.
  destruct (kahn_stages k) as [ | st0 sts ] eqn:Hk; cbn [length Nat.eqb] in *.
  - destruct Hst as [ <- | [] ]. cbn. split; [ reflexivity | ]. split; [ discriminate | ].
    constructor; [ | constructor ]. cbn. split; [ discriminate | reflexivity ].
  - split; [ exact Hnames | ]. split; [ discriminate | exact Hshape ].
Qed.

Lemma stages_are_numbered_and_filled_witness :
  let base := {| operation := OpFile (file_op act_ensure ".kb/base.yaml" (Some "base"));
                 metadata := meta "file-1" |} in
  let extended :=
    {| operation := OpFile (file_op act_ensure ".kb/extended.yaml" (Some "extended"));
       metadata := {| id := "file-2"; description := "file-2";
                      dependencies := Some ["file-1"]; rawContentBase64 := None |} |} in
  map stage_id (stages (plan [extended; base])) = ["stage-1"; "stage-2"].
Proof.
  intros base extended.
  assert (Hnodup : NoDup (map (fun op => id (metadata op)) [extended; base]))
    by (apply (bool_decide_unpack _); vm_compute; exact I).
  assert (Hne : [extended; base] <> []) by discriminate.
  destruct (stages_are_numbered_and_filled [extended; base] Hnodup Hne) as (Hnames & _).
  rewrite Hnames. vm_compute. reflexivity.
Defined.

Lemma assoc_None_keys {A} (k : string) (m : list (string * A)) :
  ~ In k (map fst m) -> assoc k m = None.
Proof.
  induction m as [ | [k0 v0] m IH ]; intros Hk; [ reflexivity | ].
  cbn in *. destruct (String.eqb_spec k k0) as [ -> | _ ]; [ tauto | ].
  apply IH. tauto.
Qed.

Lemma assoc_set_fresh {A} (k : string) (v : A) (m : list (string * A)) :
  ~ In k (map fst m) -> assoc_set k v m = m ++ [(k, v)].
Proof.
  induction m as [ | [k0 v0] m IH ]; intros Hk; [ reflexivity | ].
  cbn in *. destruct (String.eqb_spec k k0) as [ -> | _ ]; [ tauto | ].
  rewrite IH by tauto. reflexivity.
Qed.

(** Filling a [Map] with distinct keys lists them in insertion order. *)
Lemma fold_assoc_set_distinct {A} (f : OperationWithMetadata -> A)
    (operations : list OperationWithMetadata) :
  forall m,
    List.NoDup (map fst m ++ map (fun op => id (metadata op)) operations) ->
    fold_left (fun m op => assoc_set (id (metadata op)) (f op) m) operations m
    = m ++ map (fun op => (id (metadata op), f op)) operations.
Proof.
  induction operations as [ | op rest IH ]; intros m Hnodup; cbn [fold_left map].
  - rewrite app_nil_r. reflexivity.
  - cbn [map] in Hnodup.
    assert (Hfresh : ~ In (id (metadata op)) (map fst m)).
    { intros Hin. apply List.NoDup_remove_2 in Hnodup. apply Hnodup.
      apply in_or_app. left. exact Hin. }
    rewrite assoc_set_fresh by exact Hfresh. rewrite IH.
    + rewrite <- app_assoc. reflexivity.
    + rewrite map_app. cbn [map fst]. rewrite <- app_assoc. cbn [app].
      apply List.NoDup_remove_1 in Hnodup as Hrest.
      apply List.NoDup_remove_2 in Hnodup as Hop.
      apply NoDup_ListNoDup. apply NoDup_ListNoDup in Hrest.
      apply NoDup_app in Hrest as (Hm & Hdisj & Hr).
      apply NoDup_app. split; [ exact Hm | ]. split.
      * intros x Hx Hx'. apply elem_of_cons in Hx' as [ -> | Hx' ].
        -- apply Hfresh, list_elem_of_In, Hx.
        -- exact (Hdisj x Hx Hx').
      * apply NoDup_cons. split; [ | exact Hr ].
        intros Hin. apply Hop. apply in_or_app. right. apply list_elem_of_In. exact Hin.
Qed.

(** A level over a queue of fresh ids of known operations, in a graph
    without edges, stages these operations in order. *)
Lemma level_without_edges (known : list (string * OperationWithMetadata))
    (l : list OperationWithMetadata) :
  Forall (fun op => assoc (id (metadata op)) known = Some op) l ->
  forall k acc,
    queue k = map (fun op => id (metadata op)) l ->
    List.NoDup (processed k ++ map (fun op => id (metadata op)) l) ->
    level known [] (length l) k acc
    = ({| kahn_indegree := kahn_indegree k; queue := [];
          processed := processed k ++ map (fun op => id (metadata op)) l;
          kahn_stages := kahn_stages k |}, acc ++ l).
Proof.
  induction 1 as [ | op rest Hop _ IH ]; intros k acc Hq Hnodup; cbn [length level map].
  - cbn [map] in Hq. rewrite !app_nil_r. destruct k; cbn in *; subst. reflexivity.
  - cbn [map] in Hq, Hnodup. rewrite Hq.
    assert (Hfresh : existsb (String.eqb (id (metadata op))) (processed k) = false).
    { apply not_true_is_false. intros Hseen. apply existsb_eqb_In in Hseen.
      apply List.NoDup_remove_2 in Hnodup. apply Hnodup. apply in_or_app. left. exact Hseen. }
    rewrite Hfresh, Hop. cbn [assoc default fold_left].
    rewrite IH; cbn [queue processed kahn_indegree kahn_stages].
    + rewrite <- !app_assoc. reflexivity.
    + reflexivity.
    + rewrite <- app_assoc. exact Hnodup.
Qed.

Lemma kahn_without_edges (known : list (string * OperationWithMetadata))
    (op : OperationWithMetadata) (rest : list OperationWithMetadata) (fuel : nat)
    (k : Kahn) :
  Forall (fun op => assoc (id (metadata op)) known = Some op) (op :: rest) ->
  queue k = map (fun op => id (metadata op)) (op :: rest) ->
  List.NoDup (processed k ++ map (fun op => id (metadata op)) (op :: rest)) ->
  kahn known [] (S fuel) k
  = push_stage {| kahn_indegree := kahn_indegree k; queue := [];
                  processed := processed k ++ map (fun op => id (metadata op)) (op :: rest);
                  kahn_stages := kahn_stages k |}
               (op :: rest) (1 <? length (op :: rest))%nat.
Proof.
  intros Hknown Hq Hnodup. cbn [kahn].
  replace (length (queue k)) with (length (op :: rest)) by (rewrite Hq, length_map; reflexivity).
  rewrite (level_without_edges known (op :: rest) Hknown k [] Hq Hnodup).
  rewrite Hq. cbn [map app length Nat.ltb Nat.leb].
  destruct fuel; reflexivity.
Qed.

(** X8. Operations with distinct ids none of which declares a
    dependency are planned as the single stage [stage-1], holding them
    in input order and marked parallel when there is more than one;
    the plan carries no warning. *)
Theorem independent_operations_share_one_stage
    (operations : list OperationWithMetadata) :
  NoDup (map (fun op => id (metadata op)) operations) ->
  Forall (fun op => default [] (dependencies (metadata op)) = []) operations ->
  plan operations
  = {| stages := [{| stage_id := "stage-1"; stage_operations := operations;
                     parallel := (1 <? length operations)%nat |}];
       warnings := None |}.
Proof.
  intros Hnodup Hfree. apply NoDup_ListNoDup in Hnodup as Hnodup'.
  assert (Hgraph : build_graph operations []
                   = {| indegree := map (fun op => (id (metadata op), 0%Z)) operations;
                        graph := []; graph_warnings := [] |}).
  { unfold build_graph.
    rewrite (fold_assoc_set_distinct (fun _ => 0%Z) operations []) by exact Hnodup'.
    cbn [app]. generalize (map (fun op => (id (metadata op), 0%Z)) operations).
    generalize (idToOperation operations). intros known zeroed.
    enough (Hgen : forall g,
      fold_left
        (fun g op => fold_left (add_dependency known (id (metadata op)))
                               (default [] (dependencies (metadata op))) g)
        operations g = g) by apply Hgen.
    clear Hnodup Hnodup'. induction Hfree as [ | op rest Hop _ IH ]; intros g;
      [ reflexivity | ].
    cbn [fold_left]. rewrite Hop. cbn [fold_left]. apply IH. }
  assert (Hknown : Forall (fun op => assoc (id (metadata op)) (idToOperation operations)
                                     = Some op) operations).
  { apply Forall_forall. intros op Hin.
    apply assoc_idToOperation; [ exact Hnodup | apply list_elem_of_In; exact Hin ]. }
  unfold plan, buildStages. rewrite Hgraph. cbn [indegree graph graph_warnings].
  assert (Hqueue : map fst (List.filter (fun kv : string * Z => (snd kv =? 0)%Z)
                              (map (fun op => (id (metadata op), 0%Z)) operations))
                   = map (fun op => id (metadata op)) operations).
  { clear. induction operations as [ | op rest IH ]; [ reflexivity | ].
    cbn. rewrite IH. reflexivity. }
  rewrite Hqueue.
  destruct operations as [ | op rest ]; [ reflexivity | ].
  match goal with
  | |- context [ kahn ?kn [] (S ?f) ?k ] =>
      rewrite (kahn_without_edges kn op rest f k Hknown eq_refl Hnodup')
  end.
  cbn [push_stage processed kahn_stages app length].
  rewrite length_map, Nat.eqb_refl. cbn [negb length Nat.eqb Nat.add]. reflexivity.
Qed.

Lemma independent_operations_share_one_stage_witness :
  let first := {| operation := OpFile (file_op act_ensure "a.txt" (Some "a"));
                  metadata := meta "file-1" |} in
  let second := {| operation := OpFile (file_op act_ensure "b.txt" (Some "b"));
                   metadata := meta "file-2" |} in
  plan [first; second]
  = {| stages := [{| stage_id := "stage-1"; stage_operations := [first; second];
                     parallel := true |}];
       warnings := None |}.
Proof.
  intros first second.
  assert (Hnodup : NoDup (map (fun op => id (metadata op)) [first; second]))
    by (apply (bool_decide_unpack _); vm_compute; exact I).
  assert (Hfree : Forall (fun op => default [] (dependencies (metadata op)) = [])
                         [first; second])
    by (repeat constructor).
  exact (independent_operations_share_one_stage [first; second] Hnodup Hfree).
Defined.

(** ** The planner: dependencies come first *)

Lemma assoc_In {A} (k : string) (v : A) (m : list (string * A)) :
  assoc k m = Some v -> In (k, v) m.
Proof.
  induction m as [ | [k0 v0] m IH ]; cbn; [ discriminate | ].
  destruct (String.eqb_spec k k0) as [ -> | _ ].
  - intros [= ->]. left. reflexivity.
  - intros H. right. exact (IH H).
Qed.

Lemma existsb_eqb_app (x : string) (l l' : list string) :
  existsb (String.eqb x) (l ++ l') = existsb (String.eqb x) l || existsb (String.eqb x) l'.
Proof. apply existsb_app. Qed.

Lemma unreleased_zero (edges : list (string * list string)) (done : list string)
    (a d : string) :
  unreleased edges done a = 0%nat -> depends_on edges d a -> In d done.
Proof.
  unfold unreleased, depends_on. intros Hzero Hdep.
  destruct (assoc d edges) as [ ns | ] eqn:Hd; [ | destruct Hdep ].
  cbn in Hdep. apply assoc_In in Hd.
  apply length_zero_iff_nil in Hzero.
  destruct (existsb (String.eqb d) done) eqn:Hdone; [ apply existsb_eqb_In; exact Hdone | ].
  exfalso.
  assert (Hin : In (d, ns)
                  (List.filter
                     (fun kv => existsb (String.eqb a) (snd kv)
                                && negb (existsb (String.eqb (fst kv)) done)) edges)).
  { apply filter_In. split; [ exact Hd | ]. cbn [fst snd]. rewrite Hdone.
    rewrite (proj2 (existsb_eqb_In a ns) Hdep). reflexivity. }
  rewrite Hzero in Hin. destruct Hin.
Qed.

Lemma unreleased_mark (edges : list (string * list string)) (done : list string)
    (i a : string) :
  existsb (String.eqb i) done = false ->
  (unreleased edges (done ++ [i]) a
   + (if existsb (String.eqb a) (default [] (assoc i edges)) then 1 else 0)
   <= unreleased edges done a)%nat.
Proof.
  intros Hfresh. unfold unreleased.
  induction edges as [ | [k v] edges IH ]; [ cbn; lia | ].
  cbn [List.filter assoc fst snd].
  rewrite existsb_eqb_app. cbn [existsb]. rewrite orb_false_r.
  destruct (String.eqb_spec i k) as [ <- | Hne ].
  - rewrite Hfresh, String.eqb_refl. cbn [orb negb default].
    rewrite andb_false_r, andb_true_r.
    assert (Hmono : (length (List.filter
                               (fun kv => existsb (String.eqb a) (snd kv)
                                          && negb (existsb (String.eqb (fst kv)) (done ++ [i])))
                               edges)
                     <= length (List.filter
                                  (fun kv => existsb (String.eqb a) (snd kv)
                                             && negb (existsb (String.eqb (fst kv)) done))
                                  edges))%nat).
    { clear. induction edges as [ | [k v] edges IH ]; [ cbn; lia | ].
      cbn [List.filter fst snd]. rewrite existsb_eqb_app.
      destruct (existsb (String.eqb a) v); cbn [andb]; [ | exact IH ].
      destruct (existsb (String.eqb k) done); cbn [orb negb length]; [ exact IH | ].
      destruct (existsb (String.eqb k) [i]); cbn [negb length]; lia. }
    change (Datatypes.id v) with v.
    destruct (existsb (String.eqb a) v); cbn [length]; lia.
  - assert (Hki : String.eqb k i = false).
    { apply String.eqb_neq. congruence. }
    rewrite Hki, orb_false_r.
    destruct (existsb (String.eqb a) v && negb (existsb (String.eqb k) done));
      cbn [length]; lia.
Qed.

Lemma stages_ordered_snoc (edges : list (string * list string))
    (sts : list (list OperationWithMetadata)) (st : list OperationWithMetadata) :
  forall seen,
    stages_ordered edges seen (sts ++ [st]) <->
    stages_ordered edges seen sts /\
    (forall op, In op st ->
       forall d, depends_on edges d (id (metadata op)) ->
         In d (seen ++ map (fun op => id (metadata op)) (concat sts))).
Proof.
  induction sts as [ | s sts IH ]; intros seen; cbn [app stages_ordered concat map].
  - rewrite app_nil_r. tauto.
  - rewrite IH, map_app, app_assoc. tauto.
Qed.

Lemma stages_ordered_lookup (edges : list (string * list string))
    (sts : list (list OperationWithMetadata)) :
  forall seen j st op d,
    stages_ordered edges seen sts ->
    sts !! j = Some st -> In op st -> depends_on edges d (id (metadata op)) ->
    In d (seen ++ map (fun op => id (metadata op)) (concat (take j sts))).
Proof.
  induction sts as [ | s sts IH ]; intros seen j st op d Hord Hj Hop Hdep;
    [ discriminate | ].
  destruct Hord as [ Hhead Hrest ]. destruct j as [ | j ].
  - injection Hj as <-. cbn. rewrite app_nil_r. exact (Hhead op Hop d Hdep).
  - cbn [take concat]. rewrite map_app, app_assoc.
    exact (IH _ j st op d Hrest Hj Hop Hdep).
Qed.

Section KahnOrder.

Variable known : list (string * OperationWithMetadata).
Variable edges : list (string * list string).
Hypothesis known_ids :
  forall i op, assoc i known = Some op -> id (metadata op) = i.
Hypothesis edges_nodup :
  forall d ns, assoc d edges = Some ns -> List.NoDup ns.

Lemma release_slack (done : list string) :
  forall ns k,
    List.NoDup ns ->
    (forall a, (Z.of_nat (unreleased edges done a)
                + (if existsb (String.eqb a) ns then 1 else 0)
                <= default 0 (assoc a (kahn_indegree k)))%Z) ->
    (forall a, (Z.of_nat (unreleased edges done a)
                <= default 0 (assoc a (kahn_indegree (fold_left release ns k))))%Z) /\
    exists pushed,
      queue (fold_left release ns k) = queue k ++ pushed /\
      forall a, In a pushed -> unreleased edges done a = 0%nat.
Proof.
  induction ns as [ | a0 ns IH ]; intros k Hnodup Hslack; cbn [fold_left].
  - split.
    + intros a. specialize (Hslack a). cbn in Hslack. lia.
    + exists []. rewrite app_nil_r. split; [ reflexivity | intros a [] ].
  - apply List.NoDup_cons_iff in Hnodup as [ Hfresh Hnodup ].
    destruct (IH (release k a0) Hnodup) as (Hafter & pushed & Hqueue & Hpushed).
    { intros a. specialize (Hslack a). cbn [existsb] in Hslack.
      unfold release. cbn [kahn_indegree].
      destruct (String.eqb_spec a a0) as [ Heq | Hne ].
      - subst a. rewrite assoc_assoc_set. cbn [orb] in Hslack.
        rewrite (not_true_is_false _ (fun H => Hfresh (proj1 (existsb_eqb_In a0 ns) H))).
        set (u := unreleased edges done a0) in *.
        set (n0 := default 0%Z (assoc a0 (kahn_indegree k))) in *.
        cbn. lia.
      - rewrite assoc_assoc_set_ne by exact Hne. cbn [orb] in Hslack. exact Hslack. }
    split; [ exact Hafter | ].
    rewrite Hqueue. unfold release at 1. cbn [queue].
    destruct (Z.eqb_spec (default 0%Z (assoc a0 (kahn_indegree k)) - 1) 0) as [ Hzero | _ ].
    + exists (a0 :: pushed). rewrite <- app_assoc. split; [ reflexivity | ].
      intros a [ <- | Hin ]; [ | exact (Hpushed a Hin) ].
      specialize (Hslack a0). cbn [existsb] in Hslack. rewrite String.eqb_refl in Hslack.
      cbn [orb] in Hslack. lia.
    + exists pushed. split; [ reflexivity | exact Hpushed ].
Qed.
Lemma level_order (n : nat) :
  forall k acc,
    (n <= length (queue k))%nat ->
    Kahn_exact known k acc ->
    Kahn_order edges k acc n ->
    Kahn_order edges (fst (level known edges n k acc)) (snd (level known edges n k acc)) 0.
Proof.
  induction n as [ | n IH ]; intros k acc Hlen Hexact Horder; [ exact Horder | ].
  cbn [level]. destruct (queue k) as [ | i q ] eqn:Hq; [ cbn in Hlen; lia | ].
  cbn [length] in Hlen.
  assert (Hskip : Kahn_order edges {| kahn_indegree := kahn_indegree k; queue := q;
                                       processed := processed k;
                                       kahn_stages := kahn_stages k |} acc n).
  { destruct Horder as (Hslack & Hord & Hacc & Hnow & Hnext).
    unfold Kahn_order. cbn [kahn_indegree queue processed kahn_stages].
    rewrite Hq in Hnow, Hnext.
    repeat split; try assumption.
    - intros a Ha. apply Hnow. cbn [take]. right. exact Ha.
    - intros a Ha. apply Hnext. right. exact Ha. }
  assert (Hskip_exact : Kahn_exact known {| kahn_indegree := kahn_indegree k; queue := q;
                                             processed := processed k;
                                             kahn_stages := kahn_stages k |} acc)
    by exact Hexact.
  destruct (existsb (String.eqb i) (processed k)) eqn:Hseen;
    [ apply IH; [ cbn; lia | exact Hskip_exact | exact Hskip ] | ].
  destruct (assoc i known) as [ op | ] eqn:Hop;
    [ | apply IH; [ cbn; lia | exact Hskip_exact | exact Hskip ] ].
  clear Hskip Hskip_exact.
  pose proof (mark_exact known edges known_ids k acc i q op Hq Hseen Hop Hexact) as Hexact'.
  destruct Horder as (Hslack & Hord & Hacc & Hnow & Hnext).
  rewrite Hq in Hnow, Hnext.
  assert (Hns : List.NoDup (default [] (assoc i edges))).
  { destruct (assoc i edges) as [ ns | ] eqn:Hi; [ exact (edges_nodup i ns Hi) | constructor ]. }
  destruct (release_slack (processed k ++ [i]) (default [] (assoc i edges))
              {| kahn_indegree := kahn_indegree k; queue := q;
                 processed := processed k ++ [i]; kahn_stages := kahn_stages k |} Hns)
    as (Hslack' & pushed & Hqueue & Hpushed).
  { intros a. cbn [kahn_indegree]. specialize (Hslack a).
    pose proof (unreleased_mark edges (processed k) i a Hseen) as Hmark.
    destruct (existsb (String.eqb a) (default [] (assoc i edges))); lia. }
  destruct (release_all
              {| kahn_indegree := kahn_indegree k; queue := q;
                 processed := processed k ++ [i]; kahn_stages := kahn_stages k |}
              (default [] (assoc i edges))) as [ Hp Hs ].
  cbn [queue processed kahn_stages] in Hqueue, Hp, Hs.
  apply IH; [ rewrite Hqueue, length_app; lia | exact Hexact' | ].
  unfold Kahn_order. rewrite Hp, Hs, Hqueue.
  split; [ exact Hslack' | ]. split; [ exact Hord | ].
  split; [ | split ].
  - intros op' Hin d Hd. apply in_app_or in Hin as [ Hin | [ <- | [] ] ].
    + exact (Hacc op' Hin d Hd).
    + rewrite (known_ids i op Hop) in Hd. apply (Hnow i); [ left; reflexivity | exact Hd ].
  - intros a Ha d Hd. rewrite take_app_le in Ha by lia.
    apply (Hnow a); [ right; exact Ha | exact Hd ].
  - intros a Ha d Hd. apply in_app_or in Ha as [ Ha | Ha ].
    + apply in_or_app. left. apply (Hnext a); [ right; exact Ha | exact Hd ].
    + exact (unreleased_zero edges _ a d (Hpushed a Ha) Hd).
Qed.

Lemma kahn_order (fuel : nat) :
  forall k,
    Kahn_exact known k [] ->
    Kahn_order edges k [] (length (queue k)) ->
    stages_ordered edges [] (map stage_operations (kahn_stages (kahn known edges fuel k))).
Proof.
  induction fuel as [ | fuel IH ]; intros k Hexact Horder.
  - cbn. destruct (queue k); exact (proj1 (proj2 Horder)).
  - cbn [kahn]. destruct (queue k) as [ | i q ] eqn:Hq; [ exact (proj1 (proj2 Horder)) | ].
    rewrite <- Hq in *.
    pose proof (level_exact known edges known_ids (length (queue k)) k [] Hexact) as Hexact1.
    pose proof (level_order (length (queue k)) k [] (Nat.le_refl _) Hexact Horder)
      as Horder1.
    destruct (level known edges (length (queue k)) k []) as [ k1 ops ].
    cbn [fst snd] in Hexact1, Horder1.
    destruct Horder1 as (Hslack & Hord & Hacc & _ & Hnext).
    destruct ops as [ | op ops ].
    + cbn [length Nat.ltb Nat.leb]. apply IH; [ exact Hexact1 | ].
      unfold Kahn_order. repeat split; try assumption; try (intros ? []).
      intros a Ha d Hd. rewrite firstn_all in Ha.
      destruct Hexact1 as (_ & Hids & _). rewrite app_nil_r in Hids. rewrite <- Hids.
      exact (Hnext a Ha d Hd).
    + assert (Hpos : (0 <? length (op :: ops))%nat = true) by reflexivity.
      rewrite Hpos. clear Hpos.
      pose proof (push_stage_exact known k1 (op :: ops) ltac:(discriminate) Hexact1)
        as Hexact2.
      apply IH; [ exact Hexact2 | ].
      destruct Hexact2 as (_ & Hids2 & _). rewrite app_nil_r in Hids2.
      unfold Kahn_order. cbv zeta. rewrite <- Hids2.
      cbn [push_stage kahn_indegree queue processed kahn_stages] in *.
      split; [ exact Hslack | ]. split; [ | split; [ intros ? [] | split ] ].
      * rewrite map_app. apply stages_ordered_snoc. split; [ exact Hord | ].
        intros op' Hin d Hd. cbn [app]. exact (Hacc op' Hin d Hd).
      * intros a Ha d Hd. rewrite firstn_all in Ha. exact (Hnext a Ha d Hd).
      * exact Hnext.
Qed.

End KahnOrder.

Lemma existsb_set_add (a x : string) (l : list string) :
  existsb (String.eqb a) (set_add x l) = existsb (String.eqb a) l || String.eqb a x.
Proof.
  unfold set_add. destruct (existsb (String.eqb x) l) eqn:Hx.
  - destruct (String.eqb_spec a x) as [ -> | _ ]; [ rewrite Hx | rewrite orb_false_r ];
      reflexivity.
  - rewrite existsb_app. cbn. rewrite orb_false_r. reflexivity.
Qed.

Lemma set_add_NoDup (x : string) (l : list string) :
  List.NoDup l -> List.NoDup (set_add x l).
Proof.
  intros Hl. unfold set_add. destruct (existsb (String.eqb x) l) eqn:Hx; [ exact Hl | ].
  apply NoDup_ListNoDup, NoDup_app. split; [ apply NoDup_ListNoDup; exact Hl | ].
  split; [ | apply NoDup_singleton ].
  intros y Hy Hy'. apply list_elem_of_In in Hy, Hy'. destruct Hy' as [ <- | [] ].
  apply existsb_eqb_In in Hy. congruence.
Qed.

Lemma unreleased_assoc_set (m : list (string * list string)) (dep opId a : string) :
  (unreleased (assoc_set dep (set_add opId (default [] (assoc dep m))) m) [] a
   <= unreleased m [] a + (if String.eqb a opId then 1 else 0))%nat.
Proof.
  unfold unreleased. cbn [existsb negb].
  induction m as [ | [k v] m IH ]; cbn [assoc assoc_set default].
  - cbn. destruct (String.eqb a opId); cbn; lia.
  - destruct (String.eqb dep k); cbn [List.filter fst snd default].
    + change (Datatypes.id v) with v. rewrite existsb_set_add, !andb_true_r.
      destruct (existsb (String.eqb a) v), (String.eqb a opId); cbn [orb length]; lia.
    + rewrite !andb_true_r in *.
      destruct (existsb (String.eqb a) v); cbn [length]; lia.
Qed.

Lemma assoc_set_keys {A} (k : string) (v : A) (m : list (string * A)) :
  List.NoDup (map fst m) -> List.NoDup (map fst (assoc_set k v m)).
Proof.
  intros Hm. destruct (in_dec string_dec k (map fst m)) as [ Hin | Hout ].
  - replace (map fst (assoc_set k v m)) with (map fst m); [ exact Hm | ].
    clear Hm. induction m as [ | [k0 v0] m IH ]; [ destruct Hin | ].
    cbn. destruct (String.eqb_spec k k0) as [ -> | Hne ]; [ reflexivity | ].
    cbn. f_equal. apply IH. destruct Hin as [ Heq | Hin ]; [ cbn in Heq; congruence | exact Hin ].
  - rewrite assoc_set_fresh by exact Hout. rewrite map_app. cbn.
    apply NoDup_ListNoDup, NoDup_app. split; [ apply NoDup_ListNoDup; exact Hm | ].
    split; [ | apply NoDup_singleton ].
    intros y Hy Hy'. apply list_elem_of_In in Hy, Hy'. destruct Hy' as [ <- | [] ].
    contradiction.
Qed.

Lemma In_assoc {A} (k : string) (v : A) (m : list (string * A)) :
  List.NoDup (map fst m) -> In (k, v) m -> assoc k m = Some v.
Proof.
  induction m as [ | [k0 v0] m IH ]; intros Hnodup Hin; [ destruct Hin | ].
  cbn in *. apply List.NoDup_cons_iff in Hnodup as [ Hfresh Hnodup ].
  destruct Hin as [ [= -> ->] | Hin ].
  - rewrite String.eqb_refl. reflexivity.
  - destruct (String.eqb_spec k k0) as [ -> | _ ]; [ | exact (IH Hnodup Hin) ].
    exfalso. apply Hfresh. exact (in_map fst m (k0, v) Hin).
Qed.

Lemma add_dependency_ok (known : list (string * OperationWithMetadata))
    (opId : string) (g : Graph) (dep : string) :
  Graph_ok g -> Graph_ok (add_dependency known opId g dep).
Proof.
  intros (Hslack & Hnodup & Hkeys). unfold add_dependency.
  destruct (has_key dep known); cbn [negb]; [ | exact (conj Hslack (conj Hnodup Hkeys)) ].
  unfold Graph_ok. cbn [indegree graph]. split; [ | split ].
  - intros a. specialize (Hslack a).
    pose proof (unreleased_assoc_set (graph g) dep opId a) as Hcount.
    destruct (String.eqb_spec a opId) as [ -> | Hne ].
    + rewrite assoc_assoc_set. cbn [default]. change (Datatypes.id ?x) with x. lia.
    + rewrite assoc_assoc_set_ne by exact Hne. lia.
  - intros d ns Hd. destruct (String.eqb_spec d dep) as [ -> | Hne ].
    + rewrite assoc_assoc_set in Hd. injection Hd as <-. apply set_add_NoDup.
      destruct (assoc dep (graph g)) as [ old | ] eqn:Hold;
        [ exact (Hnodup dep old Hold) | constructor ].
    + rewrite assoc_assoc_set_ne in Hd by exact Hne. exact (Hnodup d ns Hd).
  - apply assoc_set_keys. exact Hkeys.
Qed.

Lemma build_graph_ok (operations : list OperationWithMetadata) (warnings : list string) :
  Graph_ok (build_graph operations warnings).
Proof.
  unfold build_graph.
  assert (Hzero : forall m,
    List.NoDup (map fst m) /\ (forall a, (0 <= default 0 (assoc a m))%Z) ->
    let zeroed := fold_left (fun m op => assoc_set (id (metadata op)) 0%Z m) operations m in
    List.NoDup (map fst zeroed) /\ (forall a, (0 <= default 0 (assoc a zeroed))%Z)).
  { induction operations as [ | op rest IH ]; intros m Hm; [ exact Hm | ].
    cbn [fold_left]. apply IH. destruct Hm as [ Hkeys Hpos ].
    split; [ apply assoc_set_keys; exact Hkeys | ].
    intros a. destruct (String.eqb_spec a (id (metadata op))) as [ -> | Hne ].
    - rewrite assoc_assoc_set. cbn. lia.
    - rewrite assoc_assoc_set_ne by exact Hne. apply Hpos. }
  destruct (Hzero []) as [ Hkeys Hpos ]; [ split; [ constructor | intros a; cbn; lia ] | ].
  cbv zeta in Hkeys, Hpos. clear Hzero.
  generalize (idToOperation operations). intros known.
  assert (Hstart : Graph_ok
            {| indegree := fold_left (fun m op => assoc_set (id (metadata op)) 0%Z m)
                                     operations [];
               graph := []; graph_warnings := warnings |}).
  { unfold Graph_ok. cbn [indegree graph]. split; [ | split ].
    - intros a. cbn. apply Hpos.
    - intros d ns Hd. discriminate.
    - exact Hkeys. }
  revert Hstart. generalize {| indegree := fold_left (fun m op => assoc_set (id (metadata op)) 0%Z m)
                                     operations [];
               graph := []; graph_warnings := warnings |}.
  clear. induction operations as [ | op rest IH ]; intros g Hg; [ exact Hg | ].
  cbn [fold_left]. apply IH.
  generalize (default [] (dependencies (metadata op))). intros deps.
  revert g Hg. induction deps as [ | dep deps IHd ]; intros g Hg; [ exact Hg | ].
  cbn [fold_left]. apply IHd. apply add_dependency_ok. exact Hg.
Qed.

Lemma In_set_add (a x : string) (l : list string) :
  In a (set_add x l) <-> In a l \/ a = x.
Proof.
  rewrite <- !existsb_eqb_In, existsb_set_add, orb_true_iff, String.eqb_eq. reflexivity.
Qed.

Lemma add_dependency_keeps_edge (known : list (string * OperationWithMetadata))
    (opId : string) (g : Graph) (dep d a : string) :
  depends_on (graph g) d a ->
  depends_on (graph (add_dependency known opId g dep)) d a.
Proof.
  unfold depends_on, add_dependency. intros Hdep.
  destruct (has_key dep known); cbn [negb graph]; [ | exact Hdep ].
  destruct (String.eqb_spec d dep) as [ -> | Hne ].
  - rewrite assoc_assoc_set. cbn [default]. change (Datatypes.id ?x) with x.
    apply In_set_add. left. exact Hdep.
  - rewrite assoc_assoc_set_ne by exact Hne. exact Hdep.
Qed.

Lemma add_dependency_edge (known : list (string * OperationWithMetadata))
    (opId : string) (g : Graph) (dep : string) :
  has_key dep known = true ->
  depends_on (graph (add_dependency known opId g dep)) dep opId.
Proof.
  unfold depends_on, add_dependency. intros ->. cbn [negb graph].
  rewrite assoc_assoc_set. cbn [default]. change (Datatypes.id ?x) with x.
  apply In_set_add. right. reflexivity.
Qed.

(** A declared dependency on an operation of the input is an edge of
    the graph. *)
Lemma build_graph_edge (operations : list OperationWithMetadata)
    (warnings : list string) (owm : OperationWithMetadata) (dep : string) :
  In owm operations ->
  In dep (default [] (dependencies (metadata owm))) ->
  has_key dep (idToOperation operations) = true ->
  depends_on (graph (build_graph operations warnings)) dep (id (metadata owm)).
Proof.
  intros Hin Hdep Hkey. unfold build_graph.
  generalize dependent (idToOperation operations). intros known Hkey.
  generalize {| indegree := fold_left (fun m op => assoc_set (id (metadata op)) 0%Z m)
                                      operations [];
                graph := []; graph_warnings := warnings |}.
  assert (Hinner : forall opId deps g,
    (In dep deps /\ opId = id (metadata owm)) \/
    depends_on (graph g) dep (id (metadata owm)) ->
    depends_on (graph (fold_left (add_dependency known opId) deps g))
               dep (id (metadata owm))).
  { intros opId deps. induction deps as [ | x deps IH ]; intros g Hcase; cbn [fold_left].
    - destruct Hcase as [ [ [] _ ] | H ]; exact H.
    - apply IH. destruct Hcase as [ [ [ -> | Hx ] -> ] | H ].
      + right. apply add_dependency_edge. exact Hkey.
      + left. split; [ exact Hx | reflexivity ].
      + right. apply add_dependency_keeps_edge. exact H. }
  enough (Hgen : forall g,
    In owm operations \/ depends_on (graph g) dep (id (metadata owm)) ->
    depends_on
      (graph (fold_left
                (fun g op => fold_left (add_dependency known (id (metadata op)))
                                       (default [] (dependencies (metadata op))) g)
                operations g))
      dep (id (metadata owm))).
  { intros g. apply Hgen. left. exact Hin. }
  clear Hin. induction operations as [ | op rest IH ]; intros g Hcase; cbn [fold_left].
  - destruct Hcase as [ [] | H ]; exact H.
  - apply IH. destruct Hcase as [ [ -> | Hin ] | H ].
    + right. apply Hinner. left. split; [ exact Hdep | reflexivity ].
    + left. exact Hin.
    + right. apply Hinner. right. exact H.
Qed.

Lemma In_concat_take {A} (sts : list (list A)) (x : A) :
  forall j, In x (concat (take j sts)) ->
    exists i st, (i < j)%nat /\ sts !! i = Some st /\ In x st.
Proof.
  induction sts as [ | s sts IH ]; intros j Hin.
  - rewrite take_nil in Hin. destruct Hin.
  - destruct j as [ | j ]; [ destruct Hin | ].
    cbn [take concat] in Hin. apply in_app_or in Hin as [ Hin | Hin ].
    + exists 0%nat, s. split; [ lia | ]. split; [ reflexivity | exact Hin ].
    + destruct (IH j Hin) as (i & st & Hlt & Hst & Hx).
      exists (S i), st. split; [ lia | ]. split; [ exact Hst | exact Hx ].
Qed.

(** X9. When the planner reports no dependency cycle, every operation
    is staged strictly after the operations it depends on: if [a]
    declares a dependency on the id of [b], both being operations of an
    input with distinct ids, then [b] is in a stage that comes before
    the stage of [a]. *)
Theorem dependencies_are_staged_earlier (operations : list OperationWithMetadata)
    (a b : OperationWithMetadata) :
  NoDup (map (fun op => id (metadata op)) operations) ->
  In a operations -> In b operations ->
  In (id (metadata b)) (default [] (dependencies (metadata a))) ->
  ~ In cycle_warning (default [] (warnings (plan operations))) ->
  exists i j sb sa,
    stages (plan operations) !! i = Some sb /\ In b (stage_operations sb) /\
    stages (plan operations) !! j = Some sa /\ In a (stage_operations sa) /\
    (i < j)%nat.
Proof.
  intros Hnodup Ha Hb Hdep Hacyclic.
  pose proof (buildStages_complete operations [] a Hnodup Ha) as Hstaged.
  revert Hacyclic Hstaged. unfold plan, buildStages.
  set (known := idToOperation operations).
  set (g := build_graph operations []).
  set (k0 := {| kahn_indegree := indegree g;
                queue := map fst (List.filter (fun kv => (snd kv =? 0)%Z) (indegree g));
                processed := []; kahn_stages := [] |}).
  assert (Hids : forall i op, assoc i known = Some op -> id (metadata op) = i)
    by (intros i op Hop; apply (assoc_idToOperation_id operations i op Hop)).
  destruct (build_graph_ok operations []) as (Hslack & Hneigh & Hkeys). fold g in Hslack, Hneigh, Hkeys.
  assert (Hexact0 : Kahn_exact known k0 []).
  { unfold Kahn_exact, staged_operations. cbn. repeat split; constructor. }
  assert (Horder0 : Kahn_order (graph g) k0 [] (length (queue k0))).
  { unfold Kahn_order. cbn [kahn_indegree queue processed kahn_stages k0 staged_operations
                              map concat stages_ordered].
    split; [ exact Hslack | ]. split; [ exact I | ]. split; [ intros ? [] | ].
    assert (Hq : forall x,
      In x (map fst (List.filter (fun kv : string * Z => (snd kv =? 0)%Z) (indegree g))) ->
      forall d, depends_on (graph g) d x -> In d []).
    { intros x Hx d Hd. apply in_map_iff in Hx as ([x' v] & <- & Hx).
      apply filter_In in Hx as [ Hx Hv ]. cbn [fst snd] in *. apply Z.eqb_eq in Hv. subst v.
      apply (unreleased_zero (graph g) [] x' d); [ | exact Hd ].
      specialize (Hslack x'). rewrite (In_assoc x' 0%Z _ Hkeys Hx) in Hslack.
      cbn in Hslack. lia. }
    split; [ | exact Hq ].
    intros x Hx. apply Hq. rewrite firstn_all in Hx. exact Hx. }
  pose proof (kahn_exact known (graph g) Hids (S (length operations)) k0 Hexact0)
    as (_ & Hproc & Hknown & _ & _).
  pose proof (kahn_order known (graph g) Hids Hneigh (S (length operations)) k0
                Hexact0 Horder0) as Hord.
  rewrite app_nil_r in Hproc, Hknown.
  set (k := kahn known (graph g) (S (length operations)) k0) in *.
  destruct (negb (length (processed k) =? length operations)%nat) eqn:Hcycle.
  { intros Hacyclic. exfalso. apply Hacyclic. cbn [warnings].
    destruct (graph_warnings g ++ [cycle_warning]) as [ | w ws ] eqn:Hw.
    - destruct (graph_warnings g); discriminate.
    - cbn [length Nat.ltb Nat.leb default]. change (Datatypes.id ?x) with x.
      rewrite <- Hw. apply in_or_app. right. left. reflexivity. }
  apply negb_false_iff, Nat.eqb_eq in Hcycle.
  assert (Hne : kahn_stages k <> []).
  { intros Hnone. rewrite Hnone in Hproc. unfold staged_operations in Hproc.
    cbn [map concat] in Hproc. rewrite Hproc in Hcycle.
    destruct operations; [ destruct Ha | discriminate ]. }
  intros _. cbn [fst stages].
  replace (if (length (kahn_stages k) =? 0)%nat
           then [{| stage_id := "stage-1"; stage_operations := operations;
                    parallel := (1 <? length operations)%nat |}]
           else kahn_stages k)
    with (kahn_stages k) by (destruct (kahn_stages k); [ congruence | reflexivity ]).
  intros (sa & Hsa & Haop).
  apply list_elem_of_In, list_elem_of_lookup in Hsa as [ j Hj ].
  assert (Hedge : depends_on (graph g) (id (metadata b)) (id (metadata a))).
  { apply build_graph_edge; [ exact Ha | exact Hdep | ].
    unfold has_key. rewrite (assoc_idToOperation _ _ Hnodup Hb). reflexivity. }
  assert (Hjops : map stage_operations (kahn_stages k) !! j = Some (stage_operations sa)).
  { change (map stage_operations (kahn_stages k)) with (stage_operations <$> kahn_stages k).
    rewrite list_lookup_fmap, Hj. reflexivity. }
  pose proof (stages_ordered_lookup (graph g) _ [] j _ a _ Hord Hjops Haop Hedge) as Hseen.
  cbn [app] in Hseen. apply in_map_iff in Hseen as (b' & Hid & Hb').
  apply In_concat_take in Hb' as (i & st & Hlt & Hi & Hst).
  change (map stage_operations (kahn_stages k)) with (stage_operations <$> kahn_stages k) in Hi.
  rewrite list_lookup_fmap in Hi.
  destruct (kahn_stages k !! i) as [ sb | ] eqn:Hsb; [ | discriminate ].
  injection Hi as <-.
  assert (Hsame : b' = b).
  { assert (Hin' : In b' (staged_operations (kahn_stages k))).
    { unfold staged_operations. apply in_concat. exists (stage_operations sb).
      split; [ | exact Hst ].
      apply in_map, list_elem_of_In, list_elem_of_lookup. exists i. exact Hsb. }
    rewrite Forall_forall in Hknown.
    pose proof (Hknown b' (proj2 (list_elem_of_In _ _) Hin')) as Hb'.
    rewrite Hid in Hb'. unfold known in Hb'.
    rewrite (assoc_idToOperation _ _ Hnodup Hb) in Hb'. congruence. }
  subst b'. exists i, j, sb, sa. repeat split; assumption.
Qed.

Lemma dependencies_are_staged_earlier_witness :
  let base := {| operation := OpFile (file_op act_ensure ".kb/base.yaml" (Some "base"));
                 metadata := meta "file-1" |} in
  let extended :=
    {| operation := OpFile (file_op act_ensure ".kb/extended.yaml" (Some "extended"));
       metadata := {| id := "file-2"; description := "file-2";
                      dependencies := Some ["file-1"]; rawContentBase64 := None |} |} in
  exists i j sb sa,
    stages (plan [extended; base]) !! i = Some sb /\ In base (stage_operations sb) /\
    stages (plan [extended; base]) !! j = Some sa /\ In extended (stage_operations sa) /\
    (i < j)%nat.
Proof.
  intros base extended.
  assert (Hnodup : NoDup (map (fun op => id (metadata op)) [extended; base]))
    by (apply (bool_decide_unpack _); vm_compute; exact I).
  assert (Ha : In extended [extended; base]) by (left; reflexivity).
  assert (Hb : In base [extended; base]) by (right; left; reflexivity).
  assert (Hdep : In (id (metadata base)) (default [] (dependencies (metadata extended))))
    by (left; reflexivity).
  assert (Hacyclic : ~ In cycle_warning (default [] (warnings (plan [extended; base]))))
    by (vm_compute; intros []).
  exact (dependencies_are_staged_earlier [extended; base] extended base
           Hnodup Ha Hb Hdep Hacyclic).
Defined.

(** ** JSON comparison and merging *)








(** ** Config mutations read back *)










(** X11. A config operation whose pointer decodes to no segment (the
    empty pointer, ["/"], or any pointer without a slash) is never
    applied: the config applier changes nothing and reports
    [changed = false], whatever the action and the file.  The analyzer
    reads the whole document for such a pointer, so a [set] whose value
    differs from the document is reported as needed all the same. *)
Theorem root_pointer_is_never_applied (h : Host) (ctx : OperationContext)
    (op : ConfigOperation) (opId : string) (s : State) :
  decodePointer (pointer op) = [] ->
  snd (applyConfigOperation h ctx op opId s) = s /\
  (forall r, fst (applyConfigOperation h ctx op opId s) = inr r -> changed r = false) /\
  (forall f d,
     config_action op = cfg_set ->
     files s !! path_resolve (workspaceRoot ctx) (config_path op) = Some f ->
     is_blank (Buffer_toString h (f_bytes f) "utf8") = false ->
     JSON_parse h (Buffer_toString h (f_bytes f) "utf8") = Some d ->
     isDeepStrictEqual (Some d) (value op) = false ->
     needed (ConfigAnalyzer_analyze h (workspaceRoot ctx) op s) = true).
Proof.
  intros Hroot.
  assert (Hmutation : forall d, applyConfigMutation d op = unchanged d)
    by (intros d; unfold applyConfigMutation; rewrite Hroot; reflexivity).
  split; [ | split ].
  - unfold applyConfigOperation. run_M.
    destruct (resolveWorkspacePath (workspaceRoot ctx) (config_path op)) as [ e | target ];
      [ reflexivity | ].
    unfold pathExists, readFile. run_M.
    destruct (files s !! target) as [ f | ] eqn:Hf.
    + rewrite bool_decide_eq_true_2 by eauto. rewrite Hf.
      destruct (is_blank _); cbn [negb]; [ rewrite Hmutation; reflexivity | ].
      destruct (JSON_parse h _); [ rewrite Hmutation | ]; reflexivity.
    + rewrite bool_decide_eq_false_2 by (intros [? ?]; discriminate).
      rewrite Hmutation. reflexivity.
  - intros r. unfold applyConfigOperation. run_M.
    destruct (resolveWorkspacePath (workspaceRoot ctx) (config_path op)) as [ e | target ];
      [ discriminate | ].
    unfold pathExists, readFile. run_M.
    destruct (files s !! target) as [ f | ] eqn:Hf.
    + rewrite bool_decide_eq_true_2 by eauto. rewrite Hf.
      destruct (is_blank _); cbn [negb];
        [ rewrite Hmutation; cbn; intros [= <-]; reflexivity | ].
      destruct (JSON_parse h _); [ rewrite Hmutation | discriminate ].
      cbn. intros [= <-]. reflexivity.
    + rewrite bool_decide_eq_false_2 by (intros [? ?]; discriminate).
      rewrite Hmutation. cbn. intros [= <-]. reflexivity.
  - intros f d Hset Hf Hblank Hparse Hdiffers.
    unfold ConfigAnalyzer_analyze. rewrite Hf, Hblank, Hparse. cbn [negb].
    unfold evaluateDocument, getPointerValue. rewrite Hset, Hroot. cbn [fold_left needed].
    rewrite Hdiffers. reflexivity.
Qed.

Lemma root_pointer_is_never_applied_witness :
  let h := table_host [("{ name: demo }", JObj [("name", JStr "demo")])] in
  let ctx := {| workspaceRoot := ["ws"]; backupDir := ["ws"; ".kb"; "logs"; "setup"];
                autoConfirm := true |} in
  let op := {| config_action := cfg_set; config_path := "config.json"; pointer := "/";
               value := Some (JObj [("name", JStr "other")]); strategy := None |} in
  let s := with_files {[ ["ws"; "config.json"]
                           := {| f_bytes := "{ name: demo }"; f_mode := 420 |} ]}
                      empty_state in
  snd (applyConfigOperation h ctx op "config-1" s) = s /\
  needed (ConfigAnalyzer_analyze h ["ws"] op s) = true.
Proof.
  intros h ctx op s.
  destruct (root_pointer_is_never_applied h ctx op "config-1" s eq_refl)
    as (Hstate & _ & Hneeded).
  split; [ exact Hstate | ].
  apply (Hneeded {| f_bytes := "{ name: demo }"; f_mode := 420 |}
                 (JObj [("name", JStr "demo")]));
    vm_compute; reflexivity.
Defined.

(** ** JSON pointers *)

Lemma split_slash_cons (s : string) : exists h t, split_slash s = h :: t.
Proof.
  induction s as [ | c s (h & t & IH) ]; cbn; [ eauto | ].
  destruct (Ascii.eqb c "/"); [ eauto | ]. rewrite IH. eauto.
Qed.

Lemma split_slash_plain (s t : string) :
  ~ In "/"%char (list_ascii_of_string s) ->
  split_slash (s +:+ t)
  = match split_slash t with
    | [] => [s]
    | h :: tl => (s +:+ h) :: tl
    end.
Proof.
  induction s as [ | c s IH ]; intros Hplain.
  - change ("" +:+ t) with t.
    destruct (split_slash_cons t) as (h & tl & ->). reflexivity.
  - change (String c s +:+ t) with (String c (s +:+ t)). cbn [split_slash].
    cbn in Hplain. destruct (Ascii.eqb_spec c "/") as [ -> | _ ]; [ tauto | ].
    rewrite IH by tauto.
    destruct (split_slash_cons t) as (h & tl & ->). reflexivity.
Qed.

Lemma append_empty_r (s : string) : s +:+ "" = s.
Proof.
  induction s as [ | c s IH ]; [ reflexivity | ].
  change (String c s +:+ "") with (String c (s +:+ "")). rewrite IH. reflexivity.
Qed.

Lemma split_slash_join (segs : list string) :
  segs <> [] ->
  Forall (fun s => ~ In "/"%char (list_ascii_of_string s)) segs ->
  split_slash (join_slash segs) = segs.
Proof.
  intros Hne Hplain. induction Hplain as [ | s rest Hs Hrest IH ]; [ congruence | ].
  destruct rest as [ | s2 rest ].
  - cbn [join_slash].
    pose proof (split_slash_plain s "" Hs) as Hsplit. cbn [split_slash] in Hsplit.
    rewrite append_empty_r in Hsplit. exact Hsplit.
  - change (join_slash (s :: s2 :: rest)) with (s +:+ "/" +:+ join_slash (s2 :: rest)).
    rewrite (split_slash_plain s _ Hs).
    change ("/" +:+ join_slash (s2 :: rest)) with (String "/" (join_slash (s2 :: rest))).
    cbn [split_slash]. cbn [Ascii.eqb Bool.eqb]. rewrite IH by discriminate.
    rewrite append_empty_r. reflexivity.
Qed.

Lemma replace_pair_plain (a b : ascii) (r s : string) :
  ~ In a (list_ascii_of_string s) -> replace_pair a b r s = s.
Proof.
  induction s as [ | x t IH ]; intros Hplain; [ reflexivity | ].
  cbn [replace_pair]. cbn in Hplain. destruct t as [ | y rest ]; [ reflexivity | ].
  destruct (Ascii.eqb_spec x a) as [ -> | _ ]; [ tauto | ].
  cbn [andb]. rewrite IH by tauto. reflexivity.
Qed.

(** X12. [decodePointer] reads a pointer written as a slash followed by
    segments joined with slashes back into these segments, when no
    segment holds a slash or a tilde.  The one exception is the
    pointer ["/"]: it is taken for the root and decodes to no segment
    rather than to the single empty segment. *)
Theorem decodePointer_reads_segments (segs : list string) :
  segs <> [] -> segs <> [""] ->
  Forall (fun s => ~ In "/"%char (list_ascii_of_string s) /\
                   ~ In "~"%char (list_ascii_of_string s)) segs ->
  decodePointer ("/" +:+ join_slash segs) = segs /\
  decodePointer ("/" +:+ join_slash [""]) = [].
Proof.
  intros Hne Hroot Hplain. split; [ | reflexivity ].
  unfold decodePointer.
  change ("/" +:+ join_slash segs) with (String "/" (join_slash segs)).
  assert (Hjoin : join_slash segs <> "").
  { destruct segs as [ | s [ | s2 rest ] ]; [ congruence | | ].
    - cbn. intros ->. congruence.
    - cbn [join_slash]. destruct s; discriminate. }
  assert (Hpointer : String.eqb (String "/" (join_slash segs)) "" = false) by reflexivity.
  assert (Hslash : String.eqb (String "/" (join_slash segs)) "/" = false).
  { apply String.eqb_neq. intros [= H]. exact (Hjoin H). }
  rewrite Hpointer, Hslash. cbn [orb split_slash Ascii.eqb Bool.eqb drop].
  rewrite drop_0, split_slash_join.
  - clear Hne Hroot Hjoin Hpointer Hslash.
    induction Hplain as [ | s rest [ _ Htilde ] _ IH ]; [ reflexivity | ].
    cbn [map]. rewrite IH. rewrite (replace_pair_plain "~" "1" "/" s Htilde).
    rewrite (replace_pair_plain "~" "0" "~" s Htilde). reflexivity.
  - exact Hne.
  - eapply Forall_impl; [ exact Hplain | ]. intros s [ Hs _ ]. exact Hs.
Qed.

Lemma decodePointer_reads_segments_witness :
  decodePointer ("/" +:+ join_slash ["plugins"; "demo"; "level"])
  = ["plugins"; "demo"; "level"].
Proof.
  apply (decodePointer_reads_segments ["plugins"; "demo"; "level"]);
    [ discriminate | discriminate | ].
  repeat constructor; vm_compute; intuition discriminate.
Defined.

(** ** Runs of the executor *)

Lemma attempt_dry_no_journal (h : Host) (ctx : OperationContext)
    (owm : OperationWithMetadata) (s : State) :
  journal s = None ->
  attempt h ctx true owm s
  = (match fst (simulateOperation h ctx owm s) with
     | inl e => inl e
     | inr _ => inr false
     end, s).
Proof.
  intros Hj. unfold attempt. run_M. rewrite simulateOperation_run.
  destruct (fst (simulateOperation h ctx owm s)) as [ e | [] ]; [ reflexivity | ].
  pose proof (beforeOperation_run h owm s) as Hbefore. rewrite Hj in Hbefore.
  rewrite Hbefore, (afterOperation_no_journal h owm None s Hj). reflexivity.
Qed.

Lemma run_operations_dry_no_journal (h : Host) (ctx : OperationContext)
    (ops : list OperationWithMetadata) (applied : list OperationWithMetadata)
    (s : State) :
  journal s = None ->
  exists f, run_operations h ctx true ops applied s = (inr (applied, f), s).
Proof.
  intros Hj. induction ops as [ | owm rest IH ]; [ exists None; reflexivity | ].
  cbn [run_operations]. rewrite (attempt_dry_no_journal h ctx owm s Hj).
  destruct (fst (simulateOperation h ctx owm s)) as [ e | [] ].
  - eexists. reflexivity.
  - exact IH.
Qed.

(** X13. A dry run without a journal leaves the workspace as it is: no
    file and no directory is created, changed or removed, the clock is
    not read, and the result lists no applied operation and no backup,
    and offers no rollback. *)
Theorem dry_run_without_journal_changes_nothing (h : Host) (root : path)
    (plan : ExecutionPlan) (execOptions : ExecutionOptions) (s : State) :
  dryRun execOptions = true ->
  journal s = None ->
  files (snd (execute h root plan execOptions s)) = files s /\
  dirs (snd (execute h root plan execOptions s)) = dirs s /\
  clock (snd (execute h root plan execOptions s)) = clock s /\
  exists result,
    fst (execute h root plan execOptions s) = inr result /\
    applied result = [] /\ artifact_backups result = [] /\
    artifact_logs result = [] /\ rollbackAvailable result = false.
Proof.
  intros Hdry Hj. unfold execute. run_M. rewrite Hdry, run_stages_flat.
  destruct (run_operations_dry_no_journal h
              {| workspaceRoot := root;
                 backupDir := resolveBackupDir h root execOptions;
                 autoConfirm := options_autoConfirm execOptions |}
              (concat (map stage_operations (stages plan))) []
              (with_mutations [] (with_backupRegistry [] s)) Hj) as [ f Hrun ].
  rewrite Hrun. cbn [fst snd]. clear Hrun.
  destruct s as [ fs ds c ms bs j ]. cbn in Hj. subst j.
  destruct f as [ f | ]; cbn;
    (repeat split; try reflexivity); eexists; repeat split; reflexivity.
Qed.

Lemma dry_run_without_journal_changes_nothing_witness :
  let plan := single_stage
                [{| operation := OpFile (file_op act_ensure ".kb/demo.txt" (Some "demo"));
                    metadata := meta "file-1" |}] in
  files (snd (execute (table_host []) ["ws"] plan dry_run empty_state)) = ∅.
Proof.
  intros plan.
  exact (proj1 (dry_run_without_journal_changes_nothing
                  (table_host []) ["ws"] plan dry_run empty_state eq_refl eq_refl)).
Defined.

Lemma attempt_code_fails (h : Host) (ctx : OperationContext) (dry : bool)
    (owm : OperationWithMetadata) (cop : CodeOperation) :
  operation owm = OpCode cop ->
  forall s, exists e, fst (attempt h ctx dry owm s) = inl e.
Proof.
  intros Hop s. destruct dry.
  - unfold attempt, simulateOperation. run_M. rewrite Hop. eexists. reflexivity.
  - destruct (attempt_real h ctx owm s) as (s1 & _ & ->).
    unfold applyOperation. rewrite Hop. eexists. reflexivity.
Qed.

(** X14. The built-in executor supports no [code] operation: a plan
    that holds one never succeeds, in a real run as in a dry run.
    Whenever [execute] returns a result for such a plan, the result
    says [success = false] and names a failed operation. *)
Theorem code_operation_fails_the_run (h : Host) (root : path) (plan : ExecutionPlan)
    (execOptions : ExecutionOptions) (owm : OperationWithMetadata)
    (cop : CodeOperation) (s : State) (result : ExecutionResult) :
  In owm (plan_operations plan) ->
  operation owm = OpCode cop ->
  fst (execute h root plan execOptions s) = inr result ->
  success result = false /\ exists f, failed result = Some [f].
Proof.
  intros Hin Hop. unfold execute. run_M. rewrite run_stages_flat.
  fold (plan_operations plan).
  pose proof (run_operations_failing h
                {| workspaceRoot := root;
                   backupDir := resolveBackupDir h root execOptions;
                   autoConfirm := options_autoConfirm execOptions |}
                (dryRun execOptions) owm (plan_operations plan) Hin
                (attempt_code_fails h _ (dryRun execOptions) owm cop Hop) []
                (with_mutations [] (with_backupRegistry [] s))) as Hfail.
  destruct (run_operations h _ (dryRun execOptions) (plan_operations plan) []
              (with_mutations [] (with_backupRegistry [] s)))
    as [ [ e | [ applied' [ f | ] ] ] s1 ].
  - discriminate.
  - cbn. intros [= <-]. split; [ reflexivity | ]. eexists. reflexivity.
  - exfalso. exact (Hfail applied' s1 eq_refl).
Qed.

Lemma code_operation_fails_the_run_witness :
  let code := {| operation := OpCode {| code_file := "src/index.ts" |};
                 metadata := meta "code-1" |} in
  match fst (execute (table_host []) ["ws"] (single_stage [code]) dry_run empty_state) with
  | inr result => success result = false
  | inl _ => False
  end.
Proof.
  intros code.
  destruct (fst (execute (table_host []) ["ws"] (single_stage [code]) dry_run empty_state))
    as [ e | result ] eqn:Hrun; [ vm_compute in Hrun; discriminate Hrun | ].
  exact (proj1 (code_operation_fails_the_run (table_host []) ["ws"] (single_stage [code])
                  dry_run code {| code_file := "src/index.ts" |} empty_state result
                  (or_introl eq_refl) eq_refl Hrun)).
Defined.

Lemma run_operations_sublist (h : Host) (ctx : OperationContext) (dry : bool)
    (ops : list OperationWithMetadata) :
  forall applied s applied' f s',
    run_operations h ctx dry ops applied s = (inr (applied', f), s') ->
    exists sub,
      applied' = applied ++ sub /\ sub `sublist_of` ops /\
      (forall fo, f = Some fo -> In (failed_operation fo) ops).
Proof.
  induction ops as [ | owm rest IH ]; intros applied s applied' f s' Hrun.
  - injection Hrun as <- <- <-. exists []. rewrite app_nil_r.
    split; [ reflexivity | ]. split; [ constructor | discriminate ].
  - cbn [run_operations] in Hrun.
    destruct (attempt h ctx dry owm s) as [ [ e | pushed ] s1 ].
    + revert Hrun. run_M. destruct dry.
      * intros [= <- <- <-]. exists []. rewrite app_nil_r.
        split; [ reflexivity | ]. split; [ apply sublist_nil_l | ].
        intros fo [= <-]. left. reflexivity.
      * destruct (rollbackMutations s1) as [ [ e' | [] ] s2 ]; [ discriminate | ].
        intros [= <- <- <-]. exists []. rewrite app_nil_r.
        split; [ reflexivity | ]. split; [ apply sublist_nil_l | ].
        intros fo [= <-]. left. reflexivity.
    + destruct (IH _ _ _ _ _ Hrun) as (sub & -> & Hsub & Hfailed).
      destruct pushed.
      * exists (owm :: sub). rewrite <- app_assoc.
        split; [ reflexivity | ]. split; [ apply sublist_skip; exact Hsub | ].
        intros fo Hfo. right. exact (Hfailed fo Hfo).
      * exists sub. split; [ reflexivity | ]. split; [ apply sublist_cons; exact Hsub | ].
        intros fo Hfo. right. exact (Hfailed fo Hfo).
Qed.

(** X15. The operations a result lists as applied are operations of the
    plan, in plan order and each at most as often as the plan holds it;
    a result names at most one failed operation, which is an operation
    of the plan, and reports success exactly when it names none. *)
Theorem result_lists_operations_of_the_plan (h : Host) (root : path)
    (plan : ExecutionPlan) (execOptions : ExecutionOptions) (s : State)
    (result : ExecutionResult) :
  fst (execute h root plan execOptions s) = inr result ->
  applied result `sublist_of` plan_operations plan /\
  match failed result with
  | None => success result = true
  | Some [f] => success result = false /\ In (failed_operation f) (plan_operations plan)
  | Some _ => False
  end.
Proof.
  unfold execute. run_M. rewrite run_stages_flat. fold (plan_operations plan).
  destruct (run_operations h _ (dryRun execOptions) (plan_operations plan) []
              (with_mutations [] (with_backupRegistry [] s)))
    as [ [ e | [ applied' f ] ] s1 ] eqn:Hrun; [ discriminate | ].
  destruct (run_operations_sublist _ _ _ _ _ _ _ _ _ Hrun) as (sub & -> & Hsub & Hfailed).
  cbn [app fst snd]. destruct f as [ f | ].
  - cbn. intros [= <-]. cbn. split; [ exact Hsub | ].
    split; [ reflexivity | exact (Hfailed f eq_refl) ].
  - destruct (journal s1) as [ j | ].
    + unfold persistJournal, mkdir, Date_now, writeFile. run_M.
      destruct (length (entries j) =? 0)%nat; [ | destruct (logPath j) ]; cbn;
        intros [= <-]; cbn; split; try exact Hsub; reflexivity.
    + cbn. intros [= <-]. cbn. split; [ exact Hsub | reflexivity ].
Qed.

Lemma result_lists_operations_of_the_plan_witness :
  let plan := single_stage
                [{| operation := OpFile (file_op act_ensure ".kb/demo.txt" (Some "demo"));
                    metadata := meta "file-1" |};
                 {| operation := OpCode {| code_file := "src/index.ts" |};
                    metadata := meta "code-1" |}] in
  match fst (execute (table_host []) ["ws"] plan real_run empty_state) with
  | inr result => applied result `sublist_of` plan_operations plan
  | inl _ => False
  end.
Proof.
  intros plan.
  destruct (fst (execute (table_host []) ["ws"] plan real_run empty_state))
    as [ e | result ] eqn:Hrun; [ vm_compute in Hrun; discriminate Hrun | ].
  exact (proj1 (result_lists_operations_of_the_plan (table_host []) ["ws"] plan real_run
                  empty_state result Hrun)).
Defined.

(** ** Workspace paths and backup names *)

Lemma is_prefix_refl (p : path) : is_prefix p p = true.
Proof. induction p as [ | x p IH ]; cbn; [ reflexivity | ]. rewrite String.eqb_refl. exact IH. Qed.

Lemma resolve_steps_below (segs : list string) :
  ~ In ".." segs ->
  forall acc, exists below, fold_left resolve_step segs acc = acc ++ below.
Proof.
  induction segs as [ | seg segs IH ]; intros Hplain acc; cbn [fold_left].
  - exists []. rewrite app_nil_r. reflexivity.
  - assert (Hrest : ~ In ".." segs) by (intros Hin; apply Hplain; right; exact Hin).
    unfold resolve_step at 2.
    destruct (String.eqb seg ""); [ exact (IH Hrest acc) | ].
    destruct (String.eqb seg "."); [ exact (IH Hrest acc) | ].
    destruct (String.eqb_spec seg "..") as [ -> | _ ];
      [ exfalso; apply Hplain; left; reflexivity | ].
    destruct (IH Hrest (acc ++ [seg])) as [ below Hbelow ].
    exists (seg :: below). rewrite Hbelow, <- app_assoc. reflexivity.
Qed.

(** X16. [resolveWorkspacePath] only lets through paths of the
    workspace: a path it accepts is the root or lies below it.  A
    relative path in which no segment is [..] is always accepted, and
    resolves to the root followed by segments of its own. *)
Theorem accepted_paths_stay_in_workspace (root : path) (filePath : string) :
  (forall target,
     resolveWorkspacePath root filePath = inr target ->
     is_prefix root target = true /\
     (target = root \/ (length root < length target)%nat)) /\
  (isAbsolute filePath = false -> ~ In ".." (split_slash filePath) ->
   exists below, resolveWorkspacePath root filePath = inr (root ++ below)).
Proof.
  split.
  - intros target. unfold resolveWorkspacePath.
    destruct (bool_decide_reflect (path_resolve root filePath = root)) as [ Heq | Hne ];
      cbn [negb andb].
    + intros [= <-]. rewrite Heq. split; [ apply is_prefix_refl | left; reflexivity ].
    + destruct root as [ | r0 root ].
      * cbn [negb]. intros [= <-]. split; [ reflexivity | ].
        right. destruct (path_resolve [] filePath); [ congruence | cbn; lia ].
      * destruct (is_prefix (r0 :: root) (path_resolve (r0 :: root) filePath)
                  && (length (r0 :: root) <? length (path_resolve (r0 :: root) filePath))%nat)
          eqn:Hstarts; cbn [negb]; [ | discriminate ].
        intros [= <-]. apply andb_true_iff in Hstarts as [ Hprefix Hlonger ].
        split; [ exact Hprefix | right; apply Nat.ltb_lt; exact Hlonger ].
  - intros Hrelative Hplain. unfold resolveWorkspacePath, path_resolve.
    rewrite Hrelative.
    destruct (resolve_steps_below (split_slash filePath) Hplain root) as [ below Hbelow ].
    rewrite Hbelow. exists below.
    destruct (bool_decide_reflect (root ++ below = root)) as [ Heq | Hne ];
      cbn [negb andb]; [ reflexivity | ].
    destruct root as [ | r0 root ]; [ reflexivity | ].
    rewrite is_prefix_app. cbn [andb].
    assert (Hlonger : (length (r0 :: root) <? length ((r0 :: root) ++ below))%nat = true).
    { apply Nat.ltb_lt. rewrite length_app.
      destruct below; [ rewrite app_nil_r in Hne; congruence | cbn; lia ]. }
    rewrite Hlonger. reflexivity.
Qed.

Lemma is_filename_char_idem (c : ascii) :
  is_filename_char (if is_filename_char c then c else "_"%char) = true.
Proof. destruct (is_filename_char c) eqn:Hc; [ exact Hc | reflexivity ]. Qed.

(** X17. [sanitizeForFilename] keeps the length of its argument, leaves
    nothing but letters, digits, dots, underscores and hyphens (so no
    path separator), and changes nothing when applied a second time. *)
Theorem sanitized_names_are_plain (v : string) :
  String.length (sanitizeForFilename v) = String.length v /\
  Forall (fun c => is_filename_char c = true /\ c <> "/"%char)
         (list_ascii_of_string (sanitizeForFilename v)) /\
  sanitizeForFilename (sanitizeForFilename v) = sanitizeForFilename v.
Proof.
  induction v as [ | c v (Hlen & Hchars & Hidem) ]; cbn [sanitizeForFilename].
  - repeat split. constructor.
  - cbn [String.length list_ascii_of_string]. split; [ rewrite Hlen; reflexivity | ].
    pose proof (is_filename_char_idem c) as Hc. split.
    + constructor; [ | exact Hchars ]. split; [ exact Hc | ].
      intros Hslash. rewrite Hslash in Hc. discriminate.
    + rewrite Hidem, Hc. reflexivity.
Qed.

(** ** Applying a file operation twice *)

Lemma resolveFileContent_no_template (h : Host) (ctx : OperationContext)
    (operation : FileOperation) (metadata : option OperationMetadata) :
  template operation = None ->
  forall s1 s2,
    fst (resolveFileContent h ctx operation metadata s1)
    = fst (resolveFileContent h ctx operation metadata s2).
Proof.
  intros Htemplate s1 s2. unfold resolveFileContent. rewrite Htemplate.
  destruct (content operation); [ reflexivity | ].
  destruct (readAnnotationContent h metadata); reflexivity.
Qed.

(** A file operation whose target is already as asked for. *)
Lemma applyFileOperation_settled (h : Host) (ctx : OperationContext)
    (operation : FileOperation) (metadata : OperationMetadata) (s : State)
    (target : path) :
  resolveWorkspacePath (workspaceRoot ctx) (file_path operation) = inr target ->
  match file_action operation with
  | act_delete => files s !! target = None
  | _ => exists f, files s !! target = Some f /\
                   fst (resolveFileContent h ctx operation (Some metadata) s)
                   = inr (f_bytes f)
  end ->
  applyFileOperation h ctx operation metadata s
  = (inr {| changed := false; result_backupPath := None |}, s).
Proof.
  intros Hpath Hstate. unfold applyFileOperation. run_M. rewrite Hpath.
  unfold pathExists. run_M.
  destruct (file_action operation).
  3: { rewrite Hstate. rewrite bool_decide_eq_false_2 by (intros [? ?]; discriminate).
       reflexivity. }
  all: destruct Hstate as (f & Hfile & Hcontent); rewrite Hfile;
    rewrite bool_decide_eq_true_2 by eauto;
    rewrite resolveFileContent_run, Hcontent;
    unfold readFile; run_M; rewrite Hfile, String.eqb_refl; reflexivity.
Qed.

(** What a successful file operation leaves at its target. *)
Lemma applyFileOperation_post (h : Host) (ctx : OperationContext)
    (operation : FileOperation) (metadata : OperationMetadata) (s s' : State)
    (r : ApplyResult) :
  applyFileOperation h ctx operation metadata s = (inr r, s') ->
  exists target,
    resolveWorkspacePath (workspaceRoot ctx) (file_path operation) = inr target /\
    match file_action operation with
    | act_delete => files s' !! target = None
    | _ => exists f, files s' !! target = Some f /\
                     fst (resolveFileContent h ctx operation (Some metadata) s)
                     = inr (f_bytes f) /\
                     (changed r = true -> forall m, mode operation = Some m -> f_mode f = m)
    end.
Proof.
  unfold applyFileOperation. run_M.
  destruct (resolveWorkspacePath (workspaceRoot ctx) (file_path operation))
    as [ e | target ] eqn:Hpath; [ discriminate | ].
  intros Hrun. exists target. split; [ reflexivity | ]. revert Hrun.
  unfold pathExists. run_M.
  destruct (files s !! target) as [ f | ] eqn:Hfile.
  - destruct (createBackupIfNeeded_exists h ctx target (id metadata) s f Hfile)
      as (backupName & d & Hbackup).
    rewrite bool_decide_eq_true_2 by eauto. cbn [negb].
    destruct (file_action operation).
    3: { rewrite Hbackup. unfold rm, recordMutation. run_M. cbn.
         intros [= _ <-]. cbn. apply lookup_delete_eq. }
    all: rewrite resolveFileContent_run;
      destruct (fst (resolveFileContent h ctx operation (Some metadata) s))
        as [ e | nextContent ]; [ discriminate | ];
      unfold readFile; run_M; rewrite Hfile;
      destruct (String.eqb_spec (f_bytes f) nextContent) as [ <- | _ ];
      [ intros [= <- <-]; exists f; repeat split; [ exact Hfile | discriminate ] | ];
      rewrite Hbackup; unfold ensureParentDir, mkdir, writeFile, chmod, recordMutation;
      run_M; cbn;
      destruct (mode operation) as [ m | ]; cbn;
      [ rewrite lookup_insert_eq; cbn | ];
      intros [= _ <-]; cbn; rewrite lookup_insert_eq; eexists; repeat split;
      intros _ m' Hm; cbn; congruence.
  - rewrite bool_decide_eq_false_2 by (intros [? ?]; discriminate). cbn [negb].
    destruct (file_action operation).
    3: { intros [= _ <-]. exact Hfile. }
    all: rewrite resolveFileContent_run;
      destruct (fst (resolveFileContent h ctx operation (Some metadata) s))
        as [ e | nextContent ]; [ discriminate | ];
      unfold ensureParentDir, mkdir, writeFile, chmod, recordMutation;
      run_M; cbn;
      destruct (mode operation) as [ m | ]; cbn;
      [ rewrite lookup_insert_eq; cbn | ];
      intros [= _ <-]; cbn; rewrite lookup_insert_eq; eexists; repeat split;
      intros _ m' Hm; cbn; congruence.
Qed.

(** X18. A file operation that succeeds leaves its target as asked for:
    gone after a [delete], holding the resolved bytes after an [ensure]
    or [update] (with the mode of the operation when the file was
    written and a mode is given).  For an operation without a template,
    applying it once more reports [changed = false] and leaves the
    state as it is. *)
Theorem file_operation_applies_once (h : Host) (ctx : OperationContext)
    (operation : FileOperation) (metadata : OperationMetadata) (s s' : State)
    (r : ApplyResult) :
  applyFileOperation h ctx operation metadata s = (inr r, s') ->
  (exists target,
     resolveWorkspacePath (workspaceRoot ctx) (file_path operation) = inr target /\
     match file_action operation with
     | act_delete => files s' !! target = None
     | _ => exists f, files s' !! target = Some f /\
                      fst (resolveFileContent h ctx operation (Some metadata) s)
                      = inr (f_bytes f) /\
                      (changed r = true ->
                       forall m, mode operation = Some m -> f_mode f = m)
     end) /\
  (template operation = None ->
   applyFileOperation h ctx operation metadata s'
   = (inr {| changed := false; result_backupPath := None |}, s')).
Proof.
  intros Hrun.
  destruct (applyFileOperation_post h ctx operation metadata s s' r Hrun)
    as (target & Hpath & Hpost).
  split; [ exists target; split; assumption | ].
  intros Htemplate.
  apply (applyFileOperation_settled h ctx operation metadata s' target Hpath).
  destruct (file_action operation); [ | | exact Hpost ];
    destruct Hpost as (f & Hfile & Hcontent & _); exists f; (split; [ exact Hfile | ]);
    rewrite (resolveFileContent_no_template h ctx operation (Some metadata) Htemplate s' s);
    exact Hcontent.
Qed.

Lemma file_operation_applies_once_witness :
  let op := {| file_action := act_ensure; file_path := "run.sh";
               content := Some "echo"; template := None; encoding := None;
               mode := Some 493%Z; checksum := None |} in
  let ctx := {| workspaceRoot := ["ws"]; backupDir := ["ws"; ".kb"; "logs"; "setup"];
                autoConfirm := true |} in
  let s' := snd (applyFileOperation (table_host []) ctx op (meta "file-1") empty_state) in
  applyFileOperation (table_host []) ctx op (meta "file-1") s'
  = (inr {| changed := false; result_backupPath := None |}, s').
Proof.
  intros op ctx s'.
  destruct (applyFileOperation (table_host []) ctx op (meta "file-1") empty_state)
    as [ [ e | r ] s1 ] eqn:Hrun; [ vm_compute in Hrun; discriminate Hrun | ].
  exact (proj2 (file_operation_applies_once (table_host []) ctx op (meta "file-1")
                  empty_state s1 r Hrun) eq_refl).
Defined.

(** X19. The file analyzer and the file applier agree on operations
    that need no work: when the analyzer, run on the workspace root,
    reports a [delete] or an operation with inline content as not
    needed, and the bytes on disk are the encoding of the text the
    analyzer decoded from them, the applier reports [changed = false]
    and leaves the state as it is. *)
Theorem unneeded_file_operation_changes_nothing (h : Host) (ctx : OperationContext)
    (operation : FileOperation) (metadata : OperationMetadata) (s : State)
    (target : path) :
  resolveWorkspacePath (workspaceRoot ctx) (file_path operation) = inr target ->
  file_action operation = act_delete \/ is_Some (content operation) ->
  (forall f, files s !! target = Some f ->
     Buffer_from h (Buffer_toString h (f_bytes f) (default "utf8" (encoding operation)))
                 (default "utf8" (encoding operation)) = f_bytes f) ->
  needed (FileAnalyzer_analyze h (workspaceRoot ctx) operation s) = false ->
  applyFileOperation h ctx operation metadata s
  = (inr {| changed := false; result_backupPath := None |}, s).
Proof.
  intros Hpath Hkind Hcodec Hneeded.
  apply (applyFileOperation_settled h ctx operation metadata s target Hpath).
  assert (Htarget : path_resolve (workspaceRoot ctx) (file_path operation) = target).
  { unfold resolveWorkspacePath in Hpath.
    destruct (_ && _) in Hpath; [ discriminate | ]. injection Hpath as <-. reflexivity. }
  unfold FileAnalyzer_analyze in Hneeded. rewrite Htarget in Hneeded.
  destruct (files s !! target) as [ f | ] eqn:Hfile.
  - specialize (Hcodec f eq_refl).
    unfold evaluateExistingFile in Hneeded.
    assert (Hwritten :
      file_action operation <> act_delete ->
      exists f0, Some f = Some f0 /\
        fst (resolveFileContent h ctx operation (Some metadata) s) = inr (f_bytes f0)).
    { intros Haction. exists f. split; [ reflexivity | ].
      destruct Hkind as [ Hdelete | [ c Hc ] ]; [ congruence | ].
      unfold resolveFileContent. rewrite Hc in *. cbn.
      destruct (file_action operation); [ | | congruence ];
        (destruct (String.eqb_spec
                     (Buffer_toString h (f_bytes f) (default "utf8" (encoding operation))) c)
           as [ <- | _ ];
         [ rewrite Hcodec; reflexivity
         | destruct (template operation); discriminate Hneeded ]). }
    destruct (file_action operation); [ | | discriminate Hneeded ];
      apply Hwritten; discriminate.
  - unfold handleMissingFile in Hneeded.
    destruct (file_action operation); [ discriminate | discriminate | reflexivity ].
Qed.

Lemma unneeded_file_operation_changes_nothing_witness :
  let op := file_op act_ensure "README.md" (Some "hello") in
  let ctx := {| workspaceRoot := ["ws"]; backupDir := ["ws"; ".kb"; "logs"; "setup"];
                autoConfirm := true |} in
  let s := with_files {[ ["ws"; "README.md"] := {| f_bytes := "hello"; f_mode := 420 |} ]}
                      empty_state in
  applyFileOperation (table_host []) ctx op (meta "file-1") s
  = (inr {| changed := false; result_backupPath := None |}, s).
Proof.
  intros op ctx s.
  apply (unneeded_file_operation_changes_nothing (table_host []) ctx op (meta "file-1") s
           ["ws"; "README.md"]).
  - reflexivity.
  - right. eexists. reflexivity.
  - intros f _. reflexivity.
  - vm_compute. reflexivity.
Defined.

(** ** The basic analyzer *)

Lemma analyzeAll_fold {A} (f : OperationWithMetadata -> A)
    (operations : list OperationWithMetadata) (i : string) :
  forall m,
    ~ In i (map (fun o => id (metadata o)) operations) ->
    assoc i (fold_left (fun results owm => assoc_set (id (metadata owm)) (f owm) results)
                       operations m)
    = assoc i m.
Proof.
  induction operations as [ | op rest IH ]; intros m Hfresh; [ reflexivity | ].
  cbn [fold_left]. cbn [map] in Hfresh. rewrite IH.
  - apply assoc_assoc_set_ne. intros ->. apply Hfresh. left. reflexivity.
  - intros Hin. apply Hfresh. right. exact Hin.
Qed.

(** X20. [analyzeAll] files each result under the id of its operation:
    the map it returns gives, for an id, the analysis of the last
    operation of the list that carries it, and nothing for an id that
    no operation carries. *)
Theorem analyzeAll_keeps_last_result (h : Host) (message : Error -> string)
    (cwd_ : path) (operations : list OperationWithMetadata) (s : State) :
  (forall before owm after,
     operations = before ++ owm :: after ->
     ~ In (id (metadata owm)) (map (fun o => id (metadata o)) after) ->
     assoc (id (metadata owm)) (analyzeAll h message cwd_ operations s)
     = Some (BasicAnalyzer_analyze h message cwd_ owm s)) /\
  (forall i,
     ~ In i (map (fun o => id (metadata o)) operations) ->
     assoc i (analyzeAll h message cwd_ operations s) = None).
Proof.
  unfold analyzeAll. split.
  - intros before owm after -> Hlast.
    rewrite fold_left_app. cbn [fold_left].
    rewrite (analyzeAll_fold (fun o => BasicAnalyzer_analyze h message cwd_ o s))
      by exact Hlast.
    apply assoc_assoc_set.
  - intros i Hfresh.
    rewrite (analyzeAll_fold (fun o => BasicAnalyzer_analyze h message cwd_ o s))
      by exact Hfresh.
    reflexivity.
Qed.



(** ** Applying a config mutation twice *)













